(** * EnvHaven CLI: connection and sync orchestration

    A shallow embedding of the orchestration layer of the [haven] command
    line tool (TypeScript, run by Bun) and the properties its
    specification states about it.

    Sources embedded here:
    - [cli/src/ssh/config.ts]    : [generateHostConfig], [writeHostConfig],
                                   [removeHostConfig]
    - [cli/src/ssh/keys.ts]      : [findExistingKeys], [analyzeKeys],
                                   [hasUsableKey] and their helpers
    - [cli/src/sync/mutagen.ts]  : [simpleHash], [getSyncSessionName],
                                   [stopSync], [getSyncStatus],
                                   [parseSessionStatus]
    - [cli/src/sync/ignore.ts]   : [parseIgnoreFile], [getAllIgnorePatterns]
    - [cli/src/commands/connect.ts] : the probe / host-key recovery part of
                                   [connect]
    - the command line entry point : [RESERVED_COMMANDS], [main]

    Modelled besides, for the further properties at the end:
    [buildMutagenIgnoreArgs] (sync/ignore.ts); [getSyncSession],
    [resumeSync], [pauseSync], [flushSync], [startSync] (sync/mutagen.ts);
    [getPublicKeys], [hasExistingKeys], [getHavenPublicKey],
    [generateHavenKey], [ensureKeyExists] (ssh/keys.ts);
    [getWorkspaceUrl], [prompt], [showGeneratedKey], [ensureUsableKey],
    [promptForEncryptedKeyResolution] (commands/connect.ts).

    Conventions.  A JavaScript string is a sequence of UTF-16 code units.
    It is modelled as a [list ascii], one [ascii] per code unit, so the
    model covers the strings all of whose code units are below 256.
    Subprocesses and the file system are oracles passed in as records or
    section variables; a function that throws returns a [result]. *)

From Stdlib Require Import Ascii String DecimalString.
From Stdlib Require Import ZArith NArith Lia Bool Arith List.
From Stdlib Require Import DecimalN.
Import ListNotations.

Set Implicit Arguments.

(** ** JavaScript strings *)

Definition text := list ascii.

Definition txt (s : string) : text := list_ascii_of_string s.

Definition text_eqb (a b : text) : bool :=
  if list_eq_dec ascii_dec a b then true else false.

Module Js.

Definition LF : ascii := "010"%char.
Definition CR : ascii := "013"%char.

(** [LineTerminator] of ECMAScript, restricted to code units below 256:
    U+000A and U+000D (U+2028 and U+2029 lie outside the model). *)
Definition isLineTerminator (c : ascii) : bool :=
  Ascii.eqb c LF || Ascii.eqb c CR.

(** [WhiteSpace] and [LineTerminator] code units below 256, the set
    that [String.prototype.trim] strips: TAB, LF, VT, FF, CR, SP, NBSP. *)
Definition isWhiteSpace (c : ascii) : bool :=
  let n := nat_of_ascii c in
  ((9 <=? n) && (n <=? 13)) || (n =? 32) || (n =? 160).

Fixpoint trimStart (s : text) : text :=
  match s with
  | c :: s' => if isWhiteSpace c then trimStart s' else s
  | [] => []
  end.

Definition trimEnd (s : text) : text := rev (trimStart (rev s)).

Definition trim (s : text) : text := trimEnd (trimStart s).

(** [s.startsWith(p)] *)
Fixpoint startsWith (s p : text) {struct p} : bool :=
  match p, s with
  | [], _ => true
  | a :: p', b :: s' => Ascii.eqb a b && startsWith s' p'
  | _ :: _, [] => false
  end.

(** [s.endsWith(p)] *)
Definition endsWith (s p : text) : bool := startsWith (rev s) (rev p).

(** [s.includes(needle)] *)
Fixpoint includes (s needle : text) : bool :=
  startsWith s needle
  || match s with
     | [] => false
     | _ :: s' => includes s' needle
     end.

(** [s.split(sep)] for a non-empty separator: [skip] counts the code
    units of a separator occurrence still to be passed over, [cur] holds
    the current piece in reverse. *)
Fixpoint splitAux (sep : text) (skip : nat) (cur s : text) : list text :=
  match s with
  | [] => [rev cur]
  | c :: s' =>
      match skip with
      | S k => splitAux sep k cur s'
      | O =>
          if startsWith s sep
          then rev cur :: splitAux sep (length sep - 1) [] s'
          else splitAux sep 0 (c :: cur) s'
      end
  end.

Definition split (s sep : text) : list text := splitAux sep 0 [] s.

(** [xs.join(sep)] *)
Fixpoint join (sep : text) (xs : list text) : text :=
  match xs with
  | [] => []
  | [x] => x
  | x :: rest => x ++ sep ++ join sep rest
  end.

(** A string is falsy exactly when it is empty. *)
Definition truthy (s : text) : bool :=
  match s with [] => false | _ :: _ => true end.

(** [s.toLowerCase()] on code units below 256: A-Z, and the Latin-1
    capitals U+00C0..U+00DE except the multiplication sign U+00D7. *)
Definition lowerChar (c : ascii) : ascii :=
  let n := nat_of_ascii c in
  if ((65 <=? n) && (n <=? 90))
     || ((192 <=? n) && (n <=? 222) && negb (n =? 215))
  then ascii_of_nat (n + 32) else c.

Definition toLowerCase (s : text) : text := map lowerChar s.

(** [String(n)] for a non-negative integer below 2^53. *)
Definition ofN (n : N) : text :=
  txt (NilEmpty.string_of_uint (N.to_uint n)).

End Js.

(** Outcome of a function that may throw an [Error] with a message. *)
Inductive result (A : Type) : Type :=
| Ok (a : A)
| Throw (message : text).
Arguments Ok {A} a.
Arguments Throw {A} message.

(** Outcome of a spawned subprocess. *)
Record ProcResult : Type := mkProc {
  exitCode : Z;
  stdout : text;
  stderr : text
}.

(** ** Sync session controller ([cli/src/sync/mutagen.ts]) *)

Module Mutagen.

Inductive Status : Type :=
| watching | scanning | staging | reconciling
| saving | disconnected | halted | unknown.

Record SyncStatus : Type := mkSyncStatus {
  status : Status;
  conflicts : list text;
  errors : list text
}.

(** [ToInt32]: the signed 32-bit value of an integer. *)
Definition toInt32 (z : Z) : Z := ((z + 2 ^ 31) mod 2 ^ 32 - 2 ^ 31)%Z.

(** [a << n] and [a & b] on numbers holding integers. *)
Definition shl32 (a n : Z) : Z := toInt32 (Z.shiftl (toInt32 a) n).
Definition and32 (a b : Z) : Z := Z.land (toInt32 a) (toInt32 b).

Definition digit36 (d : Z) : ascii :=
  if (d <? 10)%Z then ascii_of_nat (48 + Z.to_nat d)
  else ascii_of_nat (97 + Z.to_nat (d - 10)).

Fixpoint toRadix36 (fuel : nat) (n : Z) (acc : text) : text :=
  match fuel with
  | O => acc
  | S fuel' =>
      let acc' := digit36 (n mod 36)%Z :: acc in
      if (n / 36 =? 0)%Z then acc' else toRadix36 fuel' (n / 36)%Z acc'
  end.

(** [n.toString(36)] for a non-negative integer [n]. *)
Definition toString36 (n : Z) : text :=
  toRadix36 (S (Z.to_nat (Z.log2 n))) n [].

(** [charCodeAt] *)
Definition charCode (c : ascii) : Z := Z.of_nat (nat_of_ascii c).

Definition simpleHash (str : text) : text :=
  let step (hash : Z) (c : ascii) : Z :=
    let hash := (shl32 hash 5 - hash + charCode c)%Z in
    and32 hash hash in
  toString36 (Z.abs (fold_left step str 0%Z)).

Definition parseSessionStatus (status : option text) : Status :=
  match status with
  | None => unknown
  | Some [] => unknown
  | Some status =>
      let statusLower := Js.toLowerCase status in
      if Js.includes statusLower (txt "watching") then watching
      else if Js.includes statusLower (txt "scanning") then scanning
      else if Js.includes statusLower (txt "staging") then staging
      else if Js.includes statusLower (txt "reconciling") then reconciling
      else if Js.includes statusLower (txt "saving") then saving
      else if Js.includes statusLower (txt "halted") then halted
      else if Js.includes statusLower (txt "disconnected") then disconnected
      else unknown
  end.

Definition isDigit (c : ascii) : bool :=
  let n := nat_of_ascii c in (48 <=? n) && (n <=? 57).

Fixpoint digitsValue (acc : N) (s : text) : N :=
  match s with
  | c :: s' =>
      if isDigit c
      then digitsValue (10 * acc + N.of_nat (nat_of_ascii c - 48))%N s'
      else acc
  | [] => acc
  end.

(** [parseInt(s, 10)]: leading white space is skipped, then an optional
    sign and the longest run of decimal digits are read; [None] is NaN. *)
Definition parseInt10 (s : text) : option Z :=
  let s := Js.trimStart s in
  let (neg, s) :=
    match s with
    | "-"%char :: s' => (true, s')
    | "+"%char :: s' => (false, s')
    | _ => (false, s)
    end in
  match s with
  | c :: _ =>
      if isDigit c
      then let v := Z.of_N (digitsValue 0%N s) in
           Some (if neg then (- v)%Z else v)
      else None
  | [] => None
  end.

(** [x || "0"] for a possibly undefined string. *)
Definition orElse (x : option text) (d : text) : text :=
  match x with
  | Some ((_ :: _) as s) => s
  | _ => d
  end.

Section WithEngine.

(** [canonicalPath] of [utils/paths]. *)
Variable canonicalPath : text -> text.

(** Spawning the engine binary (with its dedicated data directory) on
    an argument vector: exit code, raw standard output and error.  The
    binary is the one [ensureMutagenInstalled] of [sync/download]
    resolves; that function is taken to return. *)
Variable spawnMutagen : list text -> ProcResult.

Definition getSyncSessionName (localPath : text) : text :=
  let hash := simpleHash (canonicalPath localPath) in
  txt "haven-" ++ hash.

Definition runMutagen (args : list text) : ProcResult :=
  let proc := spawnMutagen args in
  mkProc (exitCode proc) (Js.trim (stdout proc)) (Js.trim (stderr proc)).

Definition stopSync (localPath : text) : result unit :=
  let sessionName := getSyncSessionName localPath in
  let result := runMutagen [txt "sync"; txt "terminate"; sessionName] in
  if negb (exitCode result =? 0)%Z
     && negb (Js.includes (stderr result) (txt "does not exist"))
  then Throw (txt "Failed to stop sync: " ++ stderr result)
  else Ok tt.

Definition statusTemplate : text :=
  txt "{{range .}}{{.Name}}|{{.Status.Description}}|{{len .Conflicts}}|{{range .Alpha.ScanProblems}}{{.}};;{{end}}|{{range .Beta.ScanProblems}}{{.}};;{{end}}"
  ++ [Js.LF] ++ txt "{{end}}".

(** The problems of one endpoint: [if (p) errors.push(...p.split(";;").filter(Boolean))]. *)
Definition problems (p : option text) : list text :=
  match p with
  | Some ((_ :: _) as p) => filter Js.truthy (Js.split p (txt ";;"))
  | _ => []
  end.

(** What [getSyncStatus] returns for a line whose name matched.  The
    conflict count is a JavaScript number, read and printed here as an
    exact integer: this stands for the code for counts below 2^53, the
    range [Js.ofN] covers. *)
Definition statusOfLine (fields : list text) : SyncStatus :=
  let statusDesc := nth_error fields 1 in
  let conflictCount := nth_error fields 2 in
  let alphaProblems := nth_error fields 3 in
  let betaProblems := nth_error fields 4 in
  let numConflicts := parseInt10 (orElse conflictCount (txt "0")) in
  let conflicts :=
    match numConflicts with
    | Some n =>
        if (0 <? n)%Z
        then [Js.ofN (Z.to_N n) ++ txt " conflict(s) detected"]
        else []
    | None => []
    end in
  mkSyncStatus (parseSessionStatus statusDesc) conflicts
               (problems alphaProblems ++ problems betaProblems).

(** The [for (const line of lines)] loop: the first line whose first
    field is the session name decides. *)
Fixpoint scanLines (sessionName : text) (lines : list text) : SyncStatus :=
  match lines with
  | [] => mkSyncStatus disconnected [] []
  | line :: rest =>
      let fields := Js.split line (txt "|") in
      if text_eqb (hd [] fields) sessionName
      then statusOfLine fields
      else scanLines sessionName rest
  end.

Definition getSyncStatus (localPath : text) : SyncStatus :=
  let sessionName := getSyncSessionName localPath in
  let result :=
    runMutagen [txt "sync"; txt "list"; txt "--template"; statusTemplate] in
  if negb (exitCode result =? 0)%Z
  then mkSyncStatus disconnected [] [stderr result]
  else
    let lines := filter Js.truthy (Js.split (stdout result) [Js.LF]) in
    scanLines sessionName lines.

End WithEngine.

End Mutagen.

(** ** Ignore patterns ([cli/src/sync/ignore.ts]) *)

Module Ignore.

Definition GITIGNORE_FILE : text := txt ".gitignore".

Definition DEFAULT_IGNORE_PATTERNS : list text :=
  map txt
    [ ".git/"; "node_modules/"; ".pnpm-store/"; "__pycache__/"; "*.pyc";
      ".pytest_cache/"; ".mypy_cache/"; "dist/"; "build/"; ".next/";
      ".nuxt/"; ".output/"; "target/"; ".gradle/"; ".idea/"; "*.log";
      "*.tmp"; "*.swp"; "*.swo"; ".DS_Store"; ".haven/" ]%string.

Definition parseIgnoreFile (content : text) : list text :=
  filter
    (fun line => (0 <? length line) && negb (Js.startsWith line (txt "#")))
    (map Js.trim (Js.split content [Js.LF])).

(** A JavaScript [Set] of strings keeps its elements in insertion order;
    adding an element already present changes nothing. *)
Definition setAdd (s : list text) (x : text) : list text :=
  if existsb (text_eqb x) s then s else s ++ [x].

(** [new Set(xs)] *)
Definition newSet (xs : list text) : list text := fold_left setAdd xs [].

Section WithFs.

(** [path.resolve], [fs.existsSync] and [fs.readFileSync(_, "utf-8")]. *)
Variable resolve : text -> text -> text.
Variable existsSync : text -> bool.
Variable readFileSync : text -> text.

Definition hasGitignore (projectRoot : text) : bool :=
  existsSync (resolve projectRoot GITIGNORE_FILE).

Definition loadGitignorePatterns (projectRoot : text) : list text :=
  let gitignorePath := resolve projectRoot GITIGNORE_FILE in
  if negb (existsSync gitignorePath) then []
  else parseIgnoreFile (readFileSync gitignorePath).

Definition getAllIgnorePatterns (projectRoot : text) (useGitignore : bool)
  : list text :=
  let defaultPatterns := DEFAULT_IGNORE_PATTERNS in
  let gitignorePatterns :=
    if useGitignore then loadGitignorePatterns projectRoot else [] in
  let combined := newSet (defaultPatterns ++ gitignorePatterns) in
  (* Array.from(combined) *)
  combined.

End WithFs.

End Ignore.

(** ** Key usability analysis ([cli/src/ssh/keys.ts]) *)

Module Keys.

Definition HAVEN_KEY_NAME : text := txt "haven_ed25519".

Record SshKeyInfo : Type := mkKey {
  privateKeyPath : text;
  publicKeyPath : text;
  publicKey : text
}.

Record KeyAnalysis : Type := mkAnalysis {
  key : SshKeyInfo;
  encrypted : bool;
  inAgent : bool;
  usable : bool
}.

(** The machine the analysis runs on: the file system and the three
    subprocesses it consults.  [readFileSync] is [None] when it throws. *)
Record Machine : Type := mkMachine {
  getSshDir : text;
  existsSync : text -> bool;
  readdirSync : text -> list text;
  readFileSync : text -> option text;
  (** [ssh-keygen -lf path] *)
  sshKeygenFingerprint : text -> ProcResult;
  (** [ssh-keygen -y -f path] with an empty passphrase ([-P]) *)
  sshKeygenDecode : text -> ProcResult;
  (** [ssh-add -l] *)
  sshAddList : ProcResult
}.

Section WithMachine.

Variable m : Machine.

(** [sshDirOverride ?? getSshDir()] *)
Definition dirOf (sshDirOverride : option text) : text :=
  match sshDirOverride with
  | Some d => d
  | None => getSshDir m
  end.

Definition isValidSshPublicKeyFile (path : text) : bool :=
  (exitCode (sshKeygenFingerprint m path) =? 0)%Z.

(** [s.slice(0, -4)] *)
Definition dropLast4 (s : text) : text := firstn (length s - 4) s.

(** One round of the loop of [findExistingKeys]: the key pushed for a
    directory entry, if any. *)
Definition keyOfFile (sshDir file : text) : option SshKeyInfo :=
  if negb (Js.endsWith file (txt ".pub")) then None
  else
    let publicKeyPath := sshDir ++ txt "/" ++ file in
    let privateKeyPath := dropLast4 publicKeyPath in
    if negb (existsSync m privateKeyPath) then None
    else if negb (isValidSshPublicKeyFile publicKeyPath) then None
    else
      match readFileSync m publicKeyPath with
      | None => None
      | Some content =>
          let publicKey := Js.trim content in
          if Js.truthy publicKey
          then Some (mkKey privateKeyPath publicKeyPath publicKey)
          else None
      end.

Fixpoint collectKeys (sshDir : text) (files : list text)
  : list SshKeyInfo :=
  match files with
  | [] => []
  | file :: rest =>
      match keyOfFile sshDir file with
      | Some k => k :: collectKeys sshDir rest
      | None => collectKeys sshDir rest
      end
  end.

Definition findExistingKeys (sshDirOverride : option text)
  : list SshKeyInfo :=
  let sshDir := dirOf sshDirOverride in
  if negb (existsSync m sshDir) then []
  else collectKeys sshDir (readdirSync m sshDir).

Definition getAllKeyPaths (sshDirOverride : option text) : list text :=
  map privateKeyPath (findExistingKeys sshDirOverride).

Definition getHavenKeyPath (sshDirOverride : option text) : text :=
  dirOf sshDirOverride ++ txt "/" ++ HAVEN_KEY_NAME.

Definition hasHavenKey (sshDirOverride : option text) : bool :=
  let keyPath := getHavenKeyPath sshDirOverride in
  existsSync m keyPath && existsSync m (keyPath ++ txt ".pub").

Definition isKeyEncrypted (keyPath : text) : bool :=
  negb (exitCode (sshKeygenDecode m keyPath) =? 0)%Z.

(** [line.split(" ")[1]] *)
Definition secondField (line : text) : option text :=
  nth_error (Js.split line (txt " ")) 1.

Fixpoint definedOnly (xs : list (option text)) : list text :=
  match xs with
  | [] => []
  | Some x :: rest => x :: definedOnly rest
  | None :: rest => definedOnly rest
  end.

Definition getAgentFingerprints : list text :=
  let proc := sshAddList m in
  if negb (exitCode proc =? 0)%Z then []
  else
    definedOnly
      (map secondField
         (filter (fun line => 0 <? length line)
            (Js.split (Js.trim (stdout proc)) [Js.LF]))).

Definition getKeyFingerprint (keyPath : text) : option text :=
  let proc := sshKeygenFingerprint m keyPath in
  if negb (exitCode proc =? 0)%Z then None
  else secondField (Js.trim (stdout proc)).

Definition analyzeKey (agentFingerprints : list text) (key : SshKeyInfo)
  : KeyAnalysis :=
  let encrypted := isKeyEncrypted (privateKeyPath key) in
  let fingerprint := getKeyFingerprint (privateKeyPath key) in
  let inAgent :=
    match fingerprint with
    | Some ((_ :: _) as fp) => existsb (text_eqb fp) agentFingerprints
    | _ => false
    end in
  let usable := negb encrypted || inAgent in
  mkAnalysis key encrypted inAgent usable.

Definition analyzeKeys (sshDirOverride : option text)
  : list KeyAnalysis :=
  let keys := findExistingKeys sshDirOverride in
  let agentFingerprints := getAgentFingerprints in
  map (analyzeKey agentFingerprints) keys.

Definition hasUsableKey (sshDirOverride : option text) : bool :=
  if hasHavenKey sshDirOverride then true
  else
    let analyses := analyzeKeys sshDirOverride in
    existsb usable analyses.

End WithMachine.

End Keys.

(** ** Command line dispatch (the entry point of the CLI) *)

Module Cli.

Definition RESERVED_COMMANDS : list text :=
  map txt
    [ "connect"; "disconnect"; "status"; "help";
      "--help"; "-h"; "--version"; "-V" ]%string.

(** [RESERVED_COMMANDS.has(x)] *)
Definition reserved (x : text) : bool :=
  existsb (text_eqb x) RESERVED_COMMANDS.

(** Where [main] hands control. *)
Inductive Dispatch : Type :=
| ShowHelp                              (* program.help() *)
| RemoteCommand (args : list text)      (* handleRemoteCommand(args) *)
| ParseProgram (args : list text).      (* program.parseAsync(process.argv) *)

(** [main], with [args = process.argv.slice(2)]. *)
Definition main (args : list text) : Dispatch :=
  match args with
  | [] => ShowHelp
  | firstArg :: rest =>
      if text_eqb firstArg (txt "--") then RemoteCommand rest
      else if Js.truthy firstArg
              && negb (reserved firstArg)
              && negb (Js.startsWith firstArg (txt "-"))
      then RemoteCommand args
      else ParseProgram args
  end.

End Cli.

(** ** Connect orchestrator ([cli/src/commands/connect.ts])

    The part of [connect] that follows the resolution of the target and
    the key check: host-config write, probe, host-key recovery, sync start
    and persistence.  Spinner and console output are not modelled. *)

Module Connect.

Record ConnectionConfig : Type := mkConfig {
  host : text;
  port : N;
  user : text;
  remotePath : text;
  sshAlias : option text
}.

Record ConnectOptions : Type := mkOptions {
  idleTimeout : option text;
  resetHostKey : option bool;
  useGitignore : option bool
}.

(** Result of [testConnection]. *)
Record ProbeResult : Type := mkProbe {
  success : bool;
  error : option text
}.

(** Calls that leave the orchestrator, in the order they are made. *)
Inductive Event : Type :=
| RemoveHostKey (host : text) (port : N)
| WriteHostConfig (alias host : text) (port : N) (user : text)
| TestConnection (alias : text)
| Prompt (question : text)
| GetRemoteEnv (alias name : text)
| StartSync (localPath alias : text) (useGitignore : bool)
| SaveConnection (localPath : text)
| SaveSession (localPath : text) (idleTimeout : option N).

(** What the outside world answers.  The n-th probe of the remote side
    and the n-th line typed by the operator are given by position. *)
Record World : Type := mkWorld {
  sshProbe : nat -> ProcResult;       (* ssh -o BatchMode=yes ... echo ok *)
  typed : nat -> text;                (* the line read by the n-th prompt *)
  sshPrintenv : ProcResult;           (* ssh ... printenv NAME *)
  gitignoreExists : bool;             (* hasGitignore(localPath) *)
  startSyncResult : result text       (* startSync(...) *)
}.

Record State : Type := mkState {
  probesDone : nat;
  promptsDone : nat;
  trace : list Event
}.

Definition initial : State := mkState 0 0 [].

(** A computation either returns or ends the process
    ([process.exit(code)]). *)
Inductive Outcome (A : Type) : Type :=
| Return (a : A)
| Exit (code : Z).
Arguments Return {A} a.
Arguments Exit {A} code.

Definition M (A : Type) : Type := State -> Outcome A * State.

Definition ret {A} (a : A) : M A := fun s => (Return a, s).

Definition bind {A B} (c : M A) (k : A -> M B) : M B :=
  fun s =>
    match c s with
    | (Return a, s') => k a s'
    | (Exit code, s') => (Exit code, s')
    end.

Definition exit {A} (code : Z) : M A := fun s => (Exit code, s).

Definition emit (e : Event) : M unit :=
  fun s => (Return tt, mkState (probesDone s) (promptsDone s) (trace s ++ [e])).

Notation "x <- c ;; k" := (bind c (fun x => k))
  (at level 61, c at next level, right associativity).
Notation "c ;; k" := (bind c (fun _ => k))
  (at level 61, right associativity).

Definition when (b : bool) (c : M unit) : M unit :=
  if b then c else ret tt.

Section WithWorld.

Variable w : World.
(** [generateSshAlias] of [config/store] and [parseDuration] of
    [utils/duration]. *)
Variable generateSshAlias : text -> N -> text.
Variable parseDuration : text -> option N.

(** [testConnection] of [ssh/config.ts]. *)
Definition testConnection (alias : text) : M ProbeResult :=
  fun s =>
    let proc := sshProbe w (probesDone s) in
    let s' := mkState (S (probesDone s)) (promptsDone s)
                      (trace s ++ [TestConnection alias]) in
    if (exitCode proc =? 0)%Z
    then (Return (mkProbe true None), s')
    else (Return (mkProbe false (Some (Js.trim (stderr proc)))), s').

(** [prompt]: the trimmed answer, else the default value, else the
    empty string. *)
Definition prompt (question defaultValue : text) : M text :=
  fun s =>
    let answer := Js.trim (typed w (promptsDone s)) in
    let s' := mkState (probesDone s) (S (promptsDone s))
                      (trace s ++ [Prompt question]) in
    (Return (if Js.truthy answer then answer else defaultValue), s').

(** [getRemoteEnv] of [ssh/config.ts]. *)
Definition getRemoteEnv (alias varName : text) : M (option text) :=
  emit (GetRemoteEnv alias varName) ;;
  let proc := sshPrintenv w in
  if (exitCode proc =? 0)%Z
  then let out := Js.trim (stdout proc) in
       ret (if Js.truthy out then Some out else None)
  else ret None.

Definition removeHostKey (h : text) (p : N) : M unit :=
  emit (RemoveHostKey h p).

Definition writeHostConfig (alias h : text) (p : N) (u : text) : M unit :=
  emit (WriteHostConfig alias h p u).

(** [try { await startSync(...) } catch { ...; process.exit(1) }] *)
Definition startSync (localPath alias : text) (useGit : bool) : M unit :=
  emit (StartSync localPath alias useGit) ;;
  match startSyncResult w with
  | Ok _ => ret tt
  | Throw _ => exit 1%Z
  end.

Definition fingerprintQuestion : text :=
  txt "Connection fingerprint changed. If you recently updated your workspace, this is expected. Reconnect? [Y/n]".

Definition gitignoreQuestion : text :=
  txt "Found .gitignore. Exclude matching files from sync? [Y/n]".

(** [error?.includes("Host key verification failed")] *)
Definition hostKeyChanged (r : ProbeResult) : bool :=
  match error r with
  | Some e => Js.includes e (txt "Host key verification failed")
  | None => false
  end.

(** The probe with its recovery: lines 290-348 of [connect]. *)
Definition probe (config : ConnectionConfig) (alias : text) : M unit :=
  connResult <- testConnection alias ;;
  if negb (success connResult) then
    if hostKeyChanged connResult then
      answer <- prompt fingerprintQuestion (txt "Y") ;;
      when (text_eqb (Js.toLowerCase answer) (txt "n")) (exit 1%Z) ;;
      removeHostKey (host config) (port config) ;;
      retryResult <- testConnection alias ;;
      when (negb (success retryResult)) (exit 1%Z)
    else exit 1%Z
  else ret tt.

Definition resolveIdleTimeout (options : ConnectOptions) (alias : text)
  : M (option N) :=
  match idleTimeout options with
  | Some ((_ :: _) as d) => ret (parseDuration d)
  | _ =>
      remoteTimeout <- getRemoteEnv alias (txt "HAVEN_IDLE_TIMEOUT") ;;
      match remoteTimeout with
      | Some ((_ :: _) as d) => ret (parseDuration d)
      | _ => ret None
      end
  end.

Definition resolveUseGitignore (options : ConnectOptions) : M bool :=
  let useGit :=
    match useGitignore options with Some b => b | None => false end in
  if negb useGit && gitignoreExists w then
    answer <- prompt gitignoreQuestion (txt "Y") ;;
    ret (negb (text_eqb (Js.toLowerCase answer) (txt "n")))
  else ret useGit.

(** [connect] from line 278 on, for a resolved [localPath] and
    [config]. *)
Definition connectResolved (localPath : text) (config : ConnectionConfig)
           (options : ConnectOptions) : M unit :=
  let alias :=
    match sshAlias config with
    | Some a => a
    | None => generateSshAlias (host config) (port config)
    end in
  when (match resetHostKey options with Some b => b | None => false end)
       (removeHostKey (host config) (port config)) ;;
  writeHostConfig alias (host config) (port config) (user config) ;;
  probe config alias ;;
  idle <- resolveIdleTimeout options alias ;;
  useGit <- resolveUseGitignore options ;;
  startSync localPath alias useGit ;;
  emit (SaveConnection localPath) ;;
  emit (SaveSession localPath idle).

Definition run (localPath : text) (config : ConnectionConfig)
           (options : ConnectOptions) : Outcome unit * State :=
  connectResolved localPath config options initial.

End WithWorld.

Definition isPurge (e : Event) : bool :=
  match e with RemoveHostKey _ _ => true | _ => false end.

Definition isProbe (e : Event) : bool :=
  match e with TestConnection _ => true | _ => false end.

Definition isStartSync (e : Event) : bool :=
  match e with StartSync _ _ _ => true | _ => false end.

Definition count (p : Event -> bool) (tr : list Event) : nat :=
  length (filter p tr).

(** The events that follow the first probe. *)
Fixpoint afterFirstProbe (tr : list Event) : list Event :=
  match tr with
  | [] => []
  | e :: rest => if isProbe e then rest else afterFirstProbe rest
  end.

End Connect.

(** ** SSH host-config synthesis ([cli/src/ssh/config.ts]) *)

Module SshConfig.

Import Js.

Definition generateHostConfig (keyPaths : list text)
           (alias host : text) (port : N) (user : text) : text :=
  let identityLines :=
    join [LF] (map (fun p => txt "  IdentityFile " ++ p) keyPaths) in
  let identitySection :=
    if truthy identityLines then identityLines ++ [LF] else [] in
  txt "Host " ++ alias ++ [LF]
  ++ txt "  HostName " ++ host ++ [LF]
  ++ txt "  Port " ++ ofN port ++ [LF]
  ++ txt "  User " ++ user ++ [LF]
  ++ identitySection
  ++ txt "  ForwardAgent no" ++ [LF]
  ++ txt "  ForwardX11 no" ++ [LF]
  ++ txt "  StrictHostKeyChecking accept-new" ++ [LF]
  ++ txt "  ServerAliveInterval 5" ++ [LF]
  ++ txt "  ServerAliveCountMax 3" ++ [LF].

(** *** The pattern [^Host <alias>\n(?:(?!^Host ).*\n?)*] with flags [gm]

    The alias is spliced into the pattern as it is; the functions below
    read it as a literal, which is what the pattern means for an alias
    without regular-expression metacharacters ([aliasOk]).  For another
    alias the pattern of the code means something else (a dot matches
    any character) or [new RegExp] throws, so the functions below stand
    for the code only under [aliasOk], and every property that goes
    through the pattern assumes it.

    A position of the subject is given by the rest of the subject and by
    [bol]: whether the position is the start of the subject or follows a
    line terminator, which is what [^] tests under the [m] flag. *)

Definition isAliasChar (c : ascii) : bool :=
  let n := nat_of_ascii c in
  ((48 <=? n) && (n <=? 57)) || ((65 <=? n) && (n <=? 90))
  || ((97 <=? n) && (n <=? 122)) || (n =? 45) || (n =? 95).

Definition aliasOk (alias : text) : bool :=
  truthy alias && forallb isAliasChar alias.

(** [Host <alias>\n] *)
Definition header (alias : text) : text := txt "Host " ++ alias ++ [LF].

(** [.*]: the longest run of code units that are not line terminators,
    and what follows it. *)
Fixpoint dotStar (s : text) : text * text :=
  match s with
  | c :: s' =>
      if isLineTerminator c then ([], s)
      else let (l, r) := dotStar s' in (c :: l, r)
  | [] => ([], [])
  end.

(** One round of the group [(?!^Host ).*\n?]: [None] when the lookahead
    rejects the position, else the position after the round. *)
Definition groupOnce (bol : bool) (s : text) : option (bool * text) :=
  if bol && startsWith s (txt "Host ") then None
  else
    let (l, r) := dotStar s in
    match r with
    | c :: r' =>
        if Ascii.eqb c LF then Some (true, r')
        else Some (match l with [] => bol | _ :: _ => false end, r)
    | [] => Some (match l with [] => bol | _ :: _ => false end, [])
    end.

(** [(?: ... )*], greedy: rounds are repeated until the lookahead
    rejects the position or a round matches the empty string. *)
Fixpoint groupStar (fuel : nat) (bol : bool) (s : text) : bool * text :=
  match fuel with
  | O => (bol, s)
  | S fuel' =>
      match groupOnce bol s with
      | None => (bol, s)
      | Some (bol', s') =>
          if length s' =? length s then (bol, s)
          else groupStar fuel' bol' s'
      end
  end.

(** A match attempt at one position: the position after the match. *)
Definition matchAt (alias : text) (bol : bool) (s : text)
  : option (bool * text) :=
  if bol && startsWith s (header alias)
  then Some (groupStar (length s) true (skipn (length (header alias)) s))
  else None.

(** [subject.replace(pattern, empty)] with the [g] flag: matches are looked
    for from left to right, each search resuming where the last match
    ended; what lies between the matches is kept. *)
Fixpoint replaceAll (fuel : nat) (alias : text) (bol : bool) (s : text)
  : text :=
  match fuel with
  | O => s
  | S fuel' =>
      match matchAt alias bol s with
      | Some (bol', s') => replaceAll fuel' alias bol' s'
      | None =>
          match s with
          | [] => []
          | c :: s' => c :: replaceAll fuel' alias (isLineTerminator c) s'
          end
      end
  end.

Definition removeHostBlocks (alias content : text) : text :=
  replaceAll (S (length content)) alias true content.

(** *** The configuration file

    [file] is the content of [<sshDir>/config], [None] when the file does
    not exist; the functions return the file after the call.  The key
    paths are those [getAllKeyPaths] finds on the machine. *)

Definition writeHostConfig (m : Keys.Machine) (alias host : text) (port : N)
           (user : text) (file : option text) : option text :=
  let newConfig :=
    generateHostConfig (Keys.getAllKeyPaths m None) alias host port user in
  let existingContent := match file with Some c => c | None => [] end in
  let updatedContent := removeHostBlocks alias existingContent in
  let finalContent :=
    trim (trim updatedContent ++ [LF; LF] ++ newConfig) ++ [LF] in
  Some finalContent.

Definition removeHostConfig (alias : text) (file : option text)
  : option text :=
  match file with
  | None => None
  | Some existingContent =>
      let updatedContent := trim (removeHostBlocks alias existingContent) in
      if truthy updatedContent
      then Some (updatedContent ++ [LF])
      else Some existingContent
  end.

(** *** Vocabulary of the properties *)

(** The lines of a text, split at line feeds. *)
Definition lines (s : text) : list text := split s [LF].

(** The line that opens the block of an alias. *)
Definition hostLine (alias : text) : text := txt "Host " ++ alias.

(** Number of blocks of an alias in a text: the lines [Host <alias>]. *)
Definition blockCount (alias s : text) : nat :=
  count_occ (list_eq_dec ascii_dec) (lines s) (hostLine alias).

Definition noLineTerminator (s : text) : bool :=
  forallb (fun c => negb (isLineTerminator c)) s.

Definition noCarriageReturn (s : text) : bool :=
  forallb (fun c => negb (Ascii.eqb c CR)) s.

(** Content of a file, the empty text for a missing one. *)
Definition contentOf (file : option text) : text :=
  match file with Some c => c | None => [] end.

End SshConfig.

(** ** SSH host-config synthesis: the line view *)

Module SshLines.

Import Js SshConfig.

(** A list of lines, each followed by a line feed. *)
Definition unlines (ls : list text) : text :=
concat (map (fun l => l ++ [LF]) ls).

(** The lines of a text, by structural recursion; the last one is what
    follows the last line feed. *)
Fixpoint linesOf (s : text) : list text :=
match s with
| [] => [[]]
| c :: s' =>
    if Ascii.eqb c LF then [] :: linesOf s'
    else match linesOf s' with
         | l :: ls => (c :: l) :: ls
         | [] => [[c]]
         end
end.

(** The lines of a block body are passed over up to the first line that
    starts with [Host ]. *)
Fixpoint dropBody (ls : list text) : list text :=
match ls with
| [] => []
| l :: ls' => if startsWith l (txt "Host ") then ls else dropBody ls'
end.

(** What is left of [unlines ls ++ frag] once a block body is passed
    over. *)
Definition bodyRest (ls : list text) (frag : text) : text :=
match dropBody ls with
| [] => if startsWith frag (txt "Host ") then frag else []
| rest => unlines rest ++ frag
end.

(** Removal of the blocks of an alias, line by line: [inBlock] tells
    whether the lines read so far end inside a block of the alias. *)
Fixpoint rmText (alias : text) (inBlock : bool) (ls : list text)
         (frag : text) : text :=
match ls with
| [] => if inBlock && negb (startsWith frag (txt "Host ")) then [] else frag
| l :: ls' =>
    if text_eqb l (hostLine alias) then rmText alias true ls' frag
    else if inBlock && negb (startsWith l (txt "Host "))
         then rmText alias true ls' frag
         else l ++ LF :: rmText alias false ls' frag
end.

(** The same on texts that end with a line feed, as a list of lines. *)
Fixpoint rmLines (alias : text) (inBlock : bool) (ls : list text)
  : list text :=
match ls with
| [] => []
| l :: ls' =>
    if text_eqb l (hostLine alias) then rmLines alias true ls'
    else if inBlock && negb (startsWith l (txt "Host "))
         then rmLines alias true ls'
         else l :: rmLines alias false ls'
end.

(** Whether a list of lines read from a given state ends inside a block. *)
Fixpoint endsInBlock (alias : text) (inBlock : bool) (ls : list text)
  : bool :=
match ls with
| [] => inBlock
| l :: ls' =>
    if text_eqb l (hostLine alias) then endsInBlock alias true ls'
    else if inBlock && negb (startsWith l (txt "Host "))
         then endsInBlock alias true ls'
         else endsInBlock alias false ls'
end.

Definition noLF (s : text) : bool := forallb (fun c => negb (Ascii.eqb c LF)) s.

End SshLines.

(** ** The ignore flags of the sync engine (sync/ignore.ts) *)

Module IgnoreArgs.

(** [args.push("--ignore-vcs")], then one [args.push("--ignore", pattern)]
    per pattern. *)
Definition buildMutagenIgnoreArgs (patterns : list text) : list text :=
  fold_left (fun args pattern => args ++ [txt "--ignore"; pattern])
            patterns [txt "--ignore-vcs"].

End IgnoreArgs.

(** ** Starting and resuming a sync session (sync/mutagen.ts) *)

Module MutagenSession.

Import Mutagen.

(** The argument vectors the engine was run with, oldest first. *)
Definition Calls : Type := list (list text).

(** A computation that runs the engine. *)
Definition Run (A : Type) : Type := Calls -> A * Calls.

Definition ret {A} (a : A) : Run A := fun calls => (a, calls).

Definition bind {A B} (c : Run A) (k : A -> Run B) : Run B :=
  fun calls => let (a, calls') := c calls in k a calls'.

Notation "x <- c ;; k" := (bind c (fun x => k))
  (at level 61, c at next level, right associativity).
Notation "c ;; k" := (bind c (fun _ => k))
  (at level 61, right associativity).

Section WithEngine.

(** [canonicalPath] of [utils/paths]. *)
Variable canonicalPath : text -> text.

(** The file system [sync/ignore] reads. *)
Variable resolve : text -> text -> text.
Variable existsSync : text -> bool.
Variable readFileSync : text -> text.

(** What the engine answers to an argument vector, given the vectors it
    was run with before.  [ensureMutagenInstalled] is taken to return;
    the progress callback only displays. *)
Variable engine : Calls -> list text -> ProcResult.

Definition runMutagen (args : list text) : Run ProcResult :=
  fun calls => (Mutagen.runMutagen (engine calls) args, calls ++ [args]).

Definition nameTemplate : text :=
  txt "{{range .}}{{.Name}}" ++ [Js.LF] ++ txt "{{end}}".

Definition getSyncSession (localPath : text) : Run bool :=
  let sessionName := getSyncSessionName canonicalPath localPath in
  result <- runMutagen
              [txt "sync"; txt "list"; txt "--template"; nameTemplate] ;;
  if negb (exitCode result =? 0)%Z then ret false
  else
    let sessionNames := filter Js.truthy (Js.split (stdout result) [Js.LF]) in
    ret (existsb (text_eqb sessionName) sessionNames).

Definition pauseSync (localPath : text) : Run unit :=
  let sessionName := getSyncSessionName canonicalPath localPath in
  runMutagen [txt "sync"; txt "pause"; sessionName] ;; ret tt.

Definition resumeSync (localPath : text) : Run unit :=
  let sessionName := getSyncSessionName canonicalPath localPath in
  runMutagen [txt "sync"; txt "resume"; sessionName] ;; ret tt.

Definition flushSync (localPath : text) : Run unit :=
  let sessionName := getSyncSessionName canonicalPath localPath in
  runMutagen [txt "sync"; txt "flush"; sessionName] ;; ret tt.

Definition startSync (localPath sshAlias : text)
           (config : Connect.ConnectionConfig) (useGitignore : bool)
  : Run (result text) :=
  let sessionName := getSyncSessionName canonicalPath localPath in
  let ignorePatterns :=
    Ignore.getAllIgnorePatterns resolve existsSync readFileSync
      localPath useGitignore in
  let ignoreArgs := IgnoreArgs.buildMutagenIgnoreArgs ignorePatterns in
  existing <- getSyncSession localPath ;;
  if existing then
    resumeSync localPath ;;
    ret (Ok sessionName)
  else
    let args :=
      [txt "sync"; txt "create"; txt "--name"; sessionName;
       txt "--sync-mode"; txt "two-way-safe"]
      ++ ignoreArgs
      ++ [canonicalPath localPath;
          sshAlias ++ txt ":" ++ Connect.remotePath config] in
    result <- runMutagen args ;;
    if negb (exitCode result =? 0)%Z
    then ret (Throw (txt "Failed to start sync: " ++ stderr result))
    else ret (Ok sessionName).

End WithEngine.

End MutagenSession.

(** ** The rest of [ssh/keys.ts]: the managed key *)

Module HavenKey.

Import Keys.

Section WithMachine.

Variable m : Machine.

(** [ssh-keygen -t ed25519 -f path -N <empty> -C haven-cli], and what the
    public key file holds afterwards ([None] when reading it, or one of
    the [chmodSync] calls before, throws).  Creating the directory and
    the files is not modelled. *)
Variable sshKeygenGenerate : text -> ProcResult.
Variable generatedFile : text -> option text.
(** The message of the error the file system throws. *)
Variable fileError : text.

Definition getPublicKeys (sshDirOverride : option text) : list text :=
  map publicKey (findExistingKeys m sshDirOverride).

Definition hasExistingKeys (sshDirOverride : option text) : bool :=
  0 <? length (findExistingKeys m sshDirOverride).

Definition getHavenPublicKey (sshDirOverride : option text) : option text :=
  let pubKeyPath := getHavenKeyPath m sshDirOverride ++ txt ".pub" in
  if negb (existsSync m pubKeyPath) then None
  else
    match readFileSync m pubKeyPath with
    | Some content => Some (Js.trim content)
    | None => None
    end.

Definition generateHavenKey (sshDirOverride : option text)
  : result SshKeyInfo :=
  let privateKeyPath := getHavenKeyPath m sshDirOverride in
  let publicKeyPath := privateKeyPath ++ txt ".pub" in
  let proc := sshKeygenGenerate privateKeyPath in
  if negb (exitCode proc =? 0)%Z
  then Throw (txt "ssh-keygen failed: " ++ stderr proc)
  else
    match generatedFile publicKeyPath with
    | Some content =>
        Ok (mkKey privateKeyPath publicKeyPath (Js.trim content))
    | None => Throw fileError
    end.

Definition ensureKeyExists (sshDirOverride : option text)
  : result (list SshKeyInfo * bool) :=
  let existing := findExistingKeys m sshDirOverride in
  if 0 <? length existing then Ok (existing, false)
  else
    match generateHavenKey sshDirOverride with
    | Ok generated => Ok ([generated], true)
    | Throw e => Throw e
    end.

End WithMachine.

End HavenKey.

(** ** Making sure a key can be used (commands/connect.ts) *)

Module KeySetup.

Import Keys.

(** [s.replace(pattern, replacement)] for a string pattern: the first
    occurrence is replaced.  The replacement is taken literally, which
    is what JavaScript does when it holds no [$]. *)
Fixpoint replaceFirst (s pattern replacement : text) : text :=
  if Js.startsWith s pattern
  then replacement ++ skipn (length pattern) s
  else match s with
       | [] => []
       | c :: s' => c :: replaceFirst s' pattern replacement
       end.

Definition getWorkspaceUrl (target : option text) : option text :=
  match target with
  | None | Some [] => None
  | Some target =>
      if negb (Js.includes target (txt "@"))
         && negb (Js.includes target (txt "."))
      then Some (txt "https://" ++ target ++ txt ".envhaven.app")
      else if Js.endsWith target (txt ".envhaven.app")
              && Js.startsWith target (txt "ssh-")
      then
        let subdomain :=
          replaceFirst (replaceFirst target (txt "ssh-") [])
                       (txt ".envhaven.app") [] in
        Some (txt "https://" ++ subdomain ++ txt ".envhaven.app")
      else None
  end.

(** What is done and what the operator is told or asked, in order
    (progress and success lines are left out). *)
Inductive Step : Type :=
| Announce                                  (* No SSH keys found. ... *)
| Generate                                  (* generateHavenKey() *)
| Show (publicKey : text) (workspaceUrl : option text)
| Warn (analyses : list KeyAnalysis)        (* the list of encrypted keys *)
| Ask (question : text) (defaultValue : option text)
| Advise.                                   (* Load your key into ssh-agent *)

Record State : Type := mkState {
  promptsDone : nat;
  trace : list Step
}.

Definition initial : State := mkState 0 [].

(** A computation returns, ends the process, or throws an [Error]. *)
Inductive Outcome (A : Type) : Type :=
| Return (a : A)
| Exit (code : Z)
| Raise (message : text).
Arguments Return {A} a.
Arguments Exit {A} code.
Arguments Raise {A} message.

Definition M (A : Type) : Type := State -> Outcome A * State.

Definition ret {A} (a : A) : M A := fun s => (Return a, s).

Definition bind {A B} (c : M A) (k : A -> M B) : M B :=
  fun s =>
    match c s with
    | (Return a, s') => k a s'
    | (Exit code, s') => (Exit code, s')
    | (Raise e, s') => (Raise e, s')
    end.

Definition exit {A} (code : Z) : M A := fun s => (Exit code, s).

Definition emit (e : Step) : M unit :=
  fun s => (Return tt, mkState (promptsDone s) (trace s ++ [e])).

Notation "x <- c ;; k" := (bind c (fun x => k))
  (at level 61, c at next level, right associativity).
Notation "c ;; k" := (bind c (fun _ => k))
  (at level 61, right associativity).

Section WithMachine.

Variable m : Machine.
(** The line read by the n-th prompt. *)
Variable typed : nat -> text.
(** [generateHavenKey()] of [ssh/keys.ts]. *)
Variable generated : result SshKeyInfo.

(** [answer.trim() || defaultValue || <empty>] *)
Definition prompt (question : text) (defaultValue : option text) : M text :=
  fun s =>
    let answer := Js.trim (typed (promptsDone s)) in
    let s' := mkState (S (promptsDone s))
                      (trace s ++ [Ask question defaultValue]) in
    (Return (if Js.truthy answer then answer
             else match defaultValue with Some d => d | None => [] end),
     s').

Definition generateHavenKey : M SshKeyInfo :=
  emit Generate ;;
  fun s =>
    match generated with
    | Ok key => (Return key, s)
    | Throw e => (Raise e, s)
    end.

Definition showGeneratedKey (key : SshKeyInfo) (workspaceUrl : option text)
  : M unit :=
  emit (Show (publicKey key) workspaceUrl) ;;
  prompt (txt "Press Enter when ready...") None ;;
  ret tt.

Definition promptForEncryptedKeyResolution (analyses : list KeyAnalysis)
           (workspaceUrl : option text) : M unit :=
  emit (Warn analyses) ;;
  choice <- prompt (txt "Choice") (Some (txt "1")) ;;
  if text_eqb choice (txt "1") then
    key <- generateHavenKey ;;
    showGeneratedKey key workspaceUrl
  else
    emit Advise ;;
    exit 1%Z.

Definition ensureUsableKey (workspaceUrl : option text) : M unit :=
  let keys := findExistingKeys m None in
  if length keys =? 0 then
    emit Announce ;;
    key <- generateHavenKey ;;
    showGeneratedKey key workspaceUrl
  else if hasHavenKey m None then ret tt
  else
    let analyses := analyzeKeys m None in
    let hasUsable := existsb usable analyses in
    if hasUsable then ret tt
    else promptForEncryptedKeyResolution analyses workspaceUrl.

End WithMachine.

End KeySetup.

(** * Properties *)

(** ** Facts about JavaScript strings *)

Lemma text_eqb_eq (a b : text) : text_eqb a b = true <-> a = b.
Proof.
  unfold text_eqb. destruct (list_eq_dec ascii_dec a b); split; congruence.
Qed.

Lemma text_eqb_refl (a : text) : text_eqb a a = true.
Proof. now apply text_eqb_eq. Qed.

Lemma text_eqb_neq (a b : text) : text_eqb a b = false <-> a <> b.
Proof.
  unfold text_eqb. destruct (list_eq_dec ascii_dec a b); split; congruence.
Qed.

Module JsFacts.

Import Js.

Lemma startsWith_app (s p : text) :
  startsWith s p = true <-> exists r, s = p ++ r.
Proof.
  revert s. induction p as [|a p IH]; intros s; simpl.
  - split; [intros _; now exists s | reflexivity].
  - destruct s as [|b s]; simpl.
    + split; [discriminate | intros [r H]; discriminate].
    + rewrite andb_true_iff, Ascii.eqb_eq, IH. split.
      * intros [-> [r ->]]. now exists r.
      * intros [r H]. injection H as -> ->. split; [reflexivity | now exists r].
Qed.

Lemma startsWith_same (p r : text) : startsWith (p ++ r) p = true.
Proof. apply startsWith_app. now exists r. Qed.

Lemma includes_app (s n : text) :
  includes s n = true <-> exists a b, s = a ++ n ++ b.
Proof.
  induction s as [|c s IH]; simpl.
  - rewrite orb_false_r, startsWith_app. split.
    + intros [r H]. now exists [], r.
    + intros [a [b H]]. destruct a; simpl in H.
      * now exists b.
      * discriminate.
  - rewrite orb_true_iff, startsWith_app, IH. split.
    + intros [[r H] | [a [b H]]].
      * now exists [], r.
      * exists (c :: a), b. now rewrite H.
    + intros [a [b H]]. destruct a as [|c' a]; simpl in H.
      * left. now exists b.
      * right. injection H as _ H. now exists a, b.
Qed.

Lemma includes_rev (s n : text) : includes (rev s) (rev n) = includes s n.
Proof.
  apply eq_true_iff_eq. rewrite !includes_app. split.
  - intros [a [b H]]. exists (rev b), (rev a).
    apply (f_equal (@rev ascii)) in H.
    rewrite rev_involutive, !rev_app_distr, rev_involutive in H.
    now rewrite H, app_assoc.
  - intros [a [b H]]. exists (rev b), (rev a).
    now rewrite H, !rev_app_distr, app_assoc.
Qed.

Lemma includes_trimStart (s n : text) (c : ascii) (n' : text) :
  n = c :: n' -> isWhiteSpace c = false ->
  includes (trimStart s) n = includes s n.
Proof.
  intros -> Hc. induction s as [|d s IH]; [reflexivity|].
  cbn [trimStart]. destruct (isWhiteSpace d) eqn:Hd; [|reflexivity].
  rewrite IH. cbn [includes startsWith].
  destruct (Ascii.eqb c d) eqn:E; [|reflexivity].
  apply Ascii.eqb_eq in E. congruence.
Qed.

(** Trimming does not change whether a needle that starts and ends with
    a visible character occurs. *)
Lemma includes_trim (s n : text) (c d : ascii) (n1 n2 : text) :
  n = c :: n1 -> n = n2 ++ [d] ->
  isWhiteSpace c = false -> isWhiteSpace d = false ->
  includes (trim s) n = includes s n.
Proof.
  intros H1 H2 Hc Hd. unfold trim, trimEnd.
  rewrite <- (rev_involutive n) at 1. rewrite includes_rev.
  rewrite (@includes_trimStart _ (rev n) d (rev n2)); trivial.
  - rewrite includes_rev. now apply includes_trimStart with c n1.
  - rewrite H2, rev_app_distr. reflexivity.
Qed.

End JsFacts.

(** ** Sync session controller *)

Module MutagenSpec.

Import Mutagen.

(** The priority order of the specification: keyword and status, the
    earlier entry winning. *)
Definition priority : list (text * Status) :=
  [ (txt "watching", watching); (txt "scanning", scanning);
    (txt "staging", staging); (txt "reconciling", reconciling);
    (txt "saving", saving); (txt "halted", halted);
    (txt "disconnected", disconnected) ].

(** Classification by the first keyword of an order that occurs in a
    text, [unknown] when none does. *)
Fixpoint classify (order : list (text * Status)) (s : text) : Status :=
  match order with
  | [] => unknown
  | (kw, st) :: rest => if Js.includes s kw then st else classify rest s
  end.

End MutagenSpec.

Module MutagenFacts.

Import Mutagen MutagenSpec.

Lemma classify_first (order : list (text * Status)) (s : text) :
  forall before kw st after,
    order = before ++ (kw, st) :: after ->
    (forall p, In p before -> Js.includes s (fst p) = false) ->
    Js.includes s kw = true ->
    classify order s = st.
Proof.
  intros before. revert order.
  induction before as [|[k0 s0] before IH]; intros order kw st after -> Hb Hk;
    simpl.
  - now rewrite Hk.
  - pose proof (Hb (k0, s0) (or_introl eq_refl)) as H0. simpl in H0.
    rewrite H0. eapply IH; eauto. intros p Hp. apply Hb. now right.
Qed.

Lemma classify_none (order : list (text * Status)) (s : text) :
  (forall p, In p order -> Js.includes s (fst p) = false) ->
  classify order s = unknown.
Proof.
  induction order as [|[k0 s0] order IH]; intros H; simpl; [reflexivity|].
  pose proof (H (k0, s0) (or_introl eq_refl)) as H0. simpl in H0.
  rewrite H0. apply IH. intros p Hp. apply H. now right.
Qed.

Lemma parseSessionStatus_classify (d : text) :
  parseSessionStatus (Some d) = classify priority (Js.toLowerCase d).
Proof.
  destruct d as [|c d]; [reflexivity|].
  unfold parseSessionStatus, classify, priority. reflexivity.
Qed.

(** C5. For every status description the classifier answers by substring
    match on the lower-cased description in the fixed priority order
    watching, scanning, staging, reconciling, saving, halted,
    disconnected: the status of the earliest keyword of that order that
    occurs is returned, and [unknown] when none occurs. *)
Theorem parseSessionStatus_priority (d : text) :
  parseSessionStatus (Some d) = classify priority (Js.toLowerCase d)
  /\ (forall before kw st after,
        priority = before ++ (kw, st) :: after ->
        (forall p, In p before ->
                   Js.includes (Js.toLowerCase d) (fst p) = false) ->
        Js.includes (Js.toLowerCase d) kw = true ->
        parseSessionStatus (Some d) = st)
  /\ ((forall p, In p priority ->
                 Js.includes (Js.toLowerCase d) (fst p) = false) ->
      parseSessionStatus (Some d) = unknown).
Proof.
  split; [apply parseSessionStatus_classify|]. split.
  - intros before kw st after Hp Hb Hk.
    rewrite parseSessionStatus_classify. eapply classify_first; eauto.
  - intros H. rewrite parseSessionStatus_classify. now apply classify_none.
Qed.

(** A description naming two states: scanning precedes halted. *)
Lemma parseSessionStatus_priority_witness :
  parseSessionStatus (Some (txt "Halted while Scanning files")) = scanning
  /\ parseSessionStatus (Some (txt "Connecting to beta")) = unknown.
Proof.
  split.
  - apply (proj1 (proj2 (parseSessionStatus_priority
                           (txt "Halted while Scanning files")))
             [(txt "watching", watching)] (txt "scanning") scanning
             [ (txt "staging", staging); (txt "reconciling", reconciling);
               (txt "saving", saving); (txt "halted", halted);
               (txt "disconnected", disconnected) ]).
    + reflexivity.
    + intros p [<- | []]. reflexivity.
    + reflexivity.
  - apply (proj2 (proj2 (parseSessionStatus_priority
                           (txt "Connecting to beta")))).
    intros p Hp. simpl in Hp.
    repeat (destruct Hp as [<- | Hp]; [reflexivity|]). destruct Hp.
Defined.

Section Engine.

Variable canonicalPath : text -> text.
Variable spawnMutagen : list text -> ProcResult.

Let name := getSyncSessionName canonicalPath.

(** C6. The session identifier is the fixed prefix [haven-] followed
    by the hash of the canonical path, and nothing else enters it: two
    paths with the same canonical form get the same identifier. *)
Theorem getSyncSessionName_pure (p q : text) :
  getSyncSessionName canonicalPath p
  = txt "haven-" ++ simpleHash (canonicalPath p)
  /\ (canonicalPath p = canonicalPath q ->
      getSyncSessionName canonicalPath p
      = getSyncSessionName canonicalPath q).
Proof.
  split; [reflexivity|]. unfold getSyncSessionName. now intros ->.
Qed.

(** C4. [stopSync] returns normally when the terminate command
    exits with zero or reports that the session does not exist, and
    throws exactly when the command exits non-zero without that
    report; the message then carries the trimmed standard error. *)
Theorem stopSync_idempotent (localPath : text) :
  let proc :=
    spawnMutagen [txt "sync"; txt "terminate"; name localPath] in
  (Js.includes (stderr proc) (txt "does not exist") = true ->
   stopSync canonicalPath spawnMutagen localPath = Ok tt)
  /\ (exitCode proc = 0%Z ->
      stopSync canonicalPath spawnMutagen localPath = Ok tt)
  /\ (exitCode proc <> 0%Z ->
      Js.includes (stderr proc) (txt "does not exist") = false ->
      stopSync canonicalPath spawnMutagen localPath
      = Throw (txt "Failed to stop sync: " ++ Js.trim (stderr proc))).
Proof.
  intros proc. unfold stopSync, runMutagen. fold (name localPath).
  fold proc. cbn [exitCode stderr].
  rewrite (@JsFacts.includes_trim (stderr proc) (txt "does not exist")
             "d"%char "t"%char (txt "oes not exist")
             (txt "does not exis")) by reflexivity.
  repeat split.
  - intros ->. now rewrite andb_false_r.
  - intros ->. reflexivity.
  - intros Hne ->. apply Z.eqb_neq in Hne. now rewrite Hne.
Qed.

(** C10. [getSyncStatus] always returns a status.  When the list
    command exits non-zero the status is [disconnected] with no
    conflict and the (trimmed) standard error as the only error; when
    it exits with zero and no non-empty line of its output has the
    session name as first field, the status is [disconnected] with no
    conflict and no error. *)
Theorem getSyncStatus_disconnected (localPath : text) :
  let proc :=
    spawnMutagen
      [txt "sync"; txt "list"; txt "--template"; statusTemplate] in
  (exitCode proc <> 0%Z ->
   getSyncStatus canonicalPath spawnMutagen localPath
   = mkSyncStatus disconnected [] [Js.trim (stderr proc)])
  /\ (exitCode proc = 0%Z ->
      (forall line,
          In line (Js.split (Js.trim (stdout proc)) [Js.LF]) ->
          line <> [] ->
          hd [] (Js.split line (txt "|")) <> name localPath) ->
      getSyncStatus canonicalPath spawnMutagen localPath
      = mkSyncStatus disconnected [] []).
Proof.
  intros proc. unfold getSyncStatus, runMutagen. fold (name localPath).
  fold proc. cbn [exitCode stderr stdout]. split.
  - intros Hne. apply Z.eqb_neq in Hne. now rewrite Hne.
  - intros -> Hno. cbn [Z.eqb negb].
    assert (Hall : forall line,
               In line (filter Js.truthy
                          (Js.split (Js.trim (stdout proc)) [Js.LF])) ->
               hd [] (Js.split line (txt "|")) <> name localPath).
    { intros line Hin. apply filter_In in Hin as [Hin Ht].
      apply Hno; trivial. now destruct line. }
    clear Hno.
    induction (filter Js.truthy
                 (Js.split (Js.trim (stdout proc)) [Js.LF]))
      as [|line rest IH]; [reflexivity|].
    cbn [scanLines].
    rewrite (proj2 (text_eqb_neq _ _) (Hall line (or_introl eq_refl))).
    apply IH. intros l Hl. apply Hall. now right.
Qed.

End Engine.

(** A canonicaliser that only strips one trailing slash. *)
Definition stripSlash (p : text) : text :=
  match rev p with
  | "/"%char :: r => rev r
  | _ => p
  end.

Lemma getSyncSessionName_pure_witness :
  stripSlash (txt "/tmp/p/") = stripSlash (txt "/tmp/p")
  /\ getSyncSessionName stripSlash (txt "/tmp/p/")
     = getSyncSessionName stripSlash (txt "/tmp/p").
Proof.
  split; [reflexivity|].
  apply (proj2 (getSyncSessionName_pure stripSlash
                  (txt "/tmp/p/") (txt "/tmp/p"))).
  reflexivity.
Defined.

(** The identifier of [/tmp/p], with or without a trailing slash. *)
Example getSyncSessionName_tmp :
  getSyncSessionName stripSlash (txt "/tmp/p") = txt "haven-o2wb6x"
  /\ getSyncSessionName stripSlash (txt "/tmp/p/") = txt "haven-o2wb6x"
  /\ simpleHash [] = txt "0".
Proof. vm_compute. repeat split. Qed.

(** An engine that knows no session: every command fails with the
    engine's complaint, listing succeeds with nothing to list. *)
Definition emptyEngine (args : list text) : ProcResult :=
  match args with
  | _ :: verb :: _ =>
      if text_eqb verb (txt "list") then mkProc 0 [] []
      else mkProc 1 []
             (txt "Error: unable to locate requested sessions: session does not exist")
  | _ => mkProc 1 [] (txt "usage")
  end.

(** An engine whose subprocess fails outright. *)
Definition brokenEngine (args : list text) : ProcResult :=
  mkProc 1 [] (txt "unable to connect to daemon").

Lemma stopSync_idempotent_witness :
  stopSync stripSlash emptyEngine (txt "/tmp/p") = Ok tt
  /\ stopSync stripSlash brokenEngine (txt "/tmp/p")
     = Throw (txt "Failed to stop sync: unable to connect to daemon")
  /\ stopSync stripSlash (fun _ => mkProc 0 [] []) (txt "/tmp/p") = Ok tt.
Proof.
  split; [|split].
  - apply (proj1 (stopSync_idempotent stripSlash emptyEngine (txt "/tmp/p"))).
    reflexivity.
  - apply (proj2 (proj2 (stopSync_idempotent stripSlash brokenEngine
                           (txt "/tmp/p")))).
    + discriminate.
    + reflexivity.
  - apply (proj1 (proj2 (stopSync_idempotent stripSlash
                           (fun _ => mkProc 0 [] []) (txt "/tmp/p")))).
    reflexivity.
Defined.

(** An engine that lists one session, of another directory. *)
Definition otherEngine (args : list text) : ProcResult :=
  mkProc 0 (txt "haven-zzzzzz|Watching for changes|0||" ++ [Js.LF]) [].

Lemma getSyncStatus_disconnected_witness :
  getSyncStatus stripSlash brokenEngine (txt "/tmp/p")
  = mkSyncStatus disconnected [] [txt "unable to connect to daemon"]
  /\ getSyncStatus stripSlash otherEngine (txt "/tmp/p")
     = mkSyncStatus disconnected [] [].
Proof.
  split.
  - apply (proj1 (getSyncStatus_disconnected stripSlash brokenEngine
                    (txt "/tmp/p"))).
    discriminate.
  - apply (proj2 (getSyncStatus_disconnected stripSlash otherEngine
                    (txt "/tmp/p"))).
    + reflexivity.
    + intros line [<- | []] _. vm_compute. discriminate.
Defined.

(** The session of [/tmp/p] as the engine lists it while syncing. *)
Example getSyncStatus_listed :
  getSyncStatus stripSlash
    (fun _ => mkProc 0
                (txt "haven-zzzzzz|Watching for changes|0||" ++ [Js.LF]
                 ++ txt "haven-o2wb6x|Staging files on beta|2|a;;b;;|"
                 ++ [Js.LF]) [])
    (txt "/tmp/p")
  = mkSyncStatus staging [txt "2 conflict(s) detected"] [txt "a"; txt "b"].
Proof. vm_compute. reflexivity. Qed.

End MutagenFacts.

(** ** Command line dispatch *)

Module CliFacts.

Import Cli.

(** The subcommands the specification names as reserved. *)
Definition namedSubcommands : list text :=
  [txt "connect"; txt "disconnect"; txt "status"].

(** The words [main] keeps for the program besides flags. *)
Definition keptWords : list text :=
  [txt "connect"; txt "disconnect"; txt "status"; txt "help"].

Lemma reserved_split (x : text) :
  reserved x || Js.startsWith x (txt "-")
  = existsb (text_eqb x) keptWords || Js.startsWith x (txt "-").
Proof.
  unfold reserved, RESERVED_COMMANDS, keptWords. cbn [map existsb].
  destruct (text_eqb x (txt "connect")); [reflexivity|].
  destruct (text_eqb x (txt "disconnect")); [reflexivity|].
  destruct (text_eqb x (txt "status")); [reflexivity|].
  destruct (text_eqb x (txt "help")); [reflexivity|].
  cbn [orb].
  destruct (text_eqb x (txt "--help")) eqn:E1;
    [apply text_eqb_eq in E1; now subst|].
  destruct (text_eqb x (txt "-h")) eqn:E2;
    [apply text_eqb_eq in E2; now subst|].
  destruct (text_eqb x (txt "--version")) eqn:E3;
    [apply text_eqb_eq in E3; now subst|].
  destruct (text_eqb x (txt "-V")) eqn:E4;
    [apply text_eqb_eq in E4; now subst|].
  reflexivity.
Qed.

(** C9, as stated, fails: [help] is neither a flag nor one of connect,
    disconnect and status, yet it is kept for the program; and so is an
    empty first argument. *)
Lemma main_help_not_forwarded :
  ~ (forall first rest,
        ~ In first namedSubcommands ->
        Js.startsWith first (txt "-") = false ->
        main (first :: rest) = RemoteCommand (first :: rest))
  /\ main [txt "help"] = ParseProgram [txt "help"]
  /\ main [[]; txt "ls"] = ParseProgram [[]; txt "ls"].
Proof.
  split; [|split; reflexivity].
  intros H. specialize (H (txt "help") []).
  assert (Hn : ~ In (txt "help") namedSubcommands).
  { simpl. intros [E | [E | [E | []]]]; discriminate E. }
  specialize (H Hn eq_refl). discriminate H.
Qed.

(** C9, amended. No argument shows the help; a first argument [--]
    forwards the arguments after it, whatever they are; a first argument
    that is empty, starts with [-], or is one of connect, disconnect,
    status and help goes to the program's own parser; every other first
    argument is forwarded, with all arguments, as a remote command. *)
Theorem main_dispatch (args : list text) :
  main args
  = match args with
    | [] => ShowHelp
    | first :: rest =>
        if text_eqb first (txt "--") then RemoteCommand rest
        else if existsb (text_eqb first) keptWords
                || Js.startsWith first (txt "-")
                || negb (Js.truthy first)
             then ParseProgram args
             else RemoteCommand args
    end.
Proof.
  destruct args as [|first rest]; [reflexivity|].
  unfold main. destruct (text_eqb first (txt "--")); [reflexivity|].
  rewrite <- reserved_split.
  destruct (Js.truthy first), (reserved first),
    (Js.startsWith first (txt "-")); reflexivity.
Qed.

(** The escape: a reserved word after [--] is a remote command. *)
Example main_escape :
  main [txt "--"; txt "status"; txt "-v"]
  = RemoteCommand [txt "status"; txt "-v"]
  /\ main [txt "status"; txt "-v"] = ParseProgram [txt "status"; txt "-v"]
  /\ main [txt "opencode"; txt "--help"]
     = RemoteCommand [txt "opencode"; txt "--help"].
Proof. repeat split. Qed.

End CliFacts.

(** ** Ignore patterns *)

Module IgnoreFacts.

Import Ignore.

Lemma existsb_text_eqb (x : text) (s : list text) :
  existsb (text_eqb x) s = true <-> In x s.
Proof.
  rewrite existsb_exists. split.
  - intros [y [Hy E]]. apply text_eqb_eq in E. now subst.
  - intros H. exists x. split; [assumption | apply text_eqb_refl].
Qed.

Lemma setAdd_In (s : list text) (x y : text) :
  In y (setAdd s x) <-> In y s \/ y = x.
Proof.
  unfold setAdd. destruct (existsb (text_eqb x) s) eqn:E.
  - apply existsb_text_eqb in E. split; [tauto|]. intros [H | ->]; assumption.
  - rewrite in_app_iff. simpl. intuition congruence.
Qed.

Lemma setAdd_NoDup (s : list text) (x : text) :
  NoDup s -> NoDup (setAdd s x).
Proof.
  intros H. unfold setAdd. destruct (existsb (text_eqb x) s) eqn:E; trivial.
  assert (Hx : ~ In x s).
  { intros Hin. apply existsb_text_eqb in Hin. congruence. }
  apply NoDup_app; trivial.
  - constructor; [intros [] | constructor].
  - intros a Ha [<- | []]. contradiction.
Qed.

Lemma fold_setAdd_In (xs s : list text) (y : text) :
  In y (fold_left setAdd xs s) <-> In y s \/ In y xs.
Proof.
  revert s. induction xs as [|x xs IH]; intros s; simpl; [tauto|].
  rewrite IH, setAdd_In. intuition congruence.
Qed.

Lemma fold_setAdd_NoDup (xs s : list text) :
  NoDup s -> NoDup (fold_left setAdd xs s).
Proof.
  revert s. induction xs as [|x xs IH]; intros s H; simpl; trivial.
  apply IH. now apply setAdd_NoDup.
Qed.

(** Elements already in the set stay where they are. *)
Lemma fold_setAdd_prefix (xs s : list text) :
  exists added, fold_left setAdd xs s = s ++ added.
Proof.
  revert s. induction xs as [|x xs IH]; intros s; simpl.
  - exists []. now rewrite app_nil_r.
  - destruct (IH (setAdd s x)) as [added ->]. unfold setAdd.
    destruct (existsb (text_eqb x) s).
    + now exists added.
    + exists ([x] ++ added). now rewrite app_assoc.
Qed.

Lemma newSet_defaults : newSet DEFAULT_IGNORE_PATTERNS = DEFAULT_IGNORE_PATTERNS.
Proof. vm_compute. reflexivity. Qed.

Lemma fold_setAdd_app (xs ys s : list text) :
  fold_left setAdd (xs ++ ys) s = fold_left setAdd ys (fold_left setAdd xs s).
Proof. apply fold_left_app. Qed.

Section Fs.

Variable resolve : text -> text -> text.
Variable existsSync : text -> bool.
Variable readFileSync : text -> text.

(** What the ignore file of a project contributes: the lines of
    [.gitignore], split at line feeds and trimmed, that are neither
    empty nor comments; nothing when the file does not exist. *)
Definition projectPattern (projectRoot p : text) : Prop :=
  existsSync (resolve projectRoot GITIGNORE_FILE) = true
  /\ p <> [] /\ Js.startsWith p (txt "#") = false
  /\ exists line,
       In line (Js.split (readFileSync (resolve projectRoot GITIGNORE_FILE))
                         [Js.LF])
       /\ Js.trim line = p.

Lemma parseIgnoreFile_In (content p : text) :
  In p (parseIgnoreFile content)
  <-> p <> [] /\ Js.startsWith p (txt "#") = false
      /\ exists line, In line (Js.split content [Js.LF]) /\ Js.trim line = p.
Proof.
  unfold parseIgnoreFile. rewrite filter_In, in_map_iff, andb_true_iff.
  rewrite negb_true_iff. split.
  - intros [[line [Ht Hl]] [Hn Hc]]. split; [|split; [exact Hc|]].
    + intros E. rewrite E in Hn. discriminate Hn.
    + exists line. now split.
  - intros [Hn [Hc [line [Hl Ht]]]]. split; [exists line; now split|].
    split; [|exact Hc]. destruct p; [now elim Hn | reflexivity].
Qed.

Lemma loadGitignorePatterns_In (projectRoot p : text) :
  In p (loadGitignorePatterns resolve existsSync readFileSync projectRoot)
  <-> projectPattern projectRoot p.
Proof.
  unfold loadGitignorePatterns, projectPattern. cbv zeta.
  destruct (existsSync (resolve projectRoot GITIGNORE_FILE)); cbn [negb].
  - rewrite parseIgnoreFile_In. tauto.
  - split; [intros [] | intros [H _]; discriminate H].
Qed.

(** C7. Without the opt-in the result is the baseline list itself,
    whatever the project's ignore file holds.  With the opt-in the
    result has no duplicate and starts with the baseline, and a pattern
    is in it exactly when it is a pattern of the baseline or a line of
    the project's [.gitignore], trimmed, that is neither empty nor a
    comment; each such pattern is there once, also one that the
    baseline and the file share. *)
Theorem getAllIgnorePatterns_union (projectRoot : text) :
  getAllIgnorePatterns resolve existsSync readFileSync projectRoot false
  = DEFAULT_IGNORE_PATTERNS
  /\ NoDup (getAllIgnorePatterns resolve existsSync readFileSync
              projectRoot true)
  /\ (forall p,
         In p (getAllIgnorePatterns resolve existsSync readFileSync
                 projectRoot true)
         <-> In p DEFAULT_IGNORE_PATTERNS
             \/ projectPattern projectRoot p)
  /\ (forall p,
         In p DEFAULT_IGNORE_PATTERNS \/ projectPattern projectRoot p ->
         count_occ (list_eq_dec ascii_dec)
           (getAllIgnorePatterns resolve existsSync readFileSync
              projectRoot true) p = 1)
  /\ exists added,
       getAllIgnorePatterns resolve existsSync readFileSync
         projectRoot true
       = DEFAULT_IGNORE_PATTERNS ++ added.
Proof.
  unfold getAllIgnorePatterns, newSet.
  assert (Hnd : NoDup (fold_left setAdd
                         (DEFAULT_IGNORE_PATTERNS
                          ++ loadGitignorePatterns resolve existsSync
                               readFileSync projectRoot) []))
    by (apply fold_setAdd_NoDup; constructor).
  assert (Hin : forall p,
             In p (fold_left setAdd
                     (DEFAULT_IGNORE_PATTERNS
                      ++ loadGitignorePatterns resolve existsSync
                           readFileSync projectRoot) [])
             <-> In p DEFAULT_IGNORE_PATTERNS
                 \/ projectPattern projectRoot p).
  { intros p. rewrite fold_setAdd_In, in_app_iff.
    rewrite loadGitignorePatterns_In. simpl. tauto. }
  split; [|split; [|split; [|split]]].
  - rewrite app_nil_r. apply newSet_defaults.
  - exact Hnd.
  - exact Hin.
  - intros p Hp. apply Hin in Hp.
    now apply NoDup_count_occ'.
  - rewrite fold_setAdd_app. fold (newSet DEFAULT_IGNORE_PATTERNS).
    rewrite newSet_defaults. apply fold_setAdd_prefix.
Qed.

End Fs.

(** The example of the specification: an ignore file that repeats a
    baseline pattern and brings a new one. *)
Example getAllIgnorePatterns_example :
  let file := txt "node_modules/" ++ [Js.LF] ++ txt "*.secret" ++ [Js.LF] in
  getAllIgnorePatterns (fun root name => root ++ txt "/" ++ name)
    (fun _ => true) (fun _ => file) (txt "/tmp/p") true
  = DEFAULT_IGNORE_PATTERNS ++ [txt "*.secret"]
  /\ getAllIgnorePatterns (fun root name => root ++ txt "/" ++ name)
       (fun _ => true) (fun _ => file) (txt "/tmp/p") false
     = DEFAULT_IGNORE_PATTERNS.
Proof. split; vm_compute; reflexivity. Qed.

(** A project whose [.gitignore] repeats a baseline pattern, brings a
    new one, and holds a comment and a blank line. *)
Definition secretIgnoreFile : text :=
  txt "# local" ++ [Js.LF] ++ txt "node_modules/" ++ [Js.LF] ++ [Js.LF]
  ++ txt "  *.secret " ++ [Js.LF].

Definition joinPath (root name : text) : text := root ++ txt "/" ++ name.

Lemma getAllIgnorePatterns_union_witness :
  getAllIgnorePatterns joinPath (fun _ => true) (fun _ => secretIgnoreFile)
    (txt "/home/dev/app") false
  = DEFAULT_IGNORE_PATTERNS
  /\ In (txt "*.secret")
        (getAllIgnorePatterns joinPath (fun _ => true)
           (fun _ => secretIgnoreFile) (txt "/home/dev/app") true)
  /\ count_occ (list_eq_dec ascii_dec)
       (getAllIgnorePatterns joinPath (fun _ => true)
          (fun _ => secretIgnoreFile) (txt "/home/dev/app") true)
       (txt "node_modules/") = 1
  /\ ~ In (txt "# local")
          (getAllIgnorePatterns joinPath (fun _ => true)
             (fun _ => secretIgnoreFile) (txt "/home/dev/app") true).
Proof.
  destruct (getAllIgnorePatterns_union joinPath (fun _ => true)
              (fun _ => secretIgnoreFile) (txt "/home/dev/app"))
    as [H1 [_ [H3 [H4 _]]]].
  assert (Hs : projectPattern joinPath (fun _ => true)
                 (fun _ => secretIgnoreFile) (txt "/home/dev/app")
                 (txt "*.secret")).
  { split; [reflexivity|]. split; [discriminate|]. split; [reflexivity|].
    exists (txt "  *.secret "). split; [|vm_compute; reflexivity].
    vm_compute. do 3 right. left. reflexivity. }
  assert (Hn : In (txt "node_modules/") DEFAULT_IGNORE_PATTERNS)
    by (apply existsb_text_eqb; vm_compute; reflexivity).
  split; [exact H1|].
  split; [exact (proj2 (H3 (txt "*.secret")) (or_intror Hs))|].
  split; [exact (H4 (txt "node_modules/") (or_introl Hn))|].
  intros H. destruct (proj1 (H3 (txt "# local")) H) as [H0 | [_ [_ [H0 _]]]].
  - apply existsb_text_eqb in H0. vm_compute in H0. discriminate H0.
  - vm_compute in H0. discriminate H0.
Defined.

End IgnoreFacts.

(** ** Key usability analysis *)

Module KeysFacts.

Import Keys.

Lemma analyzeKey_usable (m : Machine) (fps : list text) (k : SshKeyInfo) :
  usable (analyzeKey m fps k)
  = negb (encrypted (analyzeKey m fps k)) || inAgent (analyzeKey m fps k).
Proof. reflexivity. Qed.

Lemma hasHavenKey_ext (m m' : Machine) (dir : option text) :
  getSshDir m' = getSshDir m ->
  (forall p, existsSync m' p = existsSync m p) ->
  hasHavenKey m' dir = hasHavenKey m dir.
Proof.
  intros Hd He. unfold hasHavenKey, getHavenKeyPath, dirOf.
  rewrite Hd, !He. reflexivity.
Qed.

(** C1. Every discovered key is analysed, and its [usable] flag is
    [!encrypted || inAgent].  When the managed key exists (its private
    and public files both do), [hasUsableKey] is true, and this depends
    on no analysis: it holds on every machine with the same files, what
    ever the key tools and the agent would answer.  Without the managed
    key [hasUsableKey] says whether some analysed key is usable. *)
Theorem analyzeKeys_usable (m : Machine) (dir : option text) :
  map key (analyzeKeys m dir) = findExistingKeys m dir
  /\ (forall a, In a (analyzeKeys m dir) ->
                usable a = negb (encrypted a) || inAgent a)
  /\ (hasHavenKey m dir = true ->
      forall m', getSshDir m' = getSshDir m ->
                 (forall p, existsSync m' p = existsSync m p) ->
                 hasUsableKey m' dir = true)
  /\ (hasHavenKey m dir = false ->
      hasUsableKey m dir = existsb usable (analyzeKeys m dir)).
Proof.
  split; [|split; [|split]].
  - unfold analyzeKeys. rewrite map_map. apply map_id.
  - intros a Ha. unfold analyzeKeys in Ha. apply in_map_iff in Ha.
    destruct Ha as [k [<- _]]. apply analyzeKey_usable.
  - intros Hh m' Hd He. unfold hasUsableKey.
    now rewrite (hasHavenKey_ext m m' dir Hd He), Hh.
  - intros Hh. unfold hasUsableKey. now rewrite Hh.
Qed.

Definition keyListing : ProcResult :=
  mkProc 0 (txt "256 SHA256:q1w2e3 user@host (ED25519)") [].

(** A directory with the managed key and a passphrase-protected key;
    [ssh-keygen -y] fails on every key and the agent is not running. *)
Definition lockedMachine : Machine :=
  mkMachine (txt "/home/u/.ssh")
    (fun _ => true)
    (fun _ => [txt "haven_ed25519"; txt "haven_ed25519.pub";
               txt "id_rsa"; txt "id_rsa.pub"; txt "config"])
    (fun _ => Some (txt "ssh-ed25519 AAAAC3Nza user@host"))
    (fun _ => keyListing)
    (fun _ => mkProc 255 [] (txt "incorrect passphrase supplied"))
    (mkProc 2 [] (txt "Could not open a connection to your agent")).

(** The same directory without the managed key. *)
Definition lockedMachineNoHaven : Machine :=
  mkMachine (txt "/home/u/.ssh")
    (fun p => negb (Js.includes p (txt "haven_ed25519")))
    (fun _ => [txt "id_rsa"; txt "id_rsa.pub"; txt "config"])
    (fun _ => Some (txt "ssh-ed25519 AAAAC3Nza user@host"))
    (fun _ => keyListing)
    (fun _ => mkProc 255 [] (txt "incorrect passphrase supplied"))
    (mkProc 2 [] (txt "Could not open a connection to your agent")).

Lemma analyzeKeys_usable_witness :
  hasUsableKey lockedMachine None = true
  /\ existsb usable (analyzeKeys lockedMachine None) = false
  /\ hasUsableKey lockedMachineNoHaven None = false.
Proof.
  split; [|split].
  - apply (proj1 (proj2 (proj2 (analyzeKeys_usable lockedMachine None))));
      reflexivity.
  - reflexivity.
  - rewrite (proj2 (proj2 (proj2 (analyzeKeys_usable lockedMachineNoHaven
                                    None)))); reflexivity.
Defined.

(** A key in the agent is usable although encrypted. *)
Example analyzeKeys_agent :
  map usable
    (analyzeKeys
       (mkMachine (txt "/home/u/.ssh") (fun _ => true)
          (fun _ => [txt "id_rsa"; txt "id_rsa.pub"])
          (fun _ => Some (txt "ssh-ed25519 AAAAC3Nza user@host"))
          (fun _ => keyListing)
          (fun _ => mkProc 255 [] [])
          (mkProc 0 (txt "256 SHA256:q1w2e3 user@host (ED25519)" ++ [Js.LF]) []))
       None)
  = [true].
Proof. reflexivity. Qed.

End KeysFacts.

(** ** Connect orchestrator *)

Module ConnectFacts.

Import Connect.

Section World.

Variable w : World.
Variable generateSshAlias : text -> N -> text.
Variable parseDuration : text -> option N.
Variable localPath : text.
Variable config : ConnectionConfig.
Variable options : ConnectOptions.

(** The first probe fails. *)
Definition probeFailed : bool := negb (exitCode (sshProbe w 0) =? 0)%Z.

(** Its error reports a changed host key. *)
Definition rotated : bool :=
  Js.includes (stderr (sshProbe w 0)) (txt "Host key verification failed").

(** The operator's answer to the first question is not [n]. *)
Definition confirmed : bool :=
  let answer := Js.trim (typed w 0) in
  negb (text_eqb
          (Js.toLowerCase (if Js.truthy answer then answer else txt "Y"))
          (txt "n")).

(** The retry succeeds. *)
Definition retryOk : bool := (exitCode (sshProbe w 1) =? 0)%Z.

Definition recovering : bool := probeFailed && rotated && confirmed.

Let result := run w generateSshAlias parseDuration localPath config options.
Let alias :=
  match sshAlias config with
  | Some a => a
  | None => generateSshAlias (host config) (port config)
  end.

Lemma count_app (p : Event -> bool) (a b : list Event) :
  count p (a ++ b) = count p a + count p b.
Proof. unfold count. now rewrite filter_app, length_app. Qed.

(** What follows the probe: idle timeout, ignore-file question, start
    of the sync and persistence. *)
Definition afterProbe : M unit :=
  bind (resolveIdleTimeout w parseDuration options alias) (fun idle =>
  bind (resolveUseGitignore w options) (fun useGit =>
  bind (startSync w localPath alias useGit) (fun _ =>
  bind (emit (SaveConnection localPath)) (fun _ =>
  emit (SaveSession localPath idle))))).

Definition beforeProbe : list Event :=
  (if match resetHostKey options with Some b => b | None => false end
   then [RemoveHostKey (host config) (port config)] else [])
  ++ [WriteHostConfig alias (host config) (port config) (user config)].

Lemma connectResolved_split :
  result
  = bind (probe w config alias) (fun _ => afterProbe)
         (mkState 0 0 beforeProbe).
Proof.
  subst result. unfold run, connectResolved, beforeProbe. fold alias.
  destruct (resetHostKey options) as [[|]|]; reflexivity.
Qed.

Lemma afterFirstProbe_before (rest : list Event) :
  afterFirstProbe (beforeProbe ++ TestConnection alias :: rest) = rest.
Proof.
  unfold beforeProbe.
  destruct (resetHostKey options) as [[|]|]; reflexivity.
Qed.

(** The tail adds no purge and no probe, and starts the sync once. *)
Lemma afterProbe_trace (s : State) :
  exists evs,
    trace (snd (afterProbe s)) = trace s ++ evs
    /\ count isPurge evs = 0 /\ count isProbe evs = 0
    /\ count isStartSync evs = 1.
Proof.
  unfold afterProbe, resolveIdleTimeout, resolveUseGitignore,
    getRemoteEnv, startSync, prompt, emit, bind, ret, exit.
  destruct (idleTimeout options) as [[|? ?]|];
    destruct (exitCode (sshPrintenv w) =? 0)%Z;
    try destruct (Js.truthy (Js.trim (stdout (sshPrintenv w))));
    try destruct (Js.trim (stdout (sshPrintenv w)));
    destruct (useGitignore options) as [[|]|];
    destruct (gitignoreExists w);
    destruct (startSyncResult w);
    cbn [negb andb fst snd trace probesDone promptsDone];
    rewrite <- ?app_assoc; eexists; (split; [reflexivity|]);
    repeat split.
Qed.

(** The probe and its recovery, from the state the probe starts in. *)
Lemma probe_cases :
  let s0 := mkState 0 0 beforeProbe in
  let t1 := beforeProbe ++ [TestConnection alias] in
  let t2 := t1 ++ [Prompt fingerprintQuestion] in
  let t3 := t2 ++ [RemoveHostKey (host config) (port config);
                   TestConnection alias] in
  probe w config alias s0
  = if probeFailed then
      if rotated then
        if confirmed then
          if retryOk then (Return tt, mkState 2 1 t3)
          else (Exit 1%Z, mkState 2 1 t3)
        else (Exit 1%Z, mkState 1 1 t2)
      else (Exit 1%Z, mkState 1 0 t1)
    else (Return tt, mkState 1 0 t1).
Proof.
  unfold probeFailed, rotated, confirmed, retryOk.
  rewrite <- (@JsFacts.includes_trim (stderr (sshProbe w 0))
                (txt "Host key verification failed")
                "H"%char "d"%char (txt "ost key verification failed")
                (txt "Host key verification faile")) by reflexivity.
  unfold probe, hostKeyChanged, testConnection, prompt, removeHostKey,
    when, emit, bind, ret, exit.
  cbn [probesDone promptsDone trace].
  destruct (exitCode (sshProbe w 0) =? 0)%Z;
    cbn [negb success error]; [reflexivity|].
  destruct (Js.includes (Js.trim (stderr (sshProbe w 0)))
              (txt "Host key verification failed")); [|reflexivity].
  destruct (text_eqb _ (txt "n")); cbn [negb]; [reflexivity|].
  cbn [probesDone promptsDone trace].
  destruct (exitCode (sshProbe w 1) =? 0)%Z; cbn [negb success];
    rewrite <- !app_assoc; reflexivity.
Qed.

Lemma result_cases :
  let t1 := beforeProbe ++ [TestConnection alias] in
  let t3 := beforeProbe
            ++ [TestConnection alias; Prompt fingerprintQuestion;
                RemoveHostKey (host config) (port config);
                TestConnection alias] in
  result
  = if probeFailed then
      if rotated then
        if confirmed then
          if retryOk then afterProbe (mkState 2 1 t3)
          else (Exit 1%Z, mkState 2 1 t3)
        else (Exit 1%Z,
              mkState 1 1 (beforeProbe
                           ++ [TestConnection alias;
                               Prompt fingerprintQuestion]))
      else (Exit 1%Z, mkState 1 0 t1)
    else afterProbe (mkState 1 0 t1).
Proof.
  rewrite connectResolved_split. unfold bind at 1.
  rewrite probe_cases.
  destruct probeFailed, rotated, confirmed, retryOk;
    rewrite <- ?app_assoc; reflexivity.
Qed.

(** C8. After the first probe the cached host key is purged once and
    the probe retried once when that probe failed with
    [Host key verification failed] and the operator confirmed; in
    every other case neither happens.  In the first case a successful
    retry leads to the start of the sync, and a failed retry ends the
    process with code 1 right after the retry, the sync not started. *)
Theorem probe_recovery :
  count isPurge (afterFirstProbe (trace (snd result)))
  = (if recovering then 1 else 0)
  /\ count isProbe (afterFirstProbe (trace (snd result)))
     = (if recovering then 1 else 0)
  /\ (recovering = true -> retryOk = true ->
      count isStartSync (trace (snd result)) = 1)
  /\ (recovering = true -> retryOk = false ->
      fst result = Exit 1%Z
      /\ afterFirstProbe (trace (snd result))
         = [ Prompt fingerprintQuestion;
             RemoveHostKey (host config) (port config);
             TestConnection alias ]).
Proof.
  rewrite result_cases. unfold recovering.
  assert (Hb : count isStartSync beforeProbe = 0).
  { unfold beforeProbe.
    destruct (resetHostKey options) as [[|]|]; reflexivity. }
  destruct probeFailed, rotated, confirmed, retryOk;
    cbn [andb fst snd trace];
    try (destruct (afterProbe_trace
                     (mkState 2 1
                        (beforeProbe
                         ++ [TestConnection alias;
                             Prompt fingerprintQuestion;
                             RemoveHostKey (host config) (port config);
                             TestConnection alias])))
          as [evs [-> [Hp [Hq Hs]]]]; cbn [trace]);
    try (destruct (afterProbe_trace
                     (mkState 1 0 (beforeProbe ++ [TestConnection alias])))
          as [evs [-> [Hp [Hq Hs]]]]; cbn [trace]);
    rewrite <- ?app_assoc; cbn [app];
    rewrite ?afterFirstProbe_before;
    rewrite ?count_app, ?Hb; unfold count in *;
    cbn [filter isPurge isProbe isStartSync length];
    rewrite ?Hp, ?Hq, ?Hs;
    repeat split; intros; try discriminate; reflexivity.
Qed.

End World.

Definition rotatedError : ProcResult :=
  mkProc 255 []
    (txt "@@@ WARNING: REMOTE HOST IDENTIFICATION HAS CHANGED! @@@"
     ++ [Js.LF] ++ txt "Host key verification failed." ++ [Js.LF]).

(** A workspace that was rebuilt: the first probe meets a changed host
    key, the operator presses Enter, the second probe succeeds. *)
Definition rebuiltWorld : World :=
  mkWorld (fun n => match n with O => rotatedError | _ => mkProc 0 (txt "ok") [] end)
          (fun _ => [])
          (mkProc 1 [] [])
          false
          (Ok (txt "haven-o2wb6x")).

(** The same, but the second probe fails too. *)
Definition unreachableWorld : World :=
  mkWorld (fun _ => rotatedError) (fun _ => []) (mkProc 1 [] []) false
          (Ok (txt "haven-o2wb6x")).

Definition someConfig : ConnectionConfig :=
  mkConfig (txt "host") 2222 (txt "user") (txt "/config/workspace/p")
           (Some (txt "haven-abc123")).

Definition noOptions : ConnectOptions := mkOptions None None None.

Definition noAlias (h : text) (p : N) : text := txt "haven-" ++ h.
Definition noDuration (d : text) : option N := None.

Lemma probe_recovery_witness :
  count isStartSync
    (trace (snd (run rebuiltWorld noAlias noDuration (txt "/tmp/p")
                     someConfig noOptions))) = 1
  /\ fst (run unreachableWorld noAlias noDuration (txt "/tmp/p")
              someConfig noOptions) = Exit 1%Z.
Proof.
  split.
  - apply (proj1 (proj2 (proj2 (probe_recovery rebuiltWorld noAlias
                                  noDuration (txt "/tmp/p") someConfig
                                  noOptions)))); reflexivity.
  - apply (proj2 (proj2 (proj2 (probe_recovery unreachableWorld noAlias
                                  noDuration (txt "/tmp/p") someConfig
                                  noOptions)))); reflexivity.
Defined.

(** The whole run of the recovered connect. *)
Example rebuilt_trace :
  run rebuiltWorld noAlias noDuration (txt "/tmp/p") someConfig noOptions
  = (Return tt,
     mkState 2 1
       [ WriteHostConfig (txt "haven-abc123") (txt "host") 2222 (txt "user");
         TestConnection (txt "haven-abc123");
         Prompt fingerprintQuestion;
         RemoveHostKey (txt "host") 2222;
         TestConnection (txt "haven-abc123");
         GetRemoteEnv (txt "haven-abc123") (txt "HAVEN_IDLE_TIMEOUT");
         StartSync (txt "/tmp/p") (txt "haven-abc123") false;
         SaveConnection (txt "/tmp/p");
         SaveSession (txt "/tmp/p") None ]).
Proof. vm_compute. reflexivity. Qed.

(** With [--reset-host-key] the key is also purged once before the
    first probe; that purge is not part of the recovery. *)
Example reset_flag_trace :
  trace (snd (run unreachableWorld noAlias noDuration (txt "/tmp/p")
                  someConfig (mkOptions None (Some true) None)))
  = [ RemoveHostKey (txt "host") 2222;
      WriteHostConfig (txt "haven-abc123") (txt "host") 2222 (txt "user");
      TestConnection (txt "haven-abc123");
      Prompt fingerprintQuestion;
      RemoveHostKey (txt "host") 2222;
      TestConnection (txt "haven-abc123") ].
Proof. vm_compute. reflexivity. Qed.

End ConnectFacts.

(** ** SSH host-config synthesis *)

Module SshLinesFacts.

Import Js SshConfig SshLines.

Lemma text_eqb_cons (a b : ascii) (x y : text) :
  text_eqb (a :: x) (b :: y) = Ascii.eqb a b && text_eqb x y.
Proof.
  apply eq_true_iff_eq.
  rewrite andb_true_iff, !text_eqb_eq, Ascii.eqb_eq.
  split; [intros H; injection H; auto | intros [-> ->]; reflexivity].
Qed.

Lemma noLT_noLF (s : text) : noLineTerminator s = true -> noLF s = true.
Proof.
  unfold noLineTerminator, noLF. rewrite !forallb_forall.
  intros H c Hc. specialize (H c Hc). unfold isLineTerminator in H.
  now destruct (Ascii.eqb c LF).
Qed.

Lemma noLT_app (a b : text) :
  noLineTerminator (a ++ b) = noLineTerminator a && noLineTerminator b.
Proof. apply forallb_app. Qed.

(** *** Prefix tests on a line *)

Lemma startsWith_line (l r p : text) :
  noLF p = true -> startsWith (l ++ LF :: r) p = startsWith l p.
Proof.
  revert l. induction p as [|a p IH]; intros l Hp; [reflexivity|].
  cbn [noLF forallb] in Hp. apply andb_true_iff in Hp as [Ha Hp].
  destruct l as [|c l]; cbn [app startsWith].
  - apply negb_true_iff in Ha. now rewrite Ha.
  - now rewrite IH.
Qed.

Lemma startsWith_line_eq (l r p : text) :
  noLF l = true -> noLF p = true ->
  startsWith (l ++ LF :: r) (p ++ [LF]) = text_eqb l p.
Proof.
  revert l. induction p as [|a p IH]; intros l Hl Hp.
  - destruct l as [|c l]; [reflexivity|].
    cbn [noLF forallb] in Hl. cbn [app startsWith].
    apply andb_true_iff in Hl as [Hc _]. apply negb_true_iff in Hc.
    rewrite Ascii.eqb_sym, Hc. symmetry. now apply text_eqb_neq.
  - cbn [noLF forallb] in Hp. apply andb_true_iff in Hp as [Ha Hp].
    destruct l as [|c l]; cbn [app startsWith].
    + apply negb_true_iff in Ha. rewrite Ha. symmetry. now apply text_eqb_neq.
    + cbn [noLF forallb] in Hl. apply andb_true_iff in Hl as [_ Hl].
      rewrite IH, text_eqb_cons by assumption. now rewrite Ascii.eqb_sym.
Qed.

Lemma startsWith_noLF (s p : text) :
  noLF s = true -> startsWith s (p ++ [LF]) = false.
Proof.
  revert s. induction p as [|a p IH]; intros s Hs; destruct s as [|c s];
    try reflexivity; cbn [noLF forallb] in Hs; cbn [app startsWith];
    apply andb_true_iff in Hs as [Hc Hs].
  - apply negb_true_iff in Hc. now rewrite Ascii.eqb_sym, Hc.
  - rewrite IH by assumption. apply andb_false_r.
Qed.

Lemma header_eq (alias : text) : header alias = hostLine alias ++ [LF].
Proof. unfold header, hostLine. now rewrite <- app_assoc. Qed.

Lemma aliasChar_visible (c : ascii) :
  isAliasChar c = true ->
  isLineTerminator c = false /\ isWhiteSpace c = false.
Proof.
  intros H. rewrite <- (ascii_nat_embedding c) in *.
  assert (Hlt : nat_of_ascii c < 256) by apply nat_ascii_bounded.
  revert H. generalize (nat_of_ascii c) Hlt. clear c Hlt. intros n Hlt.
  unfold isAliasChar, isLineTerminator, isWhiteSpace.
  rewrite !nat_ascii_embedding by assumption.
  intros H.
  assert (Hn : 45 <= n <= 122).
  { repeat (apply orb_true_iff in H as [H | H]);
      rewrite ?andb_true_iff, ?Nat.leb_le, ?Nat.eqb_eq in H; lia. }
  split.
  - do 256 (destruct n as [|n]; [try reflexivity; lia|]). lia.
  - repeat (apply orb_false_iff; split);
      rewrite ?andb_false_iff, ?Nat.leb_gt, ?Nat.eqb_neq; lia.
Qed.


(** *** The pieces of the pattern on a line *)

Lemma dotStar_line (l r : text) (c : ascii) :
  noLineTerminator l = true -> isLineTerminator c = true ->
  dotStar (l ++ c :: r) = (l, c :: r).
Proof.
  intros Hl Hc. induction l as [|d l IH]; cbn [app dotStar].
  - now rewrite Hc.
  - cbn [noLineTerminator forallb] in Hl.
    apply andb_true_iff in Hl as [Hd Hl]. apply negb_true_iff in Hd.
    rewrite Hd, (IH Hl). reflexivity.
Qed.

Lemma dotStar_end (l : text) :
  noLineTerminator l = true -> dotStar l = (l, []).
Proof.
  intros Hl. induction l as [|d l IH]; cbn [dotStar]; [reflexivity|].
  cbn [noLineTerminator forallb] in Hl.
  apply andb_true_iff in Hl as [Hd Hl]. apply negb_true_iff in Hd.
  rewrite Hd, (IH Hl). reflexivity.
Qed.

Lemma dotStar_split (s : text) : s = fst (dotStar s) ++ snd (dotStar s).
Proof.
  induction s as [|c s IH]; cbn [dotStar]; [reflexivity|].
  destruct (isLineTerminator c); [reflexivity|].
  destruct (dotStar s) as [l r]. cbn [fst snd] in *. now rewrite IH at 1.
Qed.

Lemma isLineTerminator_LF : isLineTerminator LF = true.
Proof. reflexivity. Qed.

Lemma noLF_Host : noLF (txt "Host ") = true.
Proof. reflexivity. Qed.

(** A round on a line that does not open a block passes over the line
    and its line feed. *)
Lemma groupOnce_line (bol : bool) (l r : text) :
  noLineTerminator l = true ->
  bol && startsWith l (txt "Host ") = false ->
  groupOnce bol (l ++ LF :: r) = Some (true, r).
Proof.
  intros Hl Hb. unfold groupOnce.
  rewrite startsWith_line, Hb by apply noLF_Host.
  rewrite dotStar_line by (trivial; apply isLineTerminator_LF).
  now rewrite Ascii.eqb_refl.
Qed.

Lemma unlines_cons (l : text) (ls : list text) :
  unlines (l :: ls) = l ++ LF :: unlines ls.
Proof. unfold unlines. cbn [map concat]. now rewrite <- app_assoc. Qed.

Lemma unlines_app (a b : list text) :
  unlines (a ++ b) = unlines a ++ unlines b.
Proof. unfold unlines. now rewrite map_app, concat_app. Qed.

Lemma length_unlines_ge (ls : list text) : length ls <= length (unlines ls).
Proof.
  induction ls as [|l ls IH]; [apply Nat.le_refl|].
  rewrite unlines_cons, length_app. cbn [length]. lia.
Qed.

Lemma groupStar_nil (fuel : nat) (b : bool) :
  exists b', groupStar fuel b [] = (b', []).
Proof.
  destruct fuel as [|fuel]; cbn [groupStar]; [now exists b|].
  unfold groupOnce. cbn [startsWith txt list_ascii_of_string].
  rewrite andb_false_r. cbn [dotStar Nat.eqb length]. now exists b.
Qed.

(** The starred group on a text given by its lines: the body lines are
    passed over. *)
Lemma groupStar_lines (ls : list text) (frag : text) :
  Forall (fun l => noLineTerminator l = true) ls ->
  noLineTerminator frag = true ->
  forall fuel, length ls + 2 <= fuel ->
  exists b,
    groupStar fuel true (unlines ls ++ frag) = (b, bodyRest ls frag)
    /\ (b = true \/ bodyRest ls frag = []).
Proof.
  intros Hls Hfrag. induction Hls as [|l ls Hl Hls IH]; intros fuel Hfuel.
  - cbn [unlines map concat app length] in *. unfold bodyRest.
    cbn [dropBody].
    destruct fuel as [|fuel]; [lia|]. cbn [groupStar]. unfold groupOnce.
    cbn [andb]. destruct (startsWith frag (txt "Host ")) eqn:Hh.
    + exists true. split; [reflexivity|now left].
    + rewrite dotStar_end by assumption.
      destruct frag as [|c frag]; cbn [length Nat.eqb].
      * exists true. split; [reflexivity|now right].
      * destruct (groupStar_nil fuel false) as [b' ->].
        exists b'. split; [reflexivity|now right].
  - destruct fuel as [|fuel]; [cbn [length] in Hfuel; lia|].
    rewrite unlines_cons. cbn [app]. rewrite <- app_assoc. cbn [app].
    unfold bodyRest. cbn [dropBody groupStar].
    destruct (startsWith l (txt "Host ")) eqn:Hh.
    + unfold groupOnce. rewrite startsWith_line, Hh by apply noLF_Host.
      cbn [andb]. exists true. split; [|now left].
      now rewrite unlines_cons, <- app_assoc.
    + rewrite groupOnce_line by (trivial; now rewrite Hh).
      replace (length (unlines ls ++ frag)
               =? length (l ++ LF :: unlines ls ++ frag)) with false.
      * apply IH. cbn [length] in Hfuel. lia.
      * symmetry. apply Nat.eqb_neq. rewrite (length_app l). cbn [length]. lia.
Qed.


(** *** The global replacement on lines *)

Section Alias.

Variable alias : text.
Hypothesis alias_ok : aliasOk alias = true.

Lemma alias_visible :
  Forall (fun c => isLineTerminator c = false /\ isWhiteSpace c = false) alias.
Proof.
  unfold aliasOk in alias_ok. apply andb_true_iff in alias_ok as [_ H].
  rewrite forallb_forall in H. apply Forall_forall. intros c Hc.
  apply aliasChar_visible. now apply H.
Qed.

Lemma noLT_alias : noLineTerminator alias = true.
Proof.
  apply forallb_forall. intros c Hc.
  pose proof alias_visible as H. rewrite Forall_forall in H.
  destruct (H c Hc) as [-> _]. reflexivity.
Qed.

Lemma noLT_hostLine : noLineTerminator (hostLine alias) = true.
Proof. unfold hostLine. rewrite noLT_app, noLT_alias. reflexivity. Qed.

Lemma hostLine_starts : startsWith (hostLine alias) (txt "Host ") = true.
Proof. apply JsFacts.startsWith_same. Qed.

Lemma matchAt_plain (b : bool) (s : text) :
  noLF s = true -> matchAt alias b s = None.
Proof.
  intros Hs. unfold matchAt.
  now rewrite header_eq, startsWith_noLF, andb_false_r.
Qed.

(** A text without line feed holds no block. *)
Lemma replaceAll_plain (fuel : nat) (b : bool) (s : text) :
  noLF s = true -> replaceAll fuel alias b s = s.
Proof.
  revert b s. induction fuel as [|fuel IH]; intros b s Hs; [reflexivity|].
  cbn [replaceAll]. rewrite matchAt_plain by assumption.
  destruct s as [|c s]; [reflexivity|].
  cbn [noLF forallb] in Hs. apply andb_true_iff in Hs as [_ Hs].
  now rewrite IH.
Qed.

Lemma matchAt_line (b : bool) (l r : text) :
  noLineTerminator l = true ->
  b && text_eqb l (hostLine alias) = false ->
  matchAt alias b (l ++ LF :: r) = None.
Proof.
  intros Hl Hb. unfold matchAt.
  rewrite header_eq, startsWith_line_eq, Hb; trivial.
  - now apply noLT_noLF.
  - apply noLT_noLF, noLT_hostLine.
Qed.

(** A line that does not open a block of the alias is kept, and the
    search resumes at the start of the next line. *)
Lemma replaceAll_line (l r : text) :
  noLineTerminator l = true ->
  forall fuel b,
    b && text_eqb l (hostLine alias) = false ->
    length l < fuel ->
    replaceAll fuel alias b (l ++ LF :: r)
    = l ++ LF :: replaceAll (fuel - length l - 1) alias true r.
Proof.
  intros Hl. induction l as [|c l IH]; intros fuel b Hb Hfuel.
  - destruct fuel as [|fuel]; [cbn [length] in Hfuel; lia|].
    cbn [replaceAll]. rewrite (@matchAt_line b [] r) by assumption.
    cbn [app length]. rewrite isLineTerminator_LF.
    now replace (S fuel - 0 - 1) with fuel by lia.
  - destruct fuel as [|fuel]; [cbn [length] in Hfuel; lia|].
    cbn [replaceAll]. rewrite (@matchAt_line b (c :: l) r) by assumption.
    cbn [app length] in *. cbn [noLineTerminator forallb] in Hl.
    apply andb_true_iff in Hl as [Hc Hl]. apply negb_true_iff in Hc.
    rewrite Hc, (IH Hl) by (trivial; lia).
    now replace (S fuel - S (length l) - 1) with (fuel - length l - 1) by lia.
Qed.

Lemma rmText_inBlock (ls : list text) (frag : text) :
  rmText alias true ls frag
  = match dropBody ls with
    | [] => if startsWith frag (txt "Host ") then frag else []
    | rest => rmText alias false rest frag
    end.
Proof.
  induction ls as [|l ls IH]; cbn [rmText dropBody andb].
  - now destruct (startsWith frag (txt "Host ")).
  - destruct (text_eqb l (hostLine alias)) eqn:E.
    + apply text_eqb_eq in E. subst l. rewrite hostLine_starts.
      cbn [rmText]. now rewrite text_eqb_refl.
    + destruct (startsWith l (txt "Host ")) eqn:Hh; cbn [negb].
      * cbn [rmText]. now rewrite E.
      * apply IH.
Qed.

Lemma dropBody_Forall (P : text -> Prop) (ls : list text) :
  Forall P ls -> Forall P (dropBody ls).
Proof.
  induction 1 as [|l ls Hl Hls IH]; cbn [dropBody]; [constructor|].
  destruct (startsWith l (txt "Host ")); [now constructor | assumption].
Qed.

Lemma dropBody_length (ls : list text) :
  length (unlines (dropBody ls)) <= length (unlines ls).
Proof.
  induction ls as [|l ls IH]; cbn [dropBody]; [apply Nat.le_refl|].
  destruct (startsWith l (txt "Host ")); [apply Nat.le_refl|].
  rewrite unlines_cons, length_app. cbn [length]. lia.
Qed.

Lemma bodyRest_length (ls : list text) (frag : text) :
  length (bodyRest ls frag) <= length (unlines ls ++ frag).
Proof.
  unfold bodyRest. pose proof (dropBody_length ls) as H.
  rewrite length_app. destruct (dropBody ls) as [|l rest].
  - destruct (startsWith frag (txt "Host ")); cbn [length]; lia.
  - rewrite length_app. lia.
Qed.

Lemma skipn_header (r : text) :
  skipn (length (header alias)) (header alias ++ r) = r.
Proof.
  rewrite skipn_app, skipn_all, Nat.sub_diag. reflexivity.
Qed.

(** The replacement, on a text given by its lines, is the removal of the
    blocks line by line. *)
Lemma replaceAll_lines :
  forall fuel (ls : list text) (frag : text),
    Forall (fun l => noLineTerminator l = true) ls ->
    noLineTerminator frag = true ->
    length (unlines ls ++ frag) < fuel ->
    replaceAll fuel alias true (unlines ls ++ frag)
    = rmText alias false ls frag.
Proof.
  induction fuel as [fuel IH] using lt_wf_ind. intros ls frag Hls Hfrag Hfuel.
  destruct ls as [|l ls].
  - cbn [unlines map concat app rmText andb].
    apply replaceAll_plain. now apply noLT_noLF.
  - inversion Hls as [|? ? Hl Hls']; subst.
    rewrite unlines_cons. cbn [app]. rewrite <- app_assoc. cbn [app rmText].
    rewrite unlines_cons in Hfuel.
    repeat (rewrite ?length_app in Hfuel; cbn [length app] in Hfuel).
    destruct (text_eqb l (hostLine alias)) eqn:E.
    + apply text_eqb_eq in E. subst l.
      destruct fuel as [|fuel]; [lia|]. cbn [replaceAll].
      unfold matchAt. cbn [andb].
      change (hostLine alias ++ LF :: unlines ls ++ frag)
        with (hostLine alias ++ [LF] ++ unlines ls ++ frag).
      rewrite app_assoc, <- header_eq, JsFacts.startsWith_same, skipn_header.
      destruct (@groupStar_lines ls frag Hls' Hfrag
                  (length (header alias ++ unlines ls ++ frag)))
        as [b [-> Hb]].
      { rewrite header_eq. unfold hostLine. rewrite !length_app.
        cbn [length txt list_ascii_of_string].
        pose proof (length_unlines_ge ls). lia. }
      rewrite rmText_inBlock.
      pose proof (bodyRest_length ls frag) as Hlen.
      rewrite length_app in Hlen.
      unfold bodyRest in *.
      destruct (dropBody ls) as [|l2 rest] eqn:Hd.
      * apply replaceAll_plain.
        destruct (startsWith frag (txt "Host ")); [|reflexivity].
        now apply noLT_noLF.
      * destruct Hb as [-> | Hb].
        -- apply IH; trivial; rewrite ?length_app in *; try lia.
           rewrite <- Hd. now apply dropBody_Forall.
        -- exfalso. rewrite unlines_cons in Hb.
           destruct l2; discriminate Hb.
    + rewrite replaceAll_line by (trivial; lia).
      cbn [andb]. f_equal. f_equal.
      apply IH; trivial; rewrite ?length_app; lia.
Qed.

Lemma rmText_lines (b : bool) (ls : list text) :
  rmText alias b ls [] = unlines (rmLines alias b ls).
Proof.
  revert b. induction ls as [|l ls IH]; intros b; cbn [rmText rmLines].
  - now destruct b.
  - destruct (text_eqb l (hostLine alias)); [apply IH|].
    destruct (b && negb (startsWith l (txt "Host "))); [apply IH|].
    now rewrite unlines_cons, IH.
Qed.

(** On a text that ends with a line feed. *)
Lemma removeHostBlocks_unlines (ls : list text) :
  Forall (fun l => noLineTerminator l = true) ls ->
  removeHostBlocks alias (unlines ls) = unlines (rmLines alias false ls).
Proof.
  intros Hls. unfold removeHostBlocks.
  pose proof (@replaceAll_lines (S (length (unlines ls))) ls [] Hls eq_refl)
    as H.
  rewrite app_nil_r in H. rewrite H by lia. apply rmText_lines.
Qed.

End Alias.

End SshLinesFacts.

(** ** Trimming *)

Module TrimFacts.

Import Js.

(** A text that is empty or starts with a visible character. *)
Definition visibleStart (s : text) : Prop :=
  match s with
  | [] => True
  | c :: _ => isWhiteSpace c = false
  end.

(** A text that is empty or ends with a visible character. *)
Definition visibleEnd (s : text) : Prop := visibleStart (rev s).

Lemma trimStart_visible (s : text) :
  visibleStart s -> trimStart s = s.
Proof. destruct s as [|c s]; [reflexivity|]. cbn. now intros ->. Qed.

Lemma trimStart_visibleStart (s : text) : visibleStart (trimStart s).
Proof.
  induction s as [|c s IH]; [exact I|]. cbn [trimStart].
  destruct (isWhiteSpace c) eqn:E; [exact IH | exact E].
Qed.

Lemma trimEnd_visible (s : text) : visibleEnd s -> trimEnd s = s.
Proof.
  intros H. unfold trimEnd. rewrite trimStart_visible by exact H.
  apply rev_involutive.
Qed.

Lemma trimEnd_visibleEnd (s : text) : visibleEnd (trimEnd s).
Proof.
  unfold visibleEnd, trimEnd. rewrite rev_involutive.
  apply trimStart_visibleStart.
Qed.

Lemma trimEnd_snoc (s : text) (c : ascii) :
  isWhiteSpace c = true -> trimEnd (s ++ [c]) = trimEnd s.
Proof.
  intros H. unfold trimEnd. rewrite rev_app_distr. cbn [rev app trimStart].
  now rewrite H.
Qed.

(** Trimming the start of a text that ends with a visible character
    leaves a text that ends with it. *)
Lemma trimStart_keeps_end (u : text) (c : ascii) :
  isWhiteSpace c = false -> exists u', trimStart (u ++ [c]) = u' ++ [c].
Proof.
  intros H. induction u as [|d u IH]; cbn [app trimStart].
  - rewrite H. now exists [].
  - destruct (isWhiteSpace d); [exact IH | now exists (d :: u)].
Qed.

Lemma trimEnd_keeps_start (c : ascii) (s : text) :
  isWhiteSpace c = false -> exists s', trimEnd (c :: s) = c :: s'.
Proof.
  intros H. unfold trimEnd. cbn [rev].
  destruct (trimStart_keeps_end (rev s) c H) as [u' ->].
  exists (rev u'). now rewrite rev_app_distr.
Qed.

Lemma trim_visibleStart (s : text) : visibleStart (trim s).
Proof.
  unfold trim. pose proof (trimStart_visibleStart s) as H.
  destruct (trimStart s) as [|c t]; [exact I|]. cbn in H.
  destruct (trimEnd_keeps_start c t H) as [s' ->]. exact H.
Qed.

Lemma trim_visibleEnd (s : text) : visibleEnd (trim s).
Proof. apply trimEnd_visibleEnd. Qed.

Lemma trim_visible (s : text) :
  visibleStart s -> visibleEnd s -> trim s = s.
Proof.
  intros H1 H2. unfold trim. rewrite trimStart_visible by assumption.
  now apply trimEnd_visible.
Qed.

Lemma visibleEnd_app (a b : text) :
  b <> [] -> visibleEnd b -> visibleEnd (a ++ b).
Proof.
  intros Hb H. unfold visibleEnd in *. rewrite rev_app_distr.
  destruct (rev b) as [|c r] eqn:E.
  - apply (f_equal (@rev ascii)) in E. rewrite rev_involutive in E.
    now elim Hb.
  - exact H.
Qed.

Lemma visibleStart_app (a b : text) :
  a <> [] -> visibleStart a -> visibleStart (a ++ b).
Proof. destruct a; [now intros H | intros _ H; exact H]. Qed.

(** Trimming a text that starts and ends with a visible character and
    is followed by one line feed. *)
Lemma trim_line_feed (s : text) :
  s <> [] -> visibleStart s -> visibleEnd s -> trim (s ++ [LF]) = s.
Proof.
  intros Hne H1 H2. unfold trim.
  rewrite trimStart_visible by now apply visibleStart_app.
  rewrite trimEnd_snoc by reflexivity. now apply trimEnd_visible.
Qed.

(** The content [writeHostConfig] writes, for a trimmed rest [u] and a
    new block [b] followed by its line feed. *)
Lemma trim_join (u b : text) :
  visibleStart u -> visibleEnd u ->
  b <> [] -> visibleStart b -> visibleEnd b ->
  trim (u ++ [LF; LF] ++ b ++ [LF]) ++ [LF]
  = match u with
    | [] => b ++ [LF]
    | _ :: _ => u ++ [LF; LF] ++ b ++ [LF]
    end.
Proof.
  intros Hu1 Hu2 Hb Hb1 Hb2. destruct u as [|c u].
  - cbn [app]. unfold trim. cbn [trimStart isWhiteSpace].
    change (isWhiteSpace LF) with true. cbn iota.
    fold (trim (b ++ [LF])). now rewrite trim_line_feed.
  - replace ((c :: u) ++ [LF; LF] ++ b ++ [LF])
      with (((c :: u) ++ [LF; LF] ++ b) ++ [LF])
      by now rewrite <- !app_assoc.
    f_equal. apply trim_line_feed.
    + discriminate.
    + exact Hu1.
    + rewrite app_assoc. now apply visibleEnd_app.
Qed.

End TrimFacts.

(** ** Lines of a text *)

Module LinesFacts.

Import Js SshConfig SshLines SshLinesFacts TrimFacts.

Lemma linesOf_nonempty (s : text) : linesOf s <> [].
Proof.
  destruct s as [|c s]; cbn [linesOf]; [discriminate|].
  destruct (Ascii.eqb c LF); [discriminate|].
  destruct (linesOf s); discriminate.
Qed.

Lemma linesOf_cons (c : ascii) (s : text) :
  Ascii.eqb c LF = false ->
  exists l ls, linesOf s = l :: ls /\ linesOf (c :: s) = (c :: l) :: ls.
Proof.
  intros H. cbn [linesOf]. rewrite H.
  destruct (linesOf s) as [|l ls] eqn:E; [now elim (linesOf_nonempty s)|].
  now exists l, ls.
Qed.

(** [split] at line feeds and [linesOf] agree. *)
Lemma splitAux_linesOf (s cur : text) :
  splitAux [LF] 0 cur s
  = match linesOf s with
    | l :: ls => (rev cur ++ l) :: ls
    | [] => [rev cur]
    end.
Proof.
  revert cur. induction s as [|c s IH]; intros cur.
  - cbn [splitAux linesOf]. now rewrite app_nil_r.
  - cbn [splitAux startsWith linesOf length Nat.sub]. rewrite andb_true_r.
    rewrite Ascii.eqb_sym.
    destruct (Ascii.eqb c LF) eqn:E.
    + rewrite IH. cbn [rev app]. rewrite app_nil_r.
      destruct (linesOf s) as [|l ls] eqn:El; [now elim (linesOf_nonempty s)|].
      reflexivity.
    + rewrite IH. cbn [rev].
      destruct (linesOf s) as [|l ls]; now rewrite <- ?app_assoc.
Qed.

Lemma lines_linesOf (s : text) : lines s = linesOf s.
Proof.
  unfold lines, split. rewrite splitAux_linesOf. cbn [rev app].
  destruct (linesOf s) eqn:E; [now elim (linesOf_nonempty s) | reflexivity].
Qed.

Lemma linesOf_line (l r : text) :
  noLF l = true -> linesOf (l ++ LF :: r) = l :: linesOf r.
Proof.
  intros Hl. induction l as [|c l IH]; [reflexivity|].
  cbn [noLF forallb] in Hl. apply andb_true_iff in Hl as [Hc Hl].
  apply negb_true_iff in Hc. cbn [app linesOf]. now rewrite Hc, (IH Hl).
Qed.

Lemma linesOf_unlines (ls : list text) (frag : text) :
  Forall (fun l => noLF l = true) ls -> noLF frag = true ->
  linesOf (unlines ls ++ frag) = ls ++ [frag].
Proof.
  intros Hls Hf. induction Hls as [|l ls Hl Hls IH].
  - cbn [unlines map concat app]. induction frag as [|c frag IHf];
      [reflexivity|].
    cbn [noLF forallb] in Hf. apply andb_true_iff in Hf as [Hc Hf].
    apply negb_true_iff in Hc. cbn [linesOf]. now rewrite Hc, (IHf Hf).
  - rewrite unlines_cons. cbn [app]. rewrite <- app_assoc. cbn [app].
    now rewrite linesOf_line, IH.
Qed.

(** Every text is a list of lines followed by a last fragment. *)
Lemma linesOf_spec (P : ascii -> bool) (s : text) :
  forallb P s = true ->
  exists ls frag,
    linesOf s = ls ++ [frag] /\ s = unlines ls ++ frag
    /\ Forall (fun l => noLF l = true /\ forallb P l = true) (ls ++ [frag]).
Proof.
  induction s as [|c s IH]; intros HP.
  - exists [], []. repeat split. repeat constructor.
  - cbn [forallb] in HP. apply andb_true_iff in HP as [Hc HP].
    destruct (IH HP) as [ls [frag [E1 [E2 Hall]]]].
    destruct (Ascii.eqb c LF) eqn:E.
    + exists ([] :: ls), frag. cbn [linesOf]. rewrite E, E1.
      apply Ascii.eqb_eq in E. subst c. repeat split.
      * now rewrite unlines_cons, E2.
      * constructor; [now split | exact Hall].
    + cbn [linesOf]. rewrite E, E1. destruct ls as [|l ls]; cbn [app].
      * exists [], (c :: frag). repeat split.
        -- now rewrite E2.
        -- inversion Hall as [|? ? [H1 H2] _]; subst.
           constructor; [|constructor]. unfold noLF in *. cbn [forallb].
           now rewrite E, H1, Hc, H2.
      * exists ((c :: l) :: ls), frag. repeat split.
        -- now rewrite E2, !unlines_cons.
        -- inversion Hall as [|? ? [H1 H2] Hrest]; subst.
           constructor; [|exact Hrest]. unfold noLF in *. cbn [forallb].
           now rewrite E, H1, Hc, H2.
Qed.

Lemma linesOf_snoc (s : text) (c : ascii) :
  linesOf (s ++ [c])
  = if Ascii.eqb c LF then linesOf s ++ [[]]
    else removelast (linesOf s) ++ [last (linesOf s) [] ++ [c]].
Proof.
  induction s as [|d s IH].
  - cbn [app linesOf]. now destruct (Ascii.eqb c LF).
  - cbn [app linesOf]. rewrite IH. clear IH.
    pose proof (linesOf_nonempty s) as Hne.
    destruct (Ascii.eqb d LF), (Ascii.eqb c LF); cbn [app].
    + reflexivity.
    + destruct (linesOf s) as [|l ls]; [now elim Hne|]. reflexivity.
    + destruct (linesOf s) as [|l ls]; [now elim Hne|]. reflexivity.
    + destruct (linesOf s) as [|l ls]; [now elim Hne|].
      destruct ls as [|l2 ls]; [reflexivity|].
      cbn [removelast last app].
      destruct (removelast (l2 :: ls) ++ [last (l2 :: ls) [] ++ [c]])
        eqn:E; [|reflexivity].
      now destruct (removelast (l2 :: ls)).
Qed.

Lemma linesOf_rev (s : text) :
  linesOf (rev s) = rev (map (@rev ascii) (linesOf s)).
Proof.
  induction s as [|c s IH]; [reflexivity|].
  cbn [rev]. rewrite linesOf_snoc, IH. cbn [linesOf].
  pose proof (linesOf_nonempty s) as Hne.
  destruct (Ascii.eqb c LF); [reflexivity|].
  destruct (linesOf s) as [|l ls]; [now elim Hne|].
  cbn [map rev]. now rewrite removelast_last, last_last.
Qed.

Lemma In_linesOf_trimStart (x s : text) :
  x <> [] -> visibleStart x ->
  In x (linesOf s) -> In x (linesOf (trimStart s)).
Proof.
  intros Hne Hx. induction s as [|d s IH]; [trivial|].
  cbn [trimStart]. destruct (isWhiteSpace d) eqn:Hd; [|trivial].
  intros Hin. apply IH. cbn [linesOf] in Hin.
  destruct (Ascii.eqb d LF).
  - destruct Hin as [<- | Hin]; [now elim Hne | exact Hin].
  - destruct (linesOf s) as [|l ls].
    + destruct Hin as [<- | []]. cbn in Hx. congruence.
    + destruct Hin as [<- | Hin]; [cbn in Hx; congruence | now right].
Qed.

(** A line that starts and ends with a visible character is still a
    line of the trimmed text. *)
Lemma In_linesOf_trim (x s : text) :
  x <> [] -> visibleStart x -> visibleEnd x ->
  In x (linesOf s) -> In x (linesOf (trim s)).
Proof.
  intros Hne H1 H2 Hin. unfold trim, trimEnd.
  rewrite linesOf_rev. apply in_rev. rewrite rev_involutive.
  rewrite <- (rev_involutive x). apply in_map.
  apply In_linesOf_trimStart.
  - intros E. apply (f_equal (@rev ascii)) in E.
    rewrite rev_involutive in E. now elim Hne.
  - exact H2.
  - rewrite linesOf_rev. apply in_rev. rewrite rev_involutive.
    apply in_map. now apply In_linesOf_trimStart.
Qed.

End LinesFacts.

(** ** The block [generateHostConfig] renders *)

Module BlockFacts.

Import Js SshConfig SshLines SshLinesFacts TrimFacts LinesFacts.

Definition lastLine : text := txt "  ServerAliveCountMax 3".

(** The lines of a block after its [Host] line, but the last. *)
Definition bodyInit (keyPaths : list text) (host : text) (port : N)
           (user : text) : list text :=
  [ txt "  HostName " ++ host; txt "  Port " ++ ofN port;
    txt "  User " ++ user ]
  ++ map (fun p => txt "  IdentityFile " ++ p) keyPaths
  ++ [ txt "  ForwardAgent no"; txt "  ForwardX11 no";
       txt "  StrictHostKeyChecking accept-new";
       txt "  ServerAliveInterval 5" ].

Definition blockLines (keyPaths : list text) (alias host : text) (port : N)
           (user : text) : list text :=
  hostLine alias :: bodyInit keyPaths host port user ++ [lastLine].

(** The block without its final line feed. *)
Definition blockText (keyPaths : list text) (alias host : text) (port : N)
           (user : text) : text :=
  unlines (hostLine alias :: bodyInit keyPaths host port user) ++ lastLine.

(** A line that starts with a space. *)
Definition indented (l : text) : Prop := startsWith l (txt " ") = true.

Lemma join_unlines (x : text) (xs : list text) :
  join [LF] (x :: xs) ++ [LF] = unlines (x :: xs).
Proof.
  revert x. induction xs as [|y xs IH]; intros x.
  - cbn [join]. rewrite unlines_cons. cbn [unlines map concat]. reflexivity.
  - cbn [join]. rewrite unlines_cons, <- IH, <- !app_assoc. reflexivity.
Qed.

Lemma identitySection_unlines (keyPaths : list text) :
  let identityLines :=
    join [LF] (map (fun p => txt "  IdentityFile " ++ p) keyPaths) in
  (if truthy identityLines then identityLines ++ [LF] else [])
  = unlines (map (fun p => txt "  IdentityFile " ++ p) keyPaths).
Proof.
  destruct keyPaths as [|k ks]; [reflexivity|].
  cbn zeta. cbn [map]. rewrite <- join_unlines.
  destruct ks; reflexivity.
Qed.

Lemma generateHostConfig_lines keyPaths alias host port user :
  generateHostConfig keyPaths alias host port user
  = unlines (blockLines keyPaths alias host port user).
Proof.
  unfold generateHostConfig, blockLines, bodyInit, lastLine, hostLine.
  rewrite identitySection_unlines.
  rewrite !unlines_cons, !unlines_app, !unlines_cons.
  cbn [unlines map concat].
  repeat (rewrite <- ?app_assoc; cbn [app]). reflexivity.
Qed.

Lemma generateHostConfig_text keyPaths alias host port user :
  generateHostConfig keyPaths alias host port user
  = blockText keyPaths alias host port user ++ [LF].
Proof.
  rewrite generateHostConfig_lines. unfold blockLines, blockText.
  rewrite app_comm_cons, unlines_app, <- app_assoc. f_equal.
Qed.

Lemma blockText_nonempty keyPaths alias host port user :
  blockText keyPaths alias host port user <> [].
Proof. unfold blockText. rewrite unlines_cons. discriminate. Qed.

Lemma blockText_visibleStart keyPaths alias host port user :
  visibleStart (blockText keyPaths alias host port user).
Proof. unfold blockText. rewrite unlines_cons. reflexivity. Qed.

Lemma blockText_visibleEnd keyPaths alias host port user :
  visibleEnd (blockText keyPaths alias host port user).
Proof.
  unfold blockText. apply visibleEnd_app; [discriminate | reflexivity].
Qed.

Lemma noLT_uint (u : Decimal.uint) :
  noLineTerminator (txt (NilEmpty.string_of_uint u)) = true.
Proof. induction u; cbn; trivial. Qed.

Lemma noLT_ofN (n : N) : noLineTerminator (ofN n) = true.
Proof. apply noLT_uint. Qed.

Section Block.

Variables (keyPaths : list text) (alias host : text) (port : N) (user : text).
Hypothesis alias_ok : aliasOk alias = true.
Hypothesis host_ok : noLineTerminator host = true.
Hypothesis user_ok : noLineTerminator user = true.
Hypothesis keys_ok : forallb noLineTerminator keyPaths = true.

Lemma bodyInit_indented :
  Forall indented (bodyInit keyPaths host port user ++ [lastLine]).
Proof.
  unfold bodyInit. rewrite <- !app_assoc.
  repeat (apply Forall_cons; [reflexivity|]).
  apply Forall_app. split.
  - apply Forall_forall. intros l Hl. apply in_map_iff in Hl.
    destruct Hl as [p [<- _]]. reflexivity.
  - repeat (apply Forall_cons; [reflexivity|]). constructor.
Qed.

Lemma bodyInit_noLT :
  Forall (fun l => noLineTerminator l = true)
         (bodyInit keyPaths host port user ++ [lastLine]).
Proof.
  unfold bodyInit. rewrite <- !app_assoc. cbn [app].
  apply Forall_cons; [now rewrite noLT_app, host_ok|].
  apply Forall_cons; [now rewrite noLT_app, noLT_ofN|].
  apply Forall_cons; [now rewrite noLT_app, user_ok|].
  apply Forall_app. split.
  - apply Forall_forall. intros l Hl. apply in_map_iff in Hl.
    destruct Hl as [p [<- Hp]]. rewrite noLT_app.
    rewrite forallb_forall in keys_ok. now rewrite (keys_ok p Hp).
  - repeat (apply Forall_cons; [reflexivity|]). constructor.
Qed.

Lemma blockLines_noLT :
  Forall (fun l => noLineTerminator l = true)
         (blockLines keyPaths alias host port user).
Proof.
  unfold blockLines. apply Forall_cons.
  - now apply noLT_hostLine.
  - apply bodyInit_noLT.
Qed.

End Block.

End BlockFacts.

(** ** Writing host blocks *)

Module WriteFacts.

Import Js SshConfig SshLines SshLinesFacts TrimFacts LinesFacts BlockFacts.

(** A list of lines that is empty or whose first line starts with a
    visible character. *)
Definition headOK (ls : list text) : Prop :=
  match ls with
  | [] => True
  | l :: _ => l <> [] /\ visibleStart l
  end.

Lemma hostLine_inj (a b : text) : hostLine a = hostLine b -> a = b.
Proof. unfold hostLine. apply app_inv_head. Qed.

Lemma indented_not_host (l x : text) :
  indented l ->
  text_eqb l (hostLine x) = false /\ startsWith l (txt "Host ") = false.
Proof.
  unfold indented. intros H. apply JsFacts.startsWith_app in H as [r ->].
  split; [|reflexivity]. apply text_eqb_neq. discriminate.
Qed.

Lemma rmLines_app (x : text) (st : bool) (a b : list text) :
  rmLines x st (a ++ b)
  = rmLines x st a ++ rmLines x (endsInBlock x st a) b.
Proof.
  revert st. induction a as [|l a IH]; intros st; [reflexivity|].
  cbn [app rmLines endsInBlock].
  destruct (text_eqb l (hostLine x)); [apply IH|].
  destruct (st && negb (startsWith l (txt "Host "))); [apply IH|].
  cbn [app]. now rewrite IH.
Qed.

Lemma rmLines_indented_out (x : text) (body rest : list text) :
  Forall indented body ->
  rmLines x false (body ++ rest) = body ++ rmLines x false rest.
Proof.
  induction 1 as [|l body Hl Hb IH]; [reflexivity|].
  cbn [app rmLines andb]. destruct (indented_not_host x Hl) as [-> _].
  now rewrite IH.
Qed.

Lemma rmLines_indented_in (x : text) (body rest : list text) :
  Forall indented body ->
  rmLines x true (body ++ rest) = rmLines x true rest.
Proof.
  induction 1 as [|l body Hl Hb IH]; [reflexivity|].
  cbn [app rmLines andb]. destruct (indented_not_host x Hl) as [-> ->].
  exact IH.
Qed.

Lemma rmLines_Forall (Q : text -> Prop) (x : text) (st : bool)
      (ls : list text) :
  Forall Q ls -> Forall Q (rmLines x st ls).
Proof.
  intros H. revert st. induction H as [|l ls Hl Hls IH]; intros st;
    cbn [rmLines]; [constructor|].
  destruct (text_eqb l (hostLine x)); [apply IH|].
  destruct (st && negb (startsWith l (txt "Host "))); [apply IH|].
  constructor; [assumption | apply IH].
Qed.

(** No line [Host <alias>] is left. *)
Lemma rmLines_no_host (x : text) (st : bool) (ls : list text) :
  ~ In (hostLine x) (rmLines x st ls).
Proof.
  revert st. induction ls as [|l ls IH]; intros st; cbn [rmLines];
    [intros []|].
  destruct (text_eqb l (hostLine x)) eqn:E; [apply IH|].
  destruct (st && negb (startsWith l (txt "Host "))); [apply IH|].
  intros [H | H]; [|now apply IH in H].
  apply text_eqb_neq in E. now elim E.
Qed.

Lemma rmLines_id (x : text) (ls : list text) :
  ~ In (hostLine x) ls -> rmLines x false ls = ls.
Proof.
  induction ls as [|l ls IH]; intros H; [reflexivity|].
  cbn [rmLines andb].
  destruct (text_eqb l (hostLine x)) eqn:E.
  - apply text_eqb_eq in E. elim H. now left.
  - rewrite IH; [reflexivity|]. intros Hin. apply H. now right.
Qed.

Lemma rmText_id (x : text) (ls : list text) (frag : text) :
  ~ In (hostLine x) ls -> rmText x false ls frag = unlines ls ++ frag.
Proof.
  induction ls as [|l ls IH]; intros H; [reflexivity|].
  cbn [rmText andb].
  destruct (text_eqb l (hostLine x)) eqn:E.
  - apply text_eqb_eq in E. elim H. now left.
  - rewrite IH, unlines_cons, <- app_assoc; [reflexivity|].
    intros Hin. apply H. now right.
Qed.

Lemma rmLines_inBlock_headOK (x : text) (ls : list text) :
  headOK (rmLines x true ls).
Proof.
  induction ls as [|l ls IH]; cbn [rmLines andb]; [exact I|].
  destruct (text_eqb l (hostLine x)); [exact IH|].
  destruct (startsWith l (txt "Host ")) eqn:E; cbn [negb]; [|exact IH].
  apply JsFacts.startsWith_app in E as [r ->]. split; [discriminate|reflexivity].
Qed.

Lemma rmLines_headOK (x : text) (ls : list text) :
  headOK ls -> headOK (rmLines x false ls).
Proof.
  destruct ls as [|l ls]; intros H; cbn [rmLines andb]; [exact I|].
  destruct (text_eqb l (hostLine x)); [apply rmLines_inBlock_headOK|].
  exact H.
Qed.

Lemma headOK_visibleStart (ls : list text) (s : text) :
  headOK ls -> visibleStart s -> visibleStart (unlines ls ++ s).
Proof.
  destruct ls as [|l ls]; intros H Hs; [exact Hs|].
  destruct H as [Hne Hl]. rewrite unlines_cons.
  destruct l as [|c l]; [now elim Hne | exact Hl].
Qed.

Lemma unlines_linesOf (s : text) : unlines (linesOf s) = s ++ [LF].
Proof.
  destruct (@linesOf_spec (fun _ => true) s) as [ls [frag [E1 [E2 _]]]].
  - now apply forallb_forall.
  - rewrite E1, unlines_app, E2 at 1. rewrite <- app_assoc.
    unfold unlines at 2. cbn [map concat]. now rewrite app_nil_r.
Qed.

Lemma forallb_trimStart (P : ascii -> bool) (s : text) :
  forallb P s = true -> forallb P (trimStart s) = true.
Proof.
  induction s as [|c s IH]; [trivial|]. cbn [trimStart]. intros H.
  destruct (isWhiteSpace c); [|exact H].
  cbn [forallb] in H. apply andb_true_iff in H as [_ H]. now apply IH.
Qed.

Lemma forallb_rev (P : ascii -> bool) (s : text) :
  forallb P s = true -> forallb P (rev s) = true.
Proof.
  rewrite !forallb_forall. intros H c Hc. apply H. now apply in_rev.
Qed.

Lemma forallb_trim (P : ascii -> bool) (s : text) :
  forallb P s = true -> forallb P (trim s) = true.
Proof.
  intros H. unfold trim, trimEnd.
  now apply forallb_rev, forallb_trimStart, forallb_rev, forallb_trimStart.
Qed.

Lemma forallb_rmText (P : ascii -> bool) (x : text) (st : bool)
      (ls : list text) (frag : text) :
  P LF = true ->
  Forall (fun l => forallb P l = true) ls -> forallb P frag = true ->
  forallb P (rmText x st ls frag) = true.
Proof.
  intros HLF Hls Hf. revert st.
  induction Hls as [|l ls Hl Hls IH]; intros st; cbn [rmText].
  - now destruct (st && negb (startsWith frag (txt "Host "))).
  - destruct (text_eqb l (hostLine x)); [apply IH|].
    destruct (st && negb (startsWith l (txt "Host "))); [apply IH|].
    rewrite forallb_app, Hl. cbn [forallb andb]. now rewrite HLF, IH.
Qed.

Definition notCR (c : ascii) : bool := negb (Ascii.eqb c CR).

Lemma noLT_of (l : text) :
  noLF l = true -> forallb notCR l = true -> noLineTerminator l = true.
Proof.
  unfold noLF, noLineTerminator, notCR. rewrite !forallb_forall.
  intros H1 H2 c Hc. specialize (H1 c Hc). specialize (H2 c Hc).
  unfold isLineTerminator. apply negb_true_iff in H1, H2.
  now rewrite H1, H2.
Qed.

Lemma noLT_lines (ls : list text) :
  Forall (fun l => noLF l = true /\ forallb notCR l = true) ls ->
  Forall (fun l => noLineTerminator l = true) ls.
Proof.
  apply Forall_impl. intros l [H1 H2]. now apply noLT_of.
Qed.

End WriteFacts.

Module SequenceFacts.

Import Js SshConfig SshLines SshLinesFacts TrimFacts LinesFacts BlockFacts
       WriteFacts.

(** The lines [writeHostConfig] puts before the new block for a trimmed
    rest [u]: nothing, or the lines of [u] and an empty line. *)
Definition restLines (u : text) : list text :=
  match u with
  | [] => []
  | _ :: _ => linesOf u ++ [[]]
  end.

Lemma count_host_indented (x : text) (body : list text) :
  Forall indented body ->
  count_occ (list_eq_dec ascii_dec) body (hostLine x) = 0.
Proof.
  intros H. apply count_occ_not_In. intros Hin.
  rewrite Forall_forall in H. specialize (H _ Hin).
  destruct (indented_not_host x H) as [E _].
  apply text_eqb_neq in E. now elim E.
Qed.

Lemma count_host_none (x : text) (ls : list text) :
  ~ In (hostLine x) ls ->
  count_occ (list_eq_dec ascii_dec) ls (hostLine x) = 0.
Proof. apply count_occ_not_In. Qed.

Lemma blockCount_unlines (x : text) (ls : list text) :
  Forall (fun l => noLF l = true) ls ->
  blockCount x (unlines ls)
  = count_occ (list_eq_dec ascii_dec) ls (hostLine x).
Proof.
  intros H. unfold blockCount. rewrite lines_linesOf.
  rewrite <- (app_nil_r (unlines ls)), linesOf_unlines by trivial.
  rewrite count_occ_app. cbn [count_occ].
  destruct (list_eq_dec ascii_dec [] (hostLine x)) as [E|_];
    [discriminate E | apply Nat.add_0_r].
Qed.

Section Machine.

Variable m : Keys.Machine.
Let keys := Keys.getAllKeyPaths m None.
Hypothesis keys_ok : forallb noLineTerminator keys = true.

Lemma writeHostConfig_content (alias host : text) (port : N) (user : text)
      (file : option text) :
  contentOf (writeHostConfig m alias host port user file)
  = match trim (removeHostBlocks alias (contentOf file)) with
    | [] => generateHostConfig keys alias host port user
    | (_ :: _) as u =>
        u ++ [LF; LF] ++ generateHostConfig keys alias host port user
    end.
Proof.
  unfold writeHostConfig. cbn [contentOf]. fold keys.
  change (match file with Some c => c | None => [] end) with (contentOf file).
  rewrite generateHostConfig_text.
  rewrite trim_join.
  - now destruct (trim (removeHostBlocks alias (contentOf file))).
  - apply trim_visibleStart.
  - apply trim_visibleEnd.
  - apply blockText_nonempty.
  - apply blockText_visibleStart.
  - apply blockText_visibleEnd.
Qed.

Lemma write_first (alias host : text) (port : N) (user : text)
      (file : option text) :
  contentOf (writeHostConfig m alias host port user file)
  = unlines (restLines (trim (removeHostBlocks alias (contentOf file)))
             ++ blockLines keys alias host port user).
Proof.
  rewrite writeHostConfig_content, generateHostConfig_lines.
  destruct (trim (removeHostBlocks alias (contentOf file))) as [|c u];
    [reflexivity|].
  unfold restLines. rewrite !unlines_app, unlines_linesOf, <- !app_assoc.
  reflexivity.
Qed.

(** A write on a file that is a list of lines and whose rest, once the
    blocks of the alias are removed, ends with a block. *)
Lemma write_on_lines (alias host : text) (port : N) (user : text)
      (ls q : list text) keys' alias' host' port' user' :
  aliasOk alias = true ->
  Forall (fun l => noLineTerminator l = true) ls ->
  rmLines alias false ls = q ++ blockLines keys' alias' host' port' user' ->
  headOK q ->
  contentOf (writeHostConfig m alias host port user (Some (unlines ls)))
  = unlines (rmLines alias false ls ++ [[]]
             ++ blockLines keys alias host port user).
Proof.
  intros Ha Hls Hr Hq.
  rewrite writeHostConfig_content. cbn [contentOf].
  rewrite removeHostBlocks_unlines, Hr by assumption.
  rewrite unlines_app, <- generateHostConfig_lines, generateHostConfig_text.
  rewrite app_assoc, trim_line_feed.
  - rewrite !unlines_app, <- generateHostConfig_lines.
    pose proof (@blockText_nonempty keys' alias' host' port' user') as Hne.
    destruct (unlines q ++ blockText keys' alias' host' port' user')
      as [|c u] eqn:E.
    + apply app_eq_nil in E as [_ E]. now elim Hne.
    + rewrite <- E. fold keys.
      rewrite <- ?generateHostConfig_lines, ?generateHostConfig_text.
      rewrite <- ?app_assoc. reflexivity.
  - intros E. apply app_eq_nil in E as [_ E].
    now apply blockText_nonempty in E.
  - apply headOK_visibleStart; [exact Hq | apply blockText_visibleStart].
  - apply visibleEnd_app; [apply blockText_nonempty | apply blockText_visibleEnd].
Qed.


Lemma rmLines_other_block (x : text) (st : bool) (alias host : text)
      (port : N) (user : text) (rest : list text) :
  alias <> x ->
  rmLines x st (blockLines keys alias host port user ++ rest)
  = blockLines keys alias host port user ++ rmLines x false rest.
Proof.
  intros Hne. unfold blockLines. cbn [app rmLines].
  replace (text_eqb (hostLine alias) (hostLine x)) with false.
  - rewrite hostLine_starts. cbn [negb]. rewrite andb_false_r.
    rewrite rmLines_indented_out by apply bodyInit_indented.
    reflexivity.
  - symmetry. apply text_eqb_neq. intros E. now apply hostLine_inj in E.
Qed.

Lemma rmLines_own_block (x : text) (st : bool) (host : text)
      (port : N) (user : text) (rest : list text) :
  rmLines x st (blockLines keys x host port user ++ [] :: rest)
  = rmLines x true rest.
Proof.
  unfold blockLines. cbn [app rmLines]. rewrite text_eqb_refl.
  rewrite rmLines_indented_in by apply bodyInit_indented.
  cbn [rmLines]. destruct (text_eqb [] (hostLine x)) eqn:E;
    [apply text_eqb_eq in E; discriminate E | reflexivity].
Qed.

Lemma count_block (x alias host : text) (port : N) (user : text) :
  count_occ (list_eq_dec ascii_dec)
            (blockLines keys alias host port user) (hostLine x)
  = if text_eqb alias x then 1 else 0.
Proof.
  unfold blockLines. cbn [count_occ].
  rewrite (count_host_indented x (bodyInit_indented keys host port user)).
  destruct (list_eq_dec ascii_dec (hostLine alias) (hostLine x)) as [E|E].
  - apply hostLine_inj in E. subst. now rewrite text_eqb_refl.
  - destruct (text_eqb alias x) eqn:E'; [|reflexivity].
    apply text_eqb_eq in E'. subst. now elim E.
Qed.

End Machine.

Lemma rmLines_In (x : text) (st : bool) (ls : list text) (l : text) :
  In l (rmLines x st ls) -> In l ls.
Proof.
  revert st. induction ls as [|l' ls IH]; intros st; cbn [rmLines];
    [trivial|].
  destruct (text_eqb l' (hostLine x)); [intros H; right; eapply IH; eauto|].
  destruct (st && negb (startsWith l' (txt "Host ")));
    [intros H; right; eapply IH; eauto|].
  intros [H | H]; [now left | right; eapply IH; eauto].
Qed.

Lemma visibleEnd_hostLine (x : text) :
  aliasOk x = true -> visibleEnd (hostLine x).
Proof.
  intros Hx. pose proof (alias_visible x Hx) as Hv.
  unfold aliasOk in Hx. apply andb_true_iff in Hx as [Hne _].
  unfold hostLine. apply visibleEnd_app; [now destruct x|].
  unfold visibleEnd, visibleStart. destruct (rev x) as [|c r] eqn:E; [exact I|].
  rewrite Forall_forall in Hv. apply Hv. apply in_rev. rewrite E. now left.
Qed.

(** What the removal does to any text without carriage return. *)
Lemma removeHostBlocks_text (x s : text) :
  aliasOk x = true -> noCarriageReturn s = true ->
  exists ls frag,
    linesOf s = ls ++ [frag] /\ s = unlines ls ++ frag
    /\ Forall (fun l => noLineTerminator l = true) (ls ++ [frag])
    /\ removeHostBlocks x s = rmText x false ls frag.
Proof.
  intros Hx Hs.
  destruct (@linesOf_spec notCR s Hs) as [ls [frag [E1 [E2 Hall]]]].
  apply noLT_lines in Hall. exists ls, frag. repeat split; trivial.
  apply Forall_app in Hall as [Hls Hf]. inversion Hf; subst.
  unfold removeHostBlocks.
  apply replaceAll_lines; trivial. lia.
Qed.

Lemma removeHostBlocks_notCR (x s : text) :
  aliasOk x = true -> noCarriageReturn s = true ->
  forallb notCR (removeHostBlocks x s) = true.
Proof.
  intros Hx Hs.
  destruct (removeHostBlocks_text x s Hx Hs) as [ls [frag [_ [_ [Hall ->]]]]].
  apply Forall_app in Hall as [Hls Hf]. inversion Hf; subst.
  assert (Hn : forall l, noLineTerminator l = true -> forallb notCR l = true).
  { intros l Hl. unfold noLineTerminator in Hl.
    rewrite forallb_forall in *. intros c Hc. specialize (Hl c Hc).
    unfold isLineTerminator in Hl. unfold notCR.
    destruct (Ascii.eqb c CR); [|reflexivity].
    now rewrite orb_true_r in Hl. }
  apply forallb_rmText; [reflexivity| |now apply Hn].
  eapply Forall_impl; [|exact Hls]. exact Hn.
Qed.

(** A text that holds no line [Host <alias>] once trimmed holds no block
    of the alias. *)
Lemma removeHostBlocks_id (x s : text) :
  aliasOk x = true -> noCarriageReturn s = true ->
  blockCount x (trim s) = 0 ->
  removeHostBlocks x s = s.
Proof.
  intros Hx Hs Hc.
  destruct (removeHostBlocks_text x s Hx Hs) as [ls [frag [E1 [E2 [_ ->]]]]].
  etransitivity; [|symmetry; exact E2]. apply rmText_id. intros Hin.
  unfold blockCount in Hc. rewrite lines_linesOf in Hc.
  apply (count_occ_not_In (list_eq_dec ascii_dec)) in Hc. apply Hc.
  apply In_linesOf_trim.
  - discriminate.
  - reflexivity.
  - now apply visibleEnd_hostLine.
  - rewrite E1. apply in_or_app. now left.
Qed.

Lemma restLines_ok (u : text) :
  forallb notCR u = true -> visibleStart u ->
  Forall (fun l => noLineTerminator l = true) (restLines u)
  /\ headOK (restLines u).
Proof.
  intros Hu Hv. destruct u as [|c u]; [split; [constructor | exact I]|].
  unfold restLines. split.
  - destruct (@linesOf_spec notCR (c :: u) Hu) as [ls [frag [-> [_ Hall]]]].
    apply Forall_app. split; [now apply noLT_lines|].
    constructor; [reflexivity | constructor].
  - cbn in Hv.
    assert (Hc : Ascii.eqb c LF = false).
    { destruct (Ascii.eqb c LF) eqn:E; [|reflexivity].
      apply Ascii.eqb_eq in E. subst c. discriminate Hv. }
    destruct (linesOf_cons c u Hc) as [l [ls [_ ->]]].
    cbn [app headOK]. split; [discriminate | exact Hv].
Qed.

Lemma unlines_restLines (u : text) :
  unlines (restLines u)
  = match u with [] => [] | _ :: _ => u ++ [LF; LF] end.
Proof.
  destruct u as [|c u]; [reflexivity|]. unfold restLines.
  now rewrite unlines_app, unlines_linesOf, <- app_assoc.
Qed.

End SequenceFacts.

Module SshConfigFacts.

Import Js SshConfig SshLines SshLinesFacts TrimFacts LinesFacts BlockFacts
       WriteFacts SequenceFacts.

Section ThreeWrites.

Variable m : Keys.Machine.
Variables a b : text.
Variables hostA1 userA1 hostB userB hostA2 userA2 : text.
Variables portA1 portB portA2 : N.
Variable file : option text.

Local Abbreviation keys := (Keys.getAllKeyPaths m None).
Let blockB := generateHostConfig keys b hostB portB userB.
Let blockA := generateHostConfig keys a hostA2 portA2 userA2.
Let final :=
  contentOf
    (writeHostConfig m a hostA2 portA2 userA2
       (writeHostConfig m b hostB portB userB
          (writeHostConfig m a hostA1 portA1 userA1 file))).
Let prior := trim (contentOf file).

Hypothesis a_ok : aliasOk a = true.
Hypothesis b_ok : aliasOk b = true.
Hypothesis a_b : a <> b.
Hypothesis hostA1_ok : noLineTerminator hostA1 = true.
Hypothesis userA1_ok : noLineTerminator userA1 = true.
Hypothesis hostB_ok : noLineTerminator hostB = true.
Hypothesis userB_ok : noLineTerminator userB = true.
Hypothesis hostA2_ok : noLineTerminator hostA2 = true.
Hypothesis userA2_ok : noLineTerminator userA2 = true.
Hypothesis keys_ok : forallb noLineTerminator keys = true.
Hypothesis file_ok : noCarriageReturn (contentOf file) = true.

(** The lines kept from the prior content by the three writes. *)
Local Abbreviation rest1 :=
  (restLines (trim (removeHostBlocks a (contentOf file)))).
Local Abbreviation rest2 := (rmLines b false rest1).
Local Abbreviation rest3 := (rmLines a false rest2).

Local Abbreviation blkA1 := (blockLines keys a hostA1 portA1 userA1).
Local Abbreviation blkB := (blockLines keys b hostB portB userB).
Local Abbreviation blkA2 := (blockLines keys a hostA2 portA2 userA2).

Lemma rest1_ok :
  Forall (fun l => noLineTerminator l = true) rest1 /\ headOK rest1.
Proof.
  apply restLines_ok.
  - apply forallb_trim. now apply removeHostBlocks_notCR.
  - apply trim_visibleStart.
Qed.

Lemma final_lines : final = unlines ((rest3 ++ blkB) ++ [[]] ++ blkA2).
Proof.
  destruct rest1_ok as [H1 Hh1].
  assert (HA1 : Forall (fun l => noLineTerminator l = true) blkA1)
    by now apply blockLines_noLT.
  assert (HB : Forall (fun l => noLineTerminator l = true) blkB)
    by now apply blockLines_noLT.
  assert (R2 : rmLines b false (rest1 ++ blkA1) = rest2 ++ blkA1).
  { rewrite rmLines_app. f_equal.
    rewrite <- (app_nil_r blkA1) at 1.
    rewrite rmLines_other_block by assumption. apply app_nil_r. }
  assert (R3 : rmLines a false ((rest2 ++ blkA1) ++ [[]] ++ blkB)
               = rest3 ++ blkB).
  { rewrite <- app_assoc, rmLines_app. f_equal. cbn [app].
    rewrite rmLines_own_block.
    rewrite <- (app_nil_r blkB) at 1.
    rewrite rmLines_other_block by (intros E; now apply a_b).
    apply app_nil_r. }
  subst final.
  assert (Hsome : forall alias host port user f,
             writeHostConfig m alias host port user f
             = Some (contentOf (writeHostConfig m alias host port user f)))
    by reflexivity.
  rewrite (Hsome a hostA1 portA1 userA1 file).
  rewrite (write_first m a hostA1 portA1 userA1 file).
  rewrite (Hsome b hostB portB userB).
  rewrite (@write_on_lines m b hostB portB userB (rest1 ++ blkA1) rest2
             keys a hostA1 portA1 userA1); trivial.
  - rewrite R2.
    rewrite (@write_on_lines m a hostA2 portA2 userA2
               ((rest2 ++ blkA1) ++ [[]] ++ blkB) rest3
               keys b hostB portB userB); trivial.
    + now rewrite R3.
    + apply Forall_app. split.
      * apply Forall_app. split; [now apply rmLines_Forall | exact HA1].
      * constructor; [reflexivity | exact HB].
    + now apply rmLines_headOK, rmLines_headOK.
  - apply Forall_app. now split.
  - now apply rmLines_headOK.
Qed.

Lemma rest3_noLF : Forall (fun l => noLF l = true) rest3.
Proof.
  destruct rest1_ok as [H1 _].
  eapply Forall_impl; [|apply rmLines_Forall, rmLines_Forall; exact H1].
  intros l. apply noLT_noLF.
Qed.

Lemma rest3_no_a : ~ In (hostLine a) rest3.
Proof. apply rmLines_no_host. Qed.

Lemma rest3_no_b : ~ In (hostLine b) rest3.
Proof.
  intros H. apply rmLines_In in H. now apply rmLines_no_host in H.
Qed.

Lemma block_noLF alias host port user :
  aliasOk alias = true -> noLineTerminator host = true ->
  noLineTerminator user = true ->
  Forall (fun l => noLF l = true) (blockLines keys alias host port user).
Proof.
  intros H1 H2 H3.
  eapply Forall_impl; [|now apply blockLines_noLT].
  intros l. apply noLT_noLF.
Qed.

(** C2, amended. For a prior configuration without carriage return, the
    file after writing a block for [a], then for [b], then for [a] again
    is: a kept part, the block of [b] as it was written, an empty line,
    and the latest block of [a].  The kept part holds no line [Host a]
    and no line [Host b], so the file holds exactly one block for each
    alias.  When the prior content, trimmed, holds no such line, the kept
    part is that trimmed content followed by an empty line: the prior
    content is preserved but for the white space at its two ends.  In
    general the kept part is made of the lines of the trimmed text the
    first removal leaves and an empty line, without the lines of the
    blocks of [b] and of [a]. *)
Theorem writeHostConfig_sequence :
  exists kept,
    final = kept ++ blockB ++ [LF] ++ blockA
    /\ blockCount a kept = 0 /\ blockCount b kept = 0
    /\ blockCount a final = 1 /\ blockCount b final = 1
    /\ (blockCount a prior = 0 -> blockCount b prior = 0 ->
        kept = match prior with
               | [] => []
               | _ :: _ => prior ++ [LF; LF]
               end)
    /\ kept
       = unlines
           (rmLines a false
              (rmLines b false
                 (restLines (trim (removeHostBlocks a (contentOf file)))))).
Proof.
  pose proof rest3_noLF as Hn. pose proof rest3_no_a as Ha.
  pose proof rest3_no_b as Hb.
  pose proof (@block_noLF b hostB portB userB b_ok hostB_ok userB_ok) as HnB.
  pose proof (@block_noLF a hostA2 portA2 userA2 a_ok hostA2_ok userA2_ok)
    as HnA.
  exists (unlines rest3).
  split; [|split; [|split; [|split; [|split; [|split; [|reflexivity]]]]]].
  - rewrite final_lines. subst blockB blockA.
    rewrite !generateHostConfig_lines, !unlines_app.
    now rewrite <- !app_assoc.
  - rewrite blockCount_unlines by assumption. now apply count_host_none.
  - rewrite blockCount_unlines by assumption. now apply count_host_none.
  - rewrite final_lines, blockCount_unlines.
    + rewrite !count_occ_app, !count_block. unfold text in *.
      rewrite (count_host_none a rest3 Ha), text_eqb_refl.
      replace (text_eqb b a) with false
        by (symmetry; apply text_eqb_neq; intros E; now apply a_b).
      cbn [count_occ].
      destruct (list_eq_dec ascii_dec [] (hostLine a)) as [E|_];
        [discriminate E | reflexivity].
    + repeat (apply Forall_app; split); trivial.
      constructor; [reflexivity | constructor].
  - rewrite final_lines, blockCount_unlines.
    + rewrite !count_occ_app, !count_block. unfold text in *.
      rewrite (count_host_none b rest3 Hb), text_eqb_refl.
      replace (text_eqb a b) with false
        by (symmetry; now apply text_eqb_neq).
      cbn [count_occ].
      destruct (list_eq_dec ascii_dec [] (hostLine b)) as [E|_];
        [discriminate E | reflexivity].
    + repeat (apply Forall_app; split); trivial.
      constructor; [reflexivity | constructor].
  - intros Hca Hcb. subst prior.
    assert (E1 : rest1 = restLines (trim (contentOf file))).
    { now rewrite removeHostBlocks_id. }
    assert (Hin : forall x, blockCount x (trim (contentOf file)) = 0 ->
                            ~ In (hostLine x) rest1).
    { intros x Hx. rewrite E1. unfold blockCount in Hx.
      rewrite lines_linesOf in Hx.
      apply (count_occ_not_In (list_eq_dec ascii_dec)) in Hx.
      unfold restLines. destruct (trim (contentOf file)); [intros []|].
      intros H. apply in_app_or in H as [H | [H | []]];
        [now apply Hx | discriminate H]. }
    assert (E2 : rest2 = rest1) by now apply rmLines_id, Hin.
    assert (E3 : rest3 = rest1).
    { rewrite E2. now apply rmLines_id, Hin. }
    rewrite E3, E1. apply unlines_restLines.
Qed.

End ThreeWrites.


(** The pattern at work: a block runs over empty lines up to the next
    line that starts with [Host ]; a last line [Host a] without line feed
    opens no block; a carriage return ends the block. *)
Example removeHostBlocks_examples :
  removeHostBlocks (txt "a")
    (unlines [txt "x"; txt "Host a"; txt "  k v"; []; txt "  k2 v2";
              txt "Host b"; txt "  y"])
  = unlines [txt "x"; txt "Host b"; txt "  y"]
  /\ removeHostBlocks (txt "a") (unlines [txt "x"] ++ txt "Host a")
     = unlines [txt "x"] ++ txt "Host a"
  /\ removeHostBlocks (txt "a")
       (unlines [txt "Host a"; txt "  k v" ++ [CR]; txt "  k2 v2"])
     = CR :: LF :: unlines [txt "  k2 v2"]
  /\ removeHostBlocks (txt "a")
       (unlines [txt "Host ab"; txt "  k v"; txt "Host a"; txt "Host a"])
     = unlines [txt "Host ab"; txt "  k v"].
Proof. vm_compute. repeat split. Qed.

(** A machine with one key pair in [/home/u/.ssh]. *)
Definition oneKeyMachine : Keys.Machine :=
  Keys.mkMachine (txt "/home/u/.ssh") (fun _ => true)
    (fun _ => [txt "config"; txt "id_ed25519"; txt "id_ed25519.pub"])
    (fun _ => Some (txt "ssh-ed25519 AAAAC3Nza user@host"))
    (fun _ => mkProc 0 (txt "256 SHA256:q1w2e3 user@host (ED25519)") [])
    (fun _ => mkProc 0 [] [])
    (mkProc 1 [] []).

Definition aliasA : text := txt "haven-a1b2c3".
Definition aliasB : text := txt "haven-d4e5f6".

(** The three writes of the claim: [aliasA], [aliasB], [aliasA] again
    with a new port. *)
Definition threeWrites (file : option text) : option text :=
  writeHostConfig oneKeyMachine aliasA (txt "ssh-a.example.com") 2222 (txt "abc")
    (writeHostConfig oneKeyMachine aliasB (txt "ssh-b.example.com") 22 (txt "abc")
       (writeHostConfig oneKeyMachine aliasA (txt "ssh-a.example.com") 22
          (txt "abc") file)).

Definition textOfLines (ls : list string) : text :=
  unlines (map txt ls).

(** A prior configuration with a block of the operator, stale blocks of
    both aliases and a comment. *)
Definition priorConfig : text :=
  textOfLines
    [ "# work machines"; "Host work"; "  HostName work.example.com";
      "  User me"; EmptyString;
      "Host haven-a1b2c3"; "  HostName old.example.com"; EmptyString;
      "Host haven-d4e5f6"; "  HostName older.example.com";
      "Host *"; "  ServerAliveInterval 60" ]%string.

(** A prior configuration whose only line is indented. *)
Definition indentedConfig : text := textOfLines ["  Compression yes"]%string.

Lemma writeHostConfig_sequence_witness :
  (exists kept,
      contentOf (threeWrites (Some priorConfig))
      = kept
        ++ generateHostConfig (Keys.getAllKeyPaths oneKeyMachine None) aliasB
             (txt "ssh-b.example.com") 22 (txt "abc")
        ++ [LF]
        ++ generateHostConfig (Keys.getAllKeyPaths oneKeyMachine None) aliasA
             (txt "ssh-a.example.com") 2222 (txt "abc")
      /\ blockCount aliasA (contentOf (threeWrites (Some priorConfig))) = 1
      /\ blockCount aliasB (contentOf (threeWrites (Some priorConfig))) = 1)
  /\ contentOf (threeWrites (Some indentedConfig))
     = txt "Compression yes" ++ [LF; LF]
       ++ generateHostConfig (Keys.getAllKeyPaths oneKeyMachine None) aliasB
            (txt "ssh-b.example.com") 22 (txt "abc")
       ++ [LF]
       ++ generateHostConfig (Keys.getAllKeyPaths oneKeyMachine None) aliasA
            (txt "ssh-a.example.com") 2222 (txt "abc").
Proof.
  assert (Ha : aliasOk aliasA = true) by (vm_compute; reflexivity).
  assert (Hb : aliasOk aliasB = true) by (vm_compute; reflexivity).
  assert (Hab : aliasA <> aliasB) by (vm_compute; discriminate).
  assert (Hh1 : noLineTerminator (txt "ssh-a.example.com") = true)
    by (vm_compute; reflexivity).
  assert (Hh2 : noLineTerminator (txt "ssh-b.example.com") = true)
    by (vm_compute; reflexivity).
  assert (Hu : noLineTerminator (txt "abc") = true)
    by (vm_compute; reflexivity).
  assert (Hk : forallb noLineTerminator
                 (Keys.getAllKeyPaths oneKeyMachine None) = true)
    by (vm_compute; reflexivity).
  split.
  - assert (Hf : noCarriageReturn (contentOf (Some priorConfig)) = true)
      by (vm_compute; reflexivity).
    destruct (@writeHostConfig_sequence oneKeyMachine aliasA aliasB
                (txt "ssh-a.example.com") (txt "abc")
                (txt "ssh-b.example.com") (txt "abc")
                (txt "ssh-a.example.com") (txt "abc")
                22 22 2222 (Some priorConfig)
                Ha Hb Hab Hh1 Hu Hh2 Hu Hh1 Hu Hk Hf)
      as [kept [H1 [_ [_ [H2 [H3 _]]]]]].
    exists kept. split; [exact H1 | split; [exact H2 | exact H3]].
  - assert (Hf : noCarriageReturn (contentOf (Some indentedConfig)) = true)
      by (vm_compute; reflexivity).
    assert (Hca : blockCount aliasA (trim (contentOf (Some indentedConfig)))
                  = 0) by (vm_compute; reflexivity).
    assert (Hcb : blockCount aliasB (trim (contentOf (Some indentedConfig)))
                  = 0) by (vm_compute; reflexivity).
    destruct (@writeHostConfig_sequence oneKeyMachine aliasA aliasB
                (txt "ssh-a.example.com") (txt "abc")
                (txt "ssh-b.example.com") (txt "abc")
                (txt "ssh-a.example.com") (txt "abc")
                22 22 2222 (Some indentedConfig)
                Ha Hb Hab Hh1 Hu Hh2 Hu Hh1 Hu Hk Hf)
      as [kept [H1 [_ [_ [_ [_ [H6 _]]]]]]].
    unfold threeWrites. rewrite H1, (H6 Hca Hcb). vm_compute. reflexivity.
Defined.

(** What is kept of [priorConfig]: the operator's lines, in order. *)
Example threeWrites_prior :
  contentOf (threeWrites (Some priorConfig))
  = textOfLines
      [ "# work machines"; "Host work"; "  HostName work.example.com";
        "  User me"; EmptyString;
        "Host *"; "  ServerAliveInterval 60"; EmptyString ]%string
    ++ generateHostConfig (Keys.getAllKeyPaths oneKeyMachine None) aliasB
         (txt "ssh-b.example.com") 22 (txt "abc")
    ++ [LF]
    ++ generateHostConfig (Keys.getAllKeyPaths oneKeyMachine None) aliasA
         (txt "ssh-a.example.com") 2222 (txt "abc").
Proof. vm_compute. reflexivity. Qed.

(** A prior configuration with a carriage return after a line
    [Host haven-a1b2c3]. *)
Definition carriageConfig : text :=
  txt "  Host haven-a1b2c3" ++ [LF; CR] ++ txt " Host haven-a1b2c3"
  ++ [LF] ++ txt "  HostName stale.example.com" ++ [LF].

(** C2, as stated, fails.  The indented line of [indentedConfig], which
    belongs to no block, is not a line of the file after the three
    writes (it is there without its indentation); and after the three
    writes on [carriageConfig] the file holds two blocks for the alias
    written twice. *)
Lemma writeHostConfig_sequence_counterexample :
  (blockCount aliasA indentedConfig = 0
   /\ blockCount aliasB indentedConfig = 0
   /\ count_occ (list_eq_dec ascii_dec) (lines indentedConfig)
        (txt "  Compression yes") = 1
   /\ count_occ (list_eq_dec ascii_dec)
        (lines (contentOf (threeWrites (Some indentedConfig))))
        (txt "  Compression yes") = 0)
  /\ blockCount aliasA (contentOf (threeWrites (Some carriageConfig))) = 2.
Proof. vm_compute. repeat split. Qed.

(** C3, the defect.  After a first connect on a machine without
    configuration file the file holds the block of the alias and nothing
    else.  On that file [removeHostConfig] finds nothing left once the
    block is taken out, writes nothing, and the block stays in the file. *)
Theorem removeHostConfig_sole_block :
  let file :=
    writeHostConfig oneKeyMachine aliasA (txt "ssh-a.example.com") 22
      (txt "abc") None in
  blockCount aliasA (contentOf file) = 1
  /\ removeHostBlocks aliasA (contentOf file) = []
  /\ removeHostConfig aliasA file = file
  /\ blockCount aliasA (contentOf (removeHostConfig aliasA file)) = 1.
Proof. vm_compute. repeat split. Qed.

(** [removeHostConfig] never deletes the file, and writes the trimmed
    rest followed by a line feed when that rest is not empty. *)
Lemma removeHostConfig_result (alias : text) (file : option text) :
  match file with
  | None => removeHostConfig alias file = None
  | Some c =>
      match trim (removeHostBlocks alias c) with
      | [] => removeHostConfig alias file = Some c
      | (_ :: _) as rest => removeHostConfig alias file = Some (rest ++ [LF])
      end
  end.
Proof.
  destruct file as [c|]; [|reflexivity]. unfold removeHostConfig.
  now destruct (trim (removeHostBlocks alias c)).
Qed.

(** On a file of lines, the rest is what the removal of the blocks line
    by line leaves. *)
Lemma removeHostConfig_lines (alias : text) (ls : list text) :
  aliasOk alias = true ->
  Forall (fun l => noLineTerminator l = true) ls ->
  trim (unlines (rmLines alias false ls)) <> [] ->
  removeHostConfig alias (Some (unlines ls))
  = Some (trim (unlines (rmLines alias false ls)) ++ [LF]).
Proof.
  intros Ha Hls Hne. unfold removeHostConfig.
  rewrite removeHostBlocks_unlines by assumption.
  destruct (trim (unlines (rmLines alias false ls))); [now elim Hne|].
  reflexivity.
Qed.

End SshConfigFacts.

(** * Further properties *)

(** ** Host blocks: writing, re-writing and removing *)

Module HostConfigFacts.

Import Js SshConfig SshLines SshLinesFacts TrimFacts LinesFacts BlockFacts
       WriteFacts SequenceFacts.

Lemma writeHostConfig_eq (m : Keys.Machine) (alias host : text) (port : N)
      (user : text) (file : option text) :
  writeHostConfig m alias host port user file
  = Some (contentOf (writeHostConfig m alias host port user file)).
Proof. reflexivity. Qed.

Lemma trim_restLines (u : text) :
  visibleStart u -> visibleEnd u -> trim (unlines (restLines u)) = u.
Proof.
  intros H1 H2. rewrite unlines_restLines. destruct u as [|c u]; [reflexivity|].
  unfold trim. rewrite trimStart_visible by exact H1.
  change ((c :: u) ++ [LF; LF]) with ((c :: u) ++ [LF] ++ [LF]).
  rewrite app_assoc, !trimEnd_snoc by reflexivity.
  now apply trimEnd_visible.
Qed.

Lemma rmLines_own_block_end (keys : list text) (x : text) (st : bool)
      (host : text) (port : N) (user : text) :
  rmLines x st (blockLines keys x host port user) = [].
Proof.
  unfold blockLines. cbn [rmLines]. rewrite text_eqb_refl.
  rewrite <- (app_nil_r (bodyInit keys host port user ++ [lastLine])).
  rewrite rmLines_indented_in by apply bodyInit_indented. reflexivity.
Qed.

Lemma no_host_restLines (x u : text) :
  blockCount x u = 0 -> ~ In (hostLine x) (restLines u).
Proof.
  intros Hc. unfold blockCount in Hc. rewrite lines_linesOf in Hc.
  apply (count_occ_not_In (list_eq_dec ascii_dec)) in Hc.
  unfold restLines. destruct u; [intros []|].
  intros H. apply in_app_or in H as [H | [H | []]];
    [now apply Hc | discriminate H].
Qed.

Lemma written_trimmed (m : Keys.Machine) (alias host : text) (port : N)
      (user : text) (file : option text) :
  let c := contentOf (writeHostConfig m alias host port user file) in
  c = trim c ++ [LF] /\ trim c <> [].
Proof.
  cbv zeta.
  pose proof (writeHostConfig_content m alias host port user file) as Hc.
  pose proof (trim_visibleStart
                (removeHostBlocks alias (contentOf file))) as Hv1.
  pose proof (trim_visibleEnd
                (removeHostBlocks alias (contentOf file))) as Hv2.
  set (keys := Keys.getAllKeyPaths m None) in *.
  pose proof (@blockText_nonempty keys alias host port user) as Hne.
  pose proof (@blockText_visibleStart keys alias host port user) as Hb1.
  pose proof (@blockText_visibleEnd keys alias host port user) as Hb2.
  rewrite Hc, generateHostConfig_text.
  destruct (trim (removeHostBlocks alias (contentOf file))) as [|d u] eqn:E.
  - rewrite trim_line_feed by assumption. now split.
  - rewrite !app_assoc. rewrite trim_line_feed.
    + split; [reflexivity|]. intros H. apply app_eq_nil in H as [_ H].
      now elim Hne.
    + intros H. apply app_eq_nil in H as [_ H]. now elim Hne.
    + exact Hv1.
    + now apply visibleEnd_app.
Qed.

(** For an alias made of letters, digits, [-] and [_] (one the pattern
    reads as a literal), the content [writeHostConfig] leaves is never
    empty, is its own trimmed form followed by one line feed, and ends
    with the block just rendered, whatever the file held and whether it
    existed. *)
Theorem writeHostConfig_normal_form (m : Keys.Machine) (alias host : text)
        (port : N) (user : text) (file : option text) :
  aliasOk alias = true ->
  exists c before,
    writeHostConfig m alias host port user file = Some c
    /\ c = trim c ++ [LF]
    /\ c = before
           ++ generateHostConfig (Keys.getAllKeyPaths m None) alias host
                port user
    /\ (before = [] \/ exists u, before = trim u ++ [LF; LF] /\ trim u <> []).
Proof.
  intros _.
  exists (contentOf (writeHostConfig m alias host port user file)).
  pose proof (writeHostConfig_content m alias host port user file) as Hc.
  pose proof (trim_visibleStart
                (removeHostBlocks alias (contentOf file))) as Hv1.
  pose proof (trim_visibleEnd
                (removeHostBlocks alias (contentOf file))) as Hv2.
  set (keys := Keys.getAllKeyPaths m None) in *.
  pose proof (@blockText_nonempty keys alias host port user) as Hne.
  pose proof (@blockText_visibleStart keys alias host port user) as Hb1.
  pose proof (@blockText_visibleEnd keys alias host port user) as Hb2.
  destruct (trim (removeHostBlocks alias (contentOf file))) as [|d u] eqn:E.
  - exists []. split; [reflexivity|]. rewrite Hc.
    rewrite generateHostConfig_text.
    split; [|split; [reflexivity | now left]].
    now rewrite trim_line_feed.
  - exists ((d :: u) ++ [LF; LF]). split; [reflexivity|]. rewrite Hc.
    rewrite generateHostConfig_text. split; [|split].
    + rewrite !app_assoc. rewrite trim_line_feed; [reflexivity| | |].
      * intros H. apply app_eq_nil in H as [_ H]. now elim Hne.
      * exact Hv1.
      * now apply visibleEnd_app.
    + now rewrite <- app_assoc.
    + right. exists (removeHostBlocks alias (contentOf file)).
      rewrite E. split; [reflexivity | discriminate].
Qed.

Section OneAlias.

Variable m : Keys.Machine.
Variable a : text.
Variables host1 user1 : text.
Variable port1 : N.
Variable file : option text.

Local Abbreviation keys := (Keys.getAllKeyPaths m None).
Local Abbreviation rest := (trim (removeHostBlocks a (contentOf file))).

Hypothesis a_ok : aliasOk a = true.
Hypothesis host1_ok : noLineTerminator host1 = true.
Hypothesis user1_ok : noLineTerminator user1 = true.
Hypothesis keys_ok : forallb noLineTerminator keys = true.
Hypothesis file_ok : noCarriageReturn (contentOf file) = true.
Hypothesis rest_clean : blockCount a rest = 0.

(** What the removal finds in the file a write left. *)
Lemma removeHostBlocks_written :
  removeHostBlocks a (contentOf (writeHostConfig m a host1 port1 user1 file))
  = unlines (restLines rest).
Proof.
  rewrite (write_first m a host1 port1 user1 file).
  destruct (@restLines_ok rest) as [Hr _].
  { apply forallb_trim. now apply removeHostBlocks_notCR. }
  { apply trim_visibleStart. }
  rewrite removeHostBlocks_unlines; trivial.
  - rewrite rmLines_app, rmLines_own_block_end, app_nil_r.
    now rewrite rmLines_id by now apply no_host_restLines.
  - apply Forall_app. split; [exact Hr | now apply blockLines_noLT].
Qed.

Lemma trim_removeHostBlocks_written :
  trim (removeHostBlocks a
          (contentOf (writeHostConfig m a host1 port1 user1 file)))
  = rest.
Proof.
  rewrite removeHostBlocks_written.
  apply trim_restLines; [apply trim_visibleStart | apply trim_visibleEnd].
Qed.

(** The last write wins: writing the block of an alias over a file that
    an earlier write of the same alias left gives the file the later
    write alone would have given. *)
Theorem writeHostConfig_overwrites (host2 user2 : text) (port2 : N) :
  writeHostConfig m a host2 port2 user2
    (writeHostConfig m a host1 port1 user1 file)
  = writeHostConfig m a host2 port2 user2 file.
Proof.
  rewrite (writeHostConfig_eq m a host2 port2 user2
             (writeHostConfig m a host1 port1 user1 file)).
  rewrite (writeHostConfig_eq m a host2 port2 user2 file). f_equal.
  rewrite (writeHostConfig_content m a host2 port2 user2
             (writeHostConfig m a host1 port1 user1 file)).
  rewrite (writeHostConfig_content m a host2 port2 user2 file).
  now rewrite trim_removeHostBlocks_written.
Qed.

(** Writing a block and removing it again gives back the rest of the
    file, trimmed and followed by one line feed; but when the rest is
    empty the removal writes nothing and the block stays. *)
Theorem removeHostConfig_after_write :
  removeHostConfig a (writeHostConfig m a host1 port1 user1 file)
  = match rest with
    | [] => writeHostConfig m a host1 port1 user1 file
    | _ :: _ => Some (rest ++ [LF])
    end.
Proof.
  rewrite (writeHostConfig_eq m a host1 port1 user1 file) at 1.
  unfold removeHostConfig. rewrite trim_removeHostBlocks_written.
  now destruct rest.
Qed.

End OneAlias.

(** For an alias made of letters, digits, [-] and [_] and a file
    without carriage return whose trimmed text has no line
    [Host <alias>], the removal only trims the file and ends it with one
    line feed; an all-blank file is left as it is. *)
Theorem removeHostConfig_absent (x c : text) :
  aliasOk x = true -> noCarriageReturn c = true ->
  blockCount x (trim c) = 0 ->
  removeHostConfig x (Some c)
  = Some (match trim c with [] => c | _ :: _ => trim c ++ [LF] end).
Proof.
  intros Hx Hc H0. unfold removeHostConfig.
  rewrite removeHostBlocks_id by assumption. now destruct (trim c).
Qed.

Section TwoAliases.

Variable m : Keys.Machine.
Variables a b : text.
Variables hostA userA hostB userB : text.
Variables portA portB : N.
Variable file : option text.

Local Abbreviation keys := (Keys.getAllKeyPaths m None).
Local Abbreviation prior := (trim (contentOf file)).

Hypothesis a_ok : aliasOk a = true.
Hypothesis b_ok : aliasOk b = true.
Hypothesis a_b : a <> b.
Hypothesis hostA_ok : noLineTerminator hostA = true.
Hypothesis userA_ok : noLineTerminator userA = true.
Hypothesis hostB_ok : noLineTerminator hostB = true.
Hypothesis userB_ok : noLineTerminator userB = true.
Hypothesis keys_ok : forallb noLineTerminator keys = true.
Hypothesis file_ok : noCarriageReturn (contentOf file) = true.
Hypothesis no_a : blockCount a prior = 0.
Hypothesis no_b : blockCount b prior = 0.

Lemma prior_ok :
  Forall (fun l => noLineTerminator l = true) (restLines prior)
  /\ headOK (restLines prior).
Proof.
  apply restLines_ok; [|apply trim_visibleStart].
  apply forallb_trim. exact file_ok.
Qed.

Lemma written_a :
  contentOf (writeHostConfig m a hostA portA userA file)
  = unlines (restLines prior ++ blockLines keys a hostA portA userA).
Proof.
  rewrite write_first. now rewrite removeHostBlocks_id.
Qed.

Lemma written_b :
  contentOf (writeHostConfig m b hostB portB userB file)
  = unlines (restLines prior ++ blockLines keys b hostB portB userB).
Proof.
  rewrite write_first. now rewrite removeHostBlocks_id.
Qed.

Lemma written_a_b :
  contentOf (writeHostConfig m b hostB portB userB
               (writeHostConfig m a hostA portA userA file))
  = unlines ((restLines prior ++ blockLines keys a hostA portA userA)
             ++ [[]] ++ blockLines keys b hostB portB userB).
Proof.
  destruct prior_ok as [Hn Hh].
  rewrite (writeHostConfig_eq m a hostA portA userA file), written_a.
  assert (Hrm : rmLines b false
                  (restLines prior ++ blockLines keys a hostA portA userA)
                = restLines prior ++ blockLines keys a hostA portA userA).
  { apply rmLines_id. intros H. apply in_app_or in H as [H | H].
    - now apply (no_host_restLines _ _ no_b).
    - apply (count_occ_In (list_eq_dec ascii_dec)) in H.
      rewrite count_block in H.
      destruct (text_eqb a b) eqn:E; [|lia].
      apply text_eqb_eq in E. now apply a_b. }
  rewrite (@write_on_lines m b hostB portB userB
             (restLines prior ++ blockLines keys a hostA portA userA)
             (restLines prior) keys a hostA portA userA);
    trivial.
  - now rewrite Hrm.
  - apply Forall_app. split; [exact Hn | now apply blockLines_noLT].
Qed.

(** With two aliases written one after the other into a file that had a
    block of neither, removing the first leaves the file that writing
    the second alone would have given. *)
Theorem removeHostConfig_undoes_write :
  removeHostConfig a
    (writeHostConfig m b hostB portB userB
       (writeHostConfig m a hostA portA userA file))
  = writeHostConfig m b hostB portB userB file.
Proof.
  destruct prior_ok as [Hn Hh].
  destruct (written_trimmed m b hostB portB userB file) as [Ht Hne].
  cbv zeta in Ht, Hne.
  assert (Hrm : rmLines a false
                  ((restLines prior ++ blockLines keys a hostA portA userA)
                   ++ [[]] ++ blockLines keys b hostB portB userB)
                = restLines prior ++ blockLines keys b hostB portB userB).
  { rewrite <- app_assoc, rmLines_app.
    rewrite rmLines_id by apply (no_host_restLines _ _ no_a).
    f_equal. cbn [app].
    rewrite (rmLines_own_block m a).
    rewrite <- (app_nil_r (blockLines keys b hostB portB userB)) at 1.
    rewrite rmLines_other_block by (intros E; now apply a_b).
    cbn [rmLines]. now rewrite app_nil_r. }
  rewrite (writeHostConfig_eq m b hostB portB userB
             (writeHostConfig m a hostA portA userA file)), written_a_b.
  unfold removeHostConfig. rewrite removeHostBlocks_unlines; trivial.
  - rewrite Hrm, <- written_b.
    destruct (trim (contentOf (writeHostConfig m b hostB portB userB file)))
      as [|d r] eqn:E; [now elim Hne|].
    now rewrite (writeHostConfig_eq m b hostB portB userB file), Ht.
  - apply Forall_app. split.
    + apply Forall_app. split; [exact Hn | now apply blockLines_noLT].
    + constructor; [reflexivity | now apply blockLines_noLT].
Qed.

End TwoAliases.

(** *** What a removal takes *)

Lemma endsInBlock_none (x : text) (ls : list text) :
  ~ In (hostLine x) ls -> endsInBlock x false ls = false.
Proof.
  induction ls as [|l ls IH]; [reflexivity|]. intros H.
  cbn [endsInBlock andb].
  destruct (text_eqb l (hostLine x)) eqn:E.
  - apply text_eqb_eq in E. elim H. now left.
  - apply IH. intros Hin. apply H. now right.
Qed.

Lemma rmLines_body (x : text) (body rest : list text) :
  Forall (fun l => startsWith l (txt "Host ") = false) body ->
  rmLines x true (body ++ rest) = rmLines x true rest.
Proof.
  induction 1 as [|l body Hl _ IH]; [reflexivity|].
  cbn [app rmLines]. rewrite Hl. cbn [negb andb].
  destruct (text_eqb l (hostLine x)) eqn:E; [exact IH|exact IH].
Qed.

(** For an alias made of letters, digits, [-] and [_], and lines
    without line terminators, the pattern takes a block as a whole: the
    line [Host <alias>] and every line after it, blank ones included, up
    to the next line that starts with [Host ] or the end of the text;
    the lines before and after, which hold no line [Host <alias>], stay
    as they are. *)
Theorem removeHostBlocks_block (x : text) (pre body rest : list text) :
  aliasOk x = true ->
  Forall (fun l => noLineTerminator l = true)
         (pre ++ hostLine x :: body ++ rest) ->
  ~ In (hostLine x) pre -> ~ In (hostLine x) rest ->
  Forall (fun l => startsWith l (txt "Host ") = false) body ->
  match rest with
  | [] => True
  | l :: _ => startsWith l (txt "Host ") = true
  end ->
  removeHostBlocks x (unlines (pre ++ hostLine x :: body ++ rest))
  = unlines (pre ++ rest).
Proof.
  intros Hx Hn Hpre Hrest Hbody Hnext.
  rewrite removeHostBlocks_unlines by assumption. f_equal.
  rewrite rmLines_app, rmLines_id, endsInBlock_none by assumption.
  f_equal. cbn [rmLines]. rewrite text_eqb_refl.
  rewrite rmLines_body by exact Hbody.
  destruct rest as [|l rest]; [reflexivity|].
  cbn [rmLines]. rewrite Hnext. cbn [negb andb].
  destruct (text_eqb l (hostLine x)) eqn:E.
  - apply text_eqb_eq in E. elim Hrest. now left.
  - f_equal. apply rmLines_id. intros Hin. apply Hrest. now right.
Qed.

(** For an alias made of letters, digits, [-] and [_] and a file, not
    blank and without carriage return, whose trimmed text has no line
    [Host <alias>], the write only appends: the file keeps its text,
    without the white space around it, followed by an empty line and
    the new block. *)
Theorem writeHostConfig_appends (m : Keys.Machine) (alias host user : text)
        (port : N) (c : text) :
  aliasOk alias = true -> noCarriageReturn c = true ->
  blockCount alias (trim c) = 0 -> trim c <> [] ->
  writeHostConfig m alias host port user (Some c)
  = Some (trim c ++ [LF; LF]
          ++ generateHostConfig (Keys.getAllKeyPaths m None) alias host
               port user).
Proof.
  intros Ha Hc H0 Hne.
  rewrite (writeHostConfig_eq m alias host port user (Some c)).
  rewrite writeHostConfig_content. cbn [contentOf].
  rewrite removeHostBlocks_id by assumption.
  destruct (trim c); [now elim Hne | reflexivity].
Qed.

Section Rendered.

Variable m : Keys.Machine.
Variables alias host user : text.
Variable port : N.

Local Abbreviation keys := (Keys.getAllKeyPaths m None).

Hypothesis alias_ok : aliasOk alias = true.
Hypothesis host_ok : noLineTerminator host = true.
Hypothesis user_ok : noLineTerminator user = true.
Hypothesis keys_ok : forallb noLineTerminator keys = true.

Lemma generateHostConfig_linesOf :
  lines (generateHostConfig keys alias host port user)
  = blockLines keys alias host port user ++ [[]].
Proof.
  rewrite generateHostConfig_lines, lines_linesOf.
  rewrite <- (app_nil_r (unlines _)).
  apply linesOf_unlines; [|reflexivity].
  eapply Forall_impl; [|now apply blockLines_noLT].
  intros l. apply noLT_noLF.
Qed.

Lemma filter_identity (ps : list text) (rest : list text) :
  filter (fun l => startsWith l (txt "  IdentityFile "))
         (map (fun p => txt "  IdentityFile " ++ p) ps ++ rest)
  = map (fun p => txt "  IdentityFile " ++ p) ps
    ++ filter (fun l => startsWith l (txt "  IdentityFile ")) rest.
Proof.
  induction ps as [|p ps IH]; [reflexivity|].
  cbn [map app filter]. rewrite JsFacts.startsWith_same.
  now rewrite IH.
Qed.

Lemma identity_lines :
  filter (fun l => startsWith l (txt "  IdentityFile "))
         (lines (generateHostConfig keys alias host port user))
  = map (fun p => txt "  IdentityFile " ++ p) keys.
Proof.
  rewrite generateHostConfig_linesOf.
  unfold blockLines, bodyInit. cbn [app]. rewrite <- !app_assoc.
  cbn [app].
  match goal with
  | |- filter ?f (?h :: ?a :: ?b :: ?c :: ?r) = _ =>
      change (filter f ([h; a; b; c] ++ r)
              = map (fun p => txt "  IdentityFile " ++ p) keys)
  end.
  rewrite filter_app, filter_identity.
  match goal with
  | |- ?x ++ _ ++ ?y = _ =>
      change x with (@nil text); change y with (@nil text)
  end.
  cbn [app]. apply app_nil_r.
Qed.

(** For an alias made of letters, digits, [-] and [_], and a host, a
    user and key paths without line terminators, the block rendered has
    one line per setting and one [IdentityFile] line per key pair found,
    in the order found; it opens a block of its own alias and of no
    other: under these conditions no field adds a line. *)
Theorem generateHostConfig_block :
  length (lines (generateHostConfig keys alias host port user))
  = 10 + length keys
  /\ filter (fun l => startsWith l (txt "  IdentityFile "))
            (lines (generateHostConfig keys alias host port user))
     = map (fun p => txt "  IdentityFile " ++ p) keys
  /\ filter (fun l => startsWith l (txt "Host "))
            (lines (generateHostConfig keys alias host port user))
     = [hostLine alias]
  /\ forall x, blockCount x (generateHostConfig keys alias host port user)
               = if text_eqb alias x then 1 else 0.
Proof.
  split; [|split; [exact identity_lines|]].
  { rewrite generateHostConfig_linesOf.
    unfold blockLines, bodyInit. cbn [length app].
    rewrite !length_app, length_map. cbn [length]. unfold text in *. lia. }
  rewrite generateHostConfig_linesOf. split.
  - unfold blockLines. cbn [app filter]. rewrite hostLine_starts.
    f_equal. rewrite <- app_assoc.
    assert (Hb : forall ls : list text, Forall indented ls ->
               filter (fun l => startsWith l (txt "Host ")) ls = []).
    { induction 1 as [|l ls Hl _ IH]; [reflexivity|]. cbn [filter].
      destruct (indented_not_host alias Hl) as [_ ->]. exact IH. }
    rewrite app_assoc, filter_app, Hb by apply bodyInit_indented.
    reflexivity.
  - intros x. unfold blockCount. rewrite generateHostConfig_linesOf.
    unfold text in *. rewrite count_occ_app, (count_block m).
    cbn. destruct (list_eq_dec ascii_dec [] (hostLine x)); [discriminate|].
    lia.
Qed.

End Rendered.

(** A machine with two key pairs in [/home/dev/.ssh]. *)
Definition twoKeyMachine : Keys.Machine :=
  Keys.mkMachine (txt "/home/dev/.ssh") (fun _ => true)
    (fun _ => [txt "config"; txt "haven_ed25519"; txt "haven_ed25519.pub";
               txt "id_rsa"; txt "id_rsa.pub"; txt "known_hosts"])
    (fun _ => Some (txt "ssh-ed25519 AAAAC3NzaC1 haven-cli"))
    (fun _ => mkProc 0 (txt "256 SHA256:Zm9vYmFy haven-cli (ED25519)") [])
    (fun _ => mkProc 0 [] [])
    (mkProc 1 [] []).

Definition workspaceAlias : text := txt "haven-ws1-example-22".
Definition secondAlias : text := txt "haven-ws2-example-2222".

(** A configuration of the operator with a stale block of
    [workspaceAlias] between two blocks of their own. *)
Definition staleConfig : text :=
  unlines (map txt
    [ "Host bastion"; "  HostName bastion.example.com"; "  User ops";
      EmptyString;
      "Host haven-ws1-example-22"; "  HostName gone.example.com";
      "  Port 2200";
      "Host *"; "  ServerAliveInterval 30" ]%string).

(** A configuration with no block of either alias. *)
Definition ownConfig : text :=
  unlines (map txt
    [ "Host bastion"; "  HostName bastion.example.com"; "  User ops" ]%string).

Lemma writeHostConfig_normal_form_witness :
  (exists c before,
      writeHostConfig twoKeyMachine workspaceAlias
        (txt "ssh-ws1.example.com") 22 (txt "abc") (Some staleConfig)
      = Some c
      /\ c = trim c ++ [LF]
      /\ c = before
             ++ generateHostConfig (Keys.getAllKeyPaths twoKeyMachine None)
                  workspaceAlias (txt "ssh-ws1.example.com") 22 (txt "abc")
      /\ (before = []
          \/ exists u, before = trim u ++ [LF; LF] /\ trim u <> []))
  /\ exists c before,
       writeHostConfig twoKeyMachine workspaceAlias
         (txt "ssh-ws1.example.com") 22 (txt "abc") None
       = Some c
       /\ c = trim c ++ [LF]
       /\ c = before
              ++ generateHostConfig (Keys.getAllKeyPaths twoKeyMachine None)
                   workspaceAlias (txt "ssh-ws1.example.com") 22 (txt "abc")
       /\ (before = []
           \/ exists u, before = trim u ++ [LF; LF] /\ trim u <> []).
Proof.
  assert (Ha : aliasOk workspaceAlias = true) by (vm_compute; reflexivity).
  split.
  - exact (@writeHostConfig_normal_form twoKeyMachine workspaceAlias
             (txt "ssh-ws1.example.com") 22 (txt "abc") (Some staleConfig)
             Ha).
  - exact (@writeHostConfig_normal_form twoKeyMachine workspaceAlias
             (txt "ssh-ws1.example.com") 22 (txt "abc") None Ha).
Defined.

Lemma writeHostConfig_overwrites_witness :
  writeHostConfig twoKeyMachine workspaceAlias (txt "ws1.example.com") 2222
    (txt "abc")
    (writeHostConfig twoKeyMachine workspaceAlias (txt "ssh-ws1.example.com")
       22 (txt "root") (Some staleConfig))
  = writeHostConfig twoKeyMachine workspaceAlias (txt "ws1.example.com") 2222
      (txt "abc") (Some staleConfig).
Proof.
  assert (Ha : aliasOk workspaceAlias = true) by (vm_compute; reflexivity).
  assert (Hh : noLineTerminator (txt "ssh-ws1.example.com") = true)
    by (vm_compute; reflexivity).
  assert (Hu : noLineTerminator (txt "root") = true)
    by (vm_compute; reflexivity).
  assert (Hk : forallb noLineTerminator
                 (Keys.getAllKeyPaths twoKeyMachine None) = true)
    by (vm_compute; reflexivity).
  assert (Hf : noCarriageReturn (contentOf (Some staleConfig)) = true)
    by (vm_compute; reflexivity).
  assert (Hc : blockCount workspaceAlias
                 (trim (removeHostBlocks workspaceAlias
                          (contentOf (Some staleConfig)))) = 0)
    by (vm_compute; reflexivity).
  exact (@writeHostConfig_overwrites twoKeyMachine workspaceAlias
           (txt "ssh-ws1.example.com") (txt "root") 22 (Some staleConfig)
           Ha Hh Hu Hk Hf Hc (txt "ws1.example.com") (txt "abc") 2222).
Defined.

(** A configuration whose first line is an indented [Host] line of the
    alias: the pattern does not match it, the trim turns it into a
    block. *)
Definition shiftedConfig : text :=
  unlines (map txt
    [ "  Host haven-ws1-example-22"; "  HostName gone.example.com" ]%string).

(** Without the condition on the rest of the file the second write
    does not give what it would have given alone. *)
Example writeHostConfig_overwrites_shifted :
  blockCount workspaceAlias
    (trim (removeHostBlocks workspaceAlias shiftedConfig)) = 1
  /\ text_eqb
       (contentOf
          (writeHostConfig twoKeyMachine workspaceAlias
             (txt "ws1.example.com") 2222 (txt "abc")
             (writeHostConfig twoKeyMachine workspaceAlias
                (txt "ssh-ws1.example.com") 22 (txt "root")
                (Some shiftedConfig))))
       (contentOf
          (writeHostConfig twoKeyMachine workspaceAlias
             (txt "ws1.example.com") 2222 (txt "abc")
             (Some shiftedConfig)))
     = false.
Proof. split; vm_compute; reflexivity. Qed.

Lemma removeHostConfig_after_write_witness :
  removeHostConfig workspaceAlias
    (writeHostConfig twoKeyMachine workspaceAlias (txt "ssh-ws1.example.com")
       22 (txt "abc") (Some staleConfig))
  = Some (unlines (map txt
      [ "Host bastion"; "  HostName bastion.example.com"; "  User ops";
        EmptyString; "Host *"; "  ServerAliveInterval 30" ]%string))
  /\ removeHostConfig workspaceAlias
       (writeHostConfig twoKeyMachine workspaceAlias
          (txt "ssh-ws1.example.com") 22 (txt "abc") None)
     = writeHostConfig twoKeyMachine workspaceAlias
         (txt "ssh-ws1.example.com") 22 (txt "abc") None.
Proof.
  assert (Ha : aliasOk workspaceAlias = true) by (vm_compute; reflexivity).
  assert (Hh : noLineTerminator (txt "ssh-ws1.example.com") = true)
    by (vm_compute; reflexivity).
  assert (Hu : noLineTerminator (txt "abc") = true)
    by (vm_compute; reflexivity).
  assert (Hk : forallb noLineTerminator
                 (Keys.getAllKeyPaths twoKeyMachine None) = true)
    by (vm_compute; reflexivity).
  split.
  - assert (Hf : noCarriageReturn (contentOf (Some staleConfig)) = true)
      by (vm_compute; reflexivity).
    assert (Hc : blockCount workspaceAlias
                   (trim (removeHostBlocks workspaceAlias
                            (contentOf (Some staleConfig)))) = 0)
      by (vm_compute; reflexivity).
    exact (@removeHostConfig_after_write twoKeyMachine workspaceAlias
             (txt "ssh-ws1.example.com") (txt "abc") 22 (Some staleConfig)
             Ha Hh Hu Hk Hf Hc).
  - assert (Hf : noCarriageReturn (contentOf None) = true)
      by (vm_compute; reflexivity).
    assert (Hc : blockCount workspaceAlias
                   (trim (removeHostBlocks workspaceAlias (contentOf None)))
                 = 0)
      by (vm_compute; reflexivity).
    exact (@removeHostConfig_after_write twoKeyMachine workspaceAlias
             (txt "ssh-ws1.example.com") (txt "abc") 22 None
             Ha Hh Hu Hk Hf Hc).
Defined.

Lemma removeHostConfig_absent_witness :
  removeHostConfig workspaceAlias (Some (LF :: ownConfig ++ [LF; LF]))
  = Some ownConfig.
Proof.
  assert (Ha : aliasOk workspaceAlias = true) by (vm_compute; reflexivity).
  assert (Hf : noCarriageReturn (LF :: ownConfig ++ [LF; LF]) = true)
    by (vm_compute; reflexivity).
  assert (Hc : blockCount workspaceAlias
                 (trim (LF :: ownConfig ++ [LF; LF])) = 0)
    by (vm_compute; reflexivity).
  exact (@removeHostConfig_absent workspaceAlias
           (LF :: ownConfig ++ [LF; LF]) Ha Hf Hc).
Defined.

Lemma removeHostConfig_undoes_write_witness :
  removeHostConfig workspaceAlias
    (writeHostConfig twoKeyMachine secondAlias (txt "ssh-ws2.example.com")
       2222 (txt "abc")
       (writeHostConfig twoKeyMachine workspaceAlias
          (txt "ssh-ws1.example.com") 22 (txt "abc") (Some ownConfig)))
  = writeHostConfig twoKeyMachine secondAlias (txt "ssh-ws2.example.com")
      2222 (txt "abc") (Some ownConfig).
Proof.
  assert (Ha : aliasOk workspaceAlias = true) by (vm_compute; reflexivity).
  assert (Hb : aliasOk secondAlias = true) by (vm_compute; reflexivity).
  assert (Hab : workspaceAlias <> secondAlias) by (vm_compute; discriminate).
  assert (Hh1 : noLineTerminator (txt "ssh-ws1.example.com") = true)
    by (vm_compute; reflexivity).
  assert (Hh2 : noLineTerminator (txt "ssh-ws2.example.com") = true)
    by (vm_compute; reflexivity).
  assert (Hu : noLineTerminator (txt "abc") = true)
    by (vm_compute; reflexivity).
  assert (Hk : forallb noLineTerminator
                 (Keys.getAllKeyPaths twoKeyMachine None) = true)
    by (vm_compute; reflexivity).
  assert (Hf : noCarriageReturn (contentOf (Some ownConfig)) = true)
    by (vm_compute; reflexivity).
  assert (Hca : blockCount workspaceAlias (trim (contentOf (Some ownConfig)))
                = 0)
    by (vm_compute; reflexivity).
  assert (Hcb : blockCount secondAlias (trim (contentOf (Some ownConfig)))
                = 0)
    by (vm_compute; reflexivity).
  exact (@removeHostConfig_undoes_write twoKeyMachine workspaceAlias
           secondAlias (txt "ssh-ws1.example.com") (txt "abc")
           (txt "ssh-ws2.example.com") (txt "abc") 22 2222 (Some ownConfig)
           Ha Hb Hab Hh1 Hu Hh2 Hu Hk Hf Hca Hcb).
Defined.

Lemma generateHostConfig_block_witness :
  filter (fun l => startsWith l (txt "  IdentityFile "))
    (lines (generateHostConfig (Keys.getAllKeyPaths twoKeyMachine None)
              workspaceAlias (txt "ssh-ws1.example.com") 22 (txt "abc")))
  = [ txt "  IdentityFile /home/dev/.ssh/haven_ed25519";
      txt "  IdentityFile /home/dev/.ssh/id_rsa" ].
Proof.
  assert (Ha : aliasOk workspaceAlias = true) by (vm_compute; reflexivity).
  assert (Hh : noLineTerminator (txt "ssh-ws1.example.com") = true)
    by (vm_compute; reflexivity).
  assert (Hu : noLineTerminator (txt "abc") = true)
    by (vm_compute; reflexivity).
  assert (Hk : forallb noLineTerminator
                 (Keys.getAllKeyPaths twoKeyMachine None) = true)
    by (vm_compute; reflexivity).
  exact (proj1 (proj2 (@generateHostConfig_block twoKeyMachine workspaceAlias
                         (txt "ssh-ws1.example.com") (txt "abc") 22
                         Ha Hh Hu Hk))).
Defined.

Lemma removeHostBlocks_block_witness :
  removeHostBlocks workspaceAlias staleConfig
  = unlines (map txt
      [ "Host bastion"; "  HostName bastion.example.com"; "  User ops";
        EmptyString; "Host *"; "  ServerAliveInterval 30" ]%string).
Proof.
  assert (Ha : aliasOk workspaceAlias = true) by (vm_compute; reflexivity).
  assert (Hn : Forall (fun l => noLineTerminator l = true)
                 (map txt [ "Host bastion"; "  HostName bastion.example.com";
                            "  User ops"; EmptyString ]%string
                  ++ hostLine workspaceAlias
                  :: map txt [ "  HostName gone.example.com";
                               "  Port 2200" ]%string
                  ++ map txt [ "Host *";
                               "  ServerAliveInterval 30" ]%string))
    by (repeat (apply Forall_cons || apply Forall_nil); reflexivity).
  assert (Hp : ~ In (hostLine workspaceAlias)
                  (map txt [ "Host bastion";
                             "  HostName bastion.example.com";
                             "  User ops"; EmptyString ]%string)).
  { intros H. repeat (destruct H as [H | H]; [discriminate H|]).
    destruct H. }
  assert (Hr : ~ In (hostLine workspaceAlias)
                  (map txt [ "Host *";
                             "  ServerAliveInterval 30" ]%string)).
  { intros H. repeat (destruct H as [H | H]; [discriminate H|]).
    destruct H. }
  assert (Hb : Forall (fun l => startsWith l (txt "Host ") = false)
                 (map txt [ "  HostName gone.example.com";
                            "  Port 2200" ]%string))
    by (repeat (apply Forall_cons || apply Forall_nil); reflexivity).
  exact (@removeHostBlocks_block workspaceAlias _ _ _ Ha Hn Hp Hr Hb
           eq_refl).
Defined.

Lemma writeHostConfig_appends_witness :
  writeHostConfig twoKeyMachine workspaceAlias (txt "ssh-ws1.example.com")
    22 (txt "abc") (Some (LF :: ownConfig ++ [LF]))
  = Some (unlines (map txt
            [ "Host bastion"; "  HostName bastion.example.com";
              "  User ops"; EmptyString ]%string)
          ++ generateHostConfig (Keys.getAllKeyPaths twoKeyMachine None)
               workspaceAlias (txt "ssh-ws1.example.com") 22 (txt "abc")).
Proof.
  assert (Ha : aliasOk workspaceAlias = true) by (vm_compute; reflexivity).
  assert (Hc : noCarriageReturn (LF :: ownConfig ++ [LF]) = true)
    by (vm_compute; reflexivity).
  assert (H0 : blockCount workspaceAlias (trim (LF :: ownConfig ++ [LF]))
               = 0)
    by (vm_compute; reflexivity).
  assert (Hne : trim (LF :: ownConfig ++ [LF]) <> [])
    by (vm_compute; discriminate).
  exact (@writeHostConfig_appends twoKeyMachine workspaceAlias
           (txt "ssh-ws1.example.com") (txt "abc") 22
           (LF :: ownConfig ++ [LF]) Ha Hc H0 Hne).
Defined.

End HostConfigFacts.

(** ** The hash behind the session name *)

Module HashFacts.

Import Js Mutagen.

Local Open Scope Z_scope.

Definition horner (h : Z) (c : ascii) : Z := 31 * h + charCode c.

(** Horner form of [s[0]*31^(n-1) + ... + s[n-1]] over the code units. *)
Definition poly31 (str : text) : Z := fold_left horner str 0.

(** The 32-bit value [simpleHash] renders. *)
Definition hash32 (str : text) : Z := toInt32 (poly31 str).

(** A digit of base 36: [0-9a-z]. *)
Definition isBase36 (c : ascii) : bool :=
  let n := nat_of_ascii c in
  ((48 <=? n) && (n <=? 57))%nat || ((97 <=? n) && (n <=? 122))%nat.

Definition digitValue (c : ascii) : Z :=
  let n := Z.of_nat (nat_of_ascii c) in
  if n <? 58 then n - 48 else n - 87.

(** [parseInt(s, 36)] on a run of digits of base 36. *)
Definition fromString36 (s : text) : Z :=
  fold_left (fun v c => 36 * v + digitValue c) s 0.

Lemma toInt32_wrap (z : Z) : exists k, toInt32 z = z + k * 2 ^ 32.
Proof.
  exists (- ((z + 2 ^ 31) / 2 ^ 32)). unfold toInt32.
  rewrite Z.mod_eq by lia. lia.
Qed.

Lemma toInt32_range (z : Z) : - 2 ^ 31 <= toInt32 z < 2 ^ 31.
Proof.
  unfold toInt32.
  pose proof (Z.mod_pos_bound (z + 2 ^ 31) (2 ^ 32) ltac:(lia)). lia.
Qed.

Lemma toInt32_congr (a b k : Z) : a = b + k * 2 ^ 32 -> toInt32 a = toInt32 b.
Proof.
  intros ->. unfold toInt32.
  replace (b + k * 2 ^ 32 + 2 ^ 31) with (b + 2 ^ 31 + k * 2 ^ 32) by lia.
  now rewrite Z.mod_add by lia.
Qed.

Lemma toInt32_small (z : Z) : - 2 ^ 31 <= z < 2 ^ 31 -> toInt32 z = z.
Proof.
  intros H. unfold toInt32. rewrite Z.mod_small by lia. lia.
Qed.

Lemma toInt32_idem (z : Z) : toInt32 (toInt32 z) = toInt32 z.
Proof. apply toInt32_small, toInt32_range. Qed.

Lemma and32_diag (z : Z) : and32 z z = toInt32 z.
Proof. unfold and32. apply Z.land_diag. Qed.

(** One turn of the loop of [simpleHash]. *)
Definition step (hash : Z) (c : ascii) : Z :=
  and32 (shl32 hash 5 - hash + charCode c) (shl32 hash 5 - hash + charCode c).

(** One turn of the loop is [31 * hash + char], wrapped to 32 bits. *)
Lemma step_wrap (p : Z) (c : ascii) :
  step (toInt32 p) c = toInt32 (horner p c).
Proof.
  unfold step, horner. rewrite and32_diag. unfold shl32.
  rewrite toInt32_idem.
  rewrite Z.shiftl_mul_pow2 by lia.
  destruct (toInt32_wrap p) as [k Hk].
  destruct (toInt32_wrap (toInt32 p * 2 ^ 5)) as [j Hj].
  apply toInt32_congr with (k := 31 * k + j). rewrite Hj, Hk. lia.
Qed.

Lemma fold_left_cons (A B : Type) (f : A -> B -> A) (x : B) (l : list B)
      (a : A) :
  fold_left f (x :: l) a = fold_left f l (f a x).
Proof. reflexivity. Qed.

Lemma fold_step (str : text) (p : Z) :
  fold_left step str (toInt32 p) = toInt32 (fold_left horner str p).
Proof.
  revert p. induction str as [|c str IH]; intros p; [reflexivity|].
  rewrite !fold_left_cons, step_wrap. apply IH.
Qed.

Lemma simpleHash_eq (str : text) :
  simpleHash str = toString36 (Z.abs (fold_left step str 0)).
Proof. reflexivity. Qed.

Lemma toInt32_zero : toInt32 0 = 0.
Proof. reflexivity. Qed.

Lemma simpleHash_hash32 (str : text) :
  simpleHash str = toString36 (Z.abs (hash32 str)).
Proof.
  rewrite simpleHash_eq. unfold hash32, poly31.
  pose proof (fold_step str 0) as H. rewrite toInt32_zero in H.
  now rewrite H.
Qed.

(** *** Rendering in base 36 *)

Lemma toRadix36_acc (fuel : nat) (n : Z) (acc : text) :
  toRadix36 fuel n acc = (toRadix36 fuel n [] ++ acc)%list.
Proof.
  revert n acc. induction fuel as [|fuel IH]; intros n acc; [reflexivity|].
  cbn [toRadix36]. destruct (n / 36 =? 0); [reflexivity|].
  rewrite (IH _ (_ :: acc)), (IH _ [_]). now rewrite <- app_assoc.
Qed.

Lemma digit36_base36 (d : Z) : 0 <= d < 36 -> isBase36 (digit36 d) = true.
Proof.
  intros H. unfold digit36, isBase36.
  destruct (d <? 10) eqn:E.
  - apply Z.ltb_lt in E. rewrite nat_ascii_embedding by lia.
    apply orb_true_iff. left. apply andb_true_iff.
    split; apply Nat.leb_le; lia.
  - apply Z.ltb_ge in E. rewrite nat_ascii_embedding by lia.
    apply orb_true_iff. right. apply andb_true_iff.
    split; apply Nat.leb_le; lia.
Qed.

Lemma digit36_value (d : Z) : 0 <= d < 36 -> digitValue (digit36 d) = d.
Proof.
  intros H. unfold digit36, digitValue.
  destruct (d <? 10) eqn:E.
  - apply Z.ltb_lt in E. rewrite nat_ascii_embedding by lia.
    destruct (Z.ltb_spec (Z.of_nat (48 + Z.to_nat d)) 58); lia.
  - apply Z.ltb_ge in E. rewrite nat_ascii_embedding by lia.
    destruct (Z.ltb_spec (Z.of_nat (97 + Z.to_nat (d - 10))) 58); lia.
Qed.

Lemma toRadix36_base36 (fuel : nat) (n : Z) :
  forallb isBase36 (toRadix36 fuel n []) = true.
Proof.
  revert n. induction fuel as [|fuel IH]; intros n; [reflexivity|].
  cbn [toRadix36].
  pose proof (Z.mod_pos_bound n 36 ltac:(lia)) as Hm.
  destruct (n / 36 =? 0).
  - cbn [forallb]. now rewrite digit36_base36.
  - rewrite toRadix36_acc, forallb_app, IH. cbn [forallb].
    now rewrite digit36_base36.
Qed.

Lemma toRadix36_length (fuel : nat) (k : nat) (n : Z) :
  0 <= n < 36 ^ Z.of_nat (S k) ->
  (length (toRadix36 (S fuel) n []) <= S k)%nat
  /\ (1 <= length (toRadix36 (S fuel) n []))%nat.
Proof.
  revert k n. induction fuel as [|fuel IH]; intros k n H.
  - cbn [toRadix36]. destruct (n / 36 =? 0); cbn [length]; lia.
  - remember (S fuel) as f. cbn [toRadix36].
    destruct (Z.eqb_spec (n / 36) 0) as [E | E]; [cbn [length]; lia|].
    rewrite toRadix36_acc, length_app. cbn [length]. subst f.
    destruct k as [|k].
    + exfalso. apply E. apply Z.div_small. cbn in H. lia.
    + destruct (IH k (n / 36)) as [H1 H2]; [|lia].
      split; [apply Z.div_pos; lia|].
      apply Z.div_lt_upper_bound; [lia|].
      rewrite (Nat2Z.inj_succ (S k)), Z.pow_succ_r in H by lia. lia.
Qed.

Lemma fromString36_snoc (s : text) (c : ascii) :
  fromString36 (s ++ [c]) = 36 * fromString36 s + digitValue c.
Proof. unfold fromString36. now rewrite fold_left_app. Qed.

Lemma toRadix36_value (fuel : nat) (n : Z) :
  0 <= n < 2 ^ Z.of_nat fuel ->
  fromString36 (toRadix36 fuel n []) = n.
Proof.
  revert n. induction fuel as [|fuel IH]; intros n H.
  - cbn in H. cbn. lia.
  - cbn [toRadix36].
    pose proof (Z.mod_pos_bound n 36 ltac:(lia)) as Hm.
    pose proof (Z.div_mod n 36 ltac:(lia)) as Hd.
    destruct (Z.eqb_spec (n / 36) 0) as [E | E].
    + unfold fromString36. cbn [fold_left]. rewrite digit36_value by lia.
      lia.
    + rewrite toRadix36_acc, fromString36_snoc, digit36_value by lia.
      rewrite IH; [lia|].
      split; [apply Z.div_pos; lia|].
      apply Z.div_lt_upper_bound; [lia|].
      rewrite Nat2Z.inj_succ, Z.pow_succ_r in H by lia. lia.
Qed.

Lemma toString36_value (n : Z) : 0 <= n -> fromString36 (toString36 n) = n.
Proof.
  intros H. unfold toString36. apply toRadix36_value.
  rewrite Nat2Z.inj_succ, Z2Nat.id by apply Z.log2_nonneg.
  destruct (Z.eq_dec n 0) as [-> | Hn]; [cbn; lia|].
  pose proof (Z.log2_spec n ltac:(lia)). lia.
Qed.

(** [simpleHash] is the hash of Java's [String.hashCode]: the polynomial
    of the code units with multiplier 31, wrapped to a signed 32-bit
    integer after every step; its absolute value is rendered in base 36,
    and reading the digits back gives that value. *)
Theorem simpleHash_polynomial (str : text) :
  simpleHash str = toString36 (Z.abs (hash32 str))
  /\ fromString36 (simpleHash str) = Z.abs (hash32 str)
  /\ - 2 ^ 31 <= hash32 str < 2 ^ 31.
Proof.
  split; [apply simpleHash_hash32|]. split; [|apply toInt32_range].
  rewrite simpleHash_hash32. apply toString36_value. lia.
Qed.

Lemma simpleHash_digits (str : text) :
  forallb isBase36 (simpleHash str) = true
  /\ (1 <= length (simpleHash str) <= 7)%nat.
Proof.
  rewrite simpleHash_hash32. unfold toString36.
  split; [apply toRadix36_base36|].
  pose proof (toInt32_range (poly31 str)) as Hr. fold (hash32 str) in Hr.
  destruct (@toRadix36_length
              (Z.to_nat (Z.log2 (Z.abs (hash32 str)))) 6
              (Z.abs (hash32 str))) as [H1 H2]; [|lia].
  change (36 ^ Z.of_nat 7) with 78364164096.
  change (2 ^ 31) with 2147483648 in Hr. lia.
Qed.

Section Names.

Variable canonicalPath : text -> text.

(** A session name is [haven-] followed by one to seven digits of
    base 36, whatever the path and its canonical form; so it holds no
    white space and no separator of a listing. *)
Theorem getSyncSessionName_shape (localPath : text) :
  exists digits,
    getSyncSessionName canonicalPath localPath = (txt "haven-" ++ digits)%list
    /\ forallb isBase36 digits = true
    /\ (1 <= length digits <= 7)%nat.
Proof.
  exists (simpleHash (canonicalPath localPath)).
  split; [reflexivity|]. apply simpleHash_digits.
Qed.

(** Two paths share a session name exactly when the 32-bit hashes of
    their canonical forms agree up to sign. *)
Theorem getSyncSessionName_collision (p q : text) :
  getSyncSessionName canonicalPath p = getSyncSessionName canonicalPath q
  <-> Z.abs (hash32 (canonicalPath p)) = Z.abs (hash32 (canonicalPath q)).
Proof.
  unfold getSyncSessionName. cbv zeta. rewrite !simpleHash_hash32. split.
  - intros H. apply app_inv_head in H.
    apply (f_equal fromString36) in H.
    now rewrite !toString36_value in H by lia.
  - now intros ->.
Qed.

End Names.

(** Distinct directories can share a session name. *)
Example getSyncSessionName_shared :
  getSyncSessionName (fun p => p) (txt "/work/Aa")
  = getSyncSessionName (fun p => p) (txt "/work/BB").
Proof. vm_compute. reflexivity. Qed.

End HashFacts.

(** ** Splitting what was joined *)

Module SplitFacts.

Import Js TrimFacts.

(** No code unit of [s] is [c]. *)
Definition absent (c : ascii) (s : text) : bool :=
  forallb (fun d => negb (Ascii.eqb d c)) s.

(** Pieces that are each followed by the separator. *)
Definition terminated (sep : text) (xs : list text) : text :=
  concat (map (fun x => x ++ sep) xs).

Lemma absent_app (c : ascii) (a b : text) :
  absent c (a ++ b) = absent c a && absent c b.
Proof. apply forallb_app. Qed.

Lemma splitAux_char_last (c : ascii) (x cur : text) :
  absent c x = true -> splitAux [c] 0 cur x = [rev cur ++ x].
Proof.
  revert cur. induction x as [|d x IH]; intros cur H.
  - cbn [splitAux]. now rewrite app_nil_r.
  - cbn [absent forallb] in H. apply andb_true_iff in H as [Hd Hx].
    cbn [splitAux startsWith]. rewrite Ascii.eqb_sym.
    apply negb_true_iff in Hd. rewrite Hd. cbn [andb].
    rewrite IH by exact Hx. cbn [rev]. now rewrite <- app_assoc.
Qed.

Lemma splitAux_char_piece (c : ascii) (x cur rest : text) :
  absent c x = true ->
  splitAux [c] 0 cur (x ++ c :: rest)
  = (rev cur ++ x) :: splitAux [c] 0 [] rest.
Proof.
  revert cur. induction x as [|d x IH]; intros cur H.
  - cbn [app splitAux startsWith length Nat.sub].
    rewrite Ascii.eqb_refl. cbn [andb]. now rewrite app_nil_r.
  - cbn [absent forallb] in H. apply andb_true_iff in H as [Hd Hx].
    cbn [app splitAux startsWith]. rewrite Ascii.eqb_sym.
    apply negb_true_iff in Hd. rewrite Hd. cbn [andb].
    rewrite IH by exact Hx. cbn [rev]. now rewrite <- app_assoc.
Qed.

(** Splitting at a code unit undoes joining with it, for pieces that do
    not hold it. *)
Lemma split_join_char (c : ascii) (xs : list text) :
  xs <> [] -> Forall (fun x => absent c x = true) xs ->
  split (join [c] xs) [c] = xs.
Proof.
  intros Hne H. unfold split. induction H as [|x xs Hx Hxs IH];
    [now elim Hne|].
  destruct xs as [|y ys].
  - cbn [join]. now rewrite splitAux_char_last.
  - change (join [c] (x :: y :: ys)) with (x ++ c :: join [c] (y :: ys)).
    rewrite splitAux_char_piece by exact Hx. cbn [rev app].
    now rewrite IH.
Qed.

Lemma split_terminated_char (c : ascii) (xs : list text) :
  Forall (fun x => absent c x = true) xs ->
  split (terminated [c] xs) [c] = xs ++ [[]].
Proof.
  unfold split, terminated. induction 1 as [|x xs Hx Hxs IH];
    [reflexivity|].
  cbn [map concat]. rewrite <- app_assoc. cbn [app].
  rewrite splitAux_char_piece by exact Hx. cbn [rev app]. now rewrite IH.
Qed.

Lemma splitAux_pair_last (c : ascii) (x cur : text) :
  absent c x = true -> splitAux [c; c] 0 cur x = [rev cur ++ x].
Proof.
  revert cur. induction x as [|d x IH]; intros cur H.
  - cbn [splitAux]. now rewrite app_nil_r.
  - cbn [absent forallb] in H. apply andb_true_iff in H as [Hd Hx].
    cbn [splitAux]. unfold startsWith at 1. fold startsWith.
    rewrite Ascii.eqb_sym. apply negb_true_iff in Hd. rewrite Hd.
    cbn [andb]. rewrite IH by exact Hx. cbn [rev].
    now rewrite <- app_assoc.
Qed.

Lemma splitAux_pair_piece (c : ascii) (x cur rest : text) :
  absent c x = true ->
  splitAux [c; c] 0 cur (x ++ c :: c :: rest)
  = (rev cur ++ x) :: splitAux [c; c] 0 [] rest.
Proof.
  revert cur. induction x as [|d x IH]; intros cur H.
  - cbn [app splitAux startsWith length Nat.sub].
    rewrite Ascii.eqb_refl. cbn [andb]. now rewrite app_nil_r.
  - cbn [absent forallb] in H. apply andb_true_iff in H as [Hd Hx].
    cbn [app splitAux]. unfold startsWith at 1. fold startsWith.
    rewrite Ascii.eqb_sym. apply negb_true_iff in Hd. rewrite Hd.
    cbn [andb]. rewrite IH by exact Hx. cbn [rev].
    now rewrite <- app_assoc.
Qed.

Lemma split_terminated_pair (c : ascii) (xs : list text) :
  Forall (fun x => absent c x = true) xs ->
  split (terminated [c; c] xs) [c; c] = xs ++ [[]].
Proof.
  unfold split, terminated. induction 1 as [|x xs Hx Hxs IH];
    [reflexivity|].
  cbn [map concat]. rewrite <- app_assoc. cbn [app].
  rewrite splitAux_pair_piece by exact Hx. cbn [rev app]. now rewrite IH.
Qed.

Lemma filter_truthy_all (xs : list text) :
  Forall (fun x => x <> []) xs -> filter truthy xs = xs.
Proof.
  induction 1 as [|x xs Hx _ IH]; [reflexivity|].
  cbn [filter]. destruct x; [now elim Hx|]. cbn [truthy]. now rewrite IH.
Qed.

Lemma terminated_join (sep : text) (xs : list text) :
  xs <> [] -> terminated sep xs = join sep xs ++ sep.
Proof.
  unfold terminated. induction xs as [|x xs IH]; [now intros []|].
  intros _. destruct xs as [|y ys].
  - cbn. now rewrite app_nil_r.
  - change (join sep (x :: y :: ys)) with (x ++ sep ++ join sep (y :: ys)).
    cbn [map concat] in *. rewrite IH by discriminate.
    now rewrite <- !app_assoc.
Qed.

Lemma join_visible (xs : list text) :
  xs <> [] ->
  Forall (fun x => x <> [] /\ visibleStart x /\ visibleEnd x) xs ->
  join [LF] xs <> [] /\ visibleStart (join [LF] xs)
  /\ visibleEnd (join [LF] xs).
Proof.
  intros Hne H. induction H as [|x xs [Hx [Hs He]] Hxs IH]; [now elim Hne|].
  destruct xs as [|y ys]; [now cbn [join]|].
  change (join [LF] (x :: y :: ys)) with (x ++ [LF] ++ join [LF] (y :: ys)).
  destruct IH as [I1 [I2 I3]]; [discriminate|].
  split; [|split].
  - intros E. apply app_eq_nil in E as [E _]. now apply Hx.
  - now apply visibleStart_app.
  - rewrite app_assoc. now apply visibleEnd_app.
Qed.

Lemma absent_terminated (c : ascii) (sep : text) (xs : list text) :
  absent c sep = true -> Forall (fun x => absent c x = true) xs ->
  absent c (terminated sep xs) = true.
Proof.
  intros Hs. unfold terminated. induction 1 as [|x xs Hx _ IH];
    [reflexivity|].
  cbn [map concat]. now rewrite !absent_app, Hx, Hs, IH.
Qed.

Lemma absent_join (c : ascii) (sep : text) (xs : list text) :
  absent c sep = true -> Forall (fun x => absent c x = true) xs ->
  absent c (join sep xs) = true.
Proof.
  intros Hs. induction 1 as [|x xs Hx Hxs IH]; [reflexivity|].
  destruct xs as [|y ys]; [exact Hx|].
  change (join sep (x :: y :: ys)) with (x ++ sep ++ join sep (y :: ys)).
  now rewrite !absent_app, Hx, Hs, IH.
Qed.

End SplitFacts.

(** ** Ignore files and ignore flags *)

Module IgnoreMoreFacts.

Import Js Ignore IgnoreArgs SshLines TrimFacts LinesFacts SplitFacts.

Lemma noLF_absent (s : text) : noLF s = absent LF s.
Proof. reflexivity. Qed.

Lemma lines_noLF (s : text) :
  Forall (fun l => absent LF l = true) (split s [LF]).
Proof.
  change (split s [LF]) with (SshConfig.lines s). rewrite lines_linesOf.
  destruct (@linesOf_spec (fun _ => true) s) as [ls [frag [E [_ H]]]].
  { now apply forallb_forall. }
  rewrite E. eapply Forall_impl; [|exact H]. now intros l [Hl _].
Qed.

Lemma trimStart_snoc (s : text) (c : ascii) :
  isWhiteSpace c = true ->
  trimStart (s ++ [c])
  = match trimStart s with [] => [] | _ :: _ => trimStart s ++ [c] end.
Proof.
  intros Hc. induction s as [|d s IH].
  - cbn [app trimStart]. now rewrite Hc.
  - cbn [app trimStart]. destruct (isWhiteSpace d); [exact IH | reflexivity].
Qed.

(** White space at the end of a line does not count. *)
Lemma trim_snoc (s : text) (c : ascii) :
  isWhiteSpace c = true -> trim (s ++ [c]) = trim s.
Proof.
  intros Hc. unfold trim. rewrite trimStart_snoc by exact Hc.
  destruct (trimStart s) as [|d r] eqn:E; [reflexivity|].
  now apply trimEnd_snoc.
Qed.

Lemma trim_idem (s : text) : trim (trim s) = trim s.
Proof. apply trim_visible; [apply trim_visibleStart | apply trim_visibleEnd]. Qed.

(** What [parseIgnoreFile] keeps of a trimmed line. *)
Definition kept (line : text) : bool :=
  (0 <? length line) && negb (startsWith line (txt "#")).

Lemma parseIgnoreFile_Forall (content : text) :
  Forall (fun p => kept p = true /\ trim p = p /\ absent LF p = true)
         (parseIgnoreFile content).
Proof.
  unfold parseIgnoreFile. apply Forall_forall. intros p Hp.
  apply filter_In in Hp as [Hin Hk]. apply in_map_iff in Hin as [l [<- Hl]].
  split; [exact Hk|]. split; [apply trim_idem|].
  pose proof (lines_noLF content) as H. rewrite Forall_forall in H.
  apply WriteFacts.forallb_trim. now apply H.
Qed.

(** The patterns read from an ignore file are trimmed lines that are
    neither empty nor comments, so writing them one per line and reading
    that file gives the same patterns. *)
Theorem parseIgnoreFile_reparse (content : text) :
  parseIgnoreFile (join [LF] (parseIgnoreFile content))
  = parseIgnoreFile content.
Proof.
  pose proof (parseIgnoreFile_Forall content) as H.
  destruct (parseIgnoreFile content) as [|p ps] eqn:E; [reflexivity|].
  unfold parseIgnoreFile at 1. rewrite split_join_char.
  - clear E. induction H as [|q qs [Hk [Ht _]] _ IH]; [reflexivity|].
    cbn [map filter]. rewrite Ht. fold (kept q). rewrite Hk.
    f_equal. exact IH.
  - discriminate.
  - eapply Forall_impl; [|exact H]. now intros q [_ [_ Hq]].
Qed.

(** An ignore file reads the same with CRLF line ends as with LF ones. *)
Theorem parseIgnoreFile_crlf (ls : list text) :
  Forall (fun l => absent LF l = true) ls ->
  parseIgnoreFile (terminated [CR; LF] ls)
  = parseIgnoreFile (terminated [LF] ls).
Proof.
  intros H. unfold parseIgnoreFile.
  assert (E : terminated [CR; LF] ls
              = terminated [LF] (map (fun l => l ++ [CR]) ls)).
  { unfold terminated. rewrite map_map. f_equal. apply map_ext.
    intros l. now rewrite <- app_assoc. }
  rewrite E, !split_terminated_char; trivial.
  - rewrite !map_app, map_map. do 2 f_equal. apply map_ext.
    intros l. now apply trim_snoc.
  - apply Forall_map. eapply Forall_impl; [|exact H].
    intros l Hl. rewrite absent_app, Hl. reflexivity.
Qed.

Lemma parseIgnoreFile_crlf_witness :
  parseIgnoreFile
    (terminated [CR; LF]
       [txt "node_modules/"; txt "# secrets"; []; txt "  *.secret "])
  = [txt "node_modules/"; txt "*.secret"].
Proof.
  assert (H : Forall (fun l => absent LF l = true)
                [txt "node_modules/"; txt "# secrets"; [];
                 txt "  *.secret "])
    by (repeat constructor).
  rewrite (parseIgnoreFile_crlf H). vm_compute. reflexivity.
Defined.

Lemma fold_ignore (ps acc : list text) :
  fold_left (fun args pattern => args ++ [txt "--ignore"; pattern]) ps acc
  = acc ++ flat_map (fun p => [txt "--ignore"; p]) ps.
Proof.
  revert acc. induction ps as [|p ps IH]; intros acc.
  - cbn. now rewrite app_nil_r.
  - cbn [fold_left flat_map]. rewrite IH. now rewrite <- app_assoc.
Qed.

Lemma buildMutagenIgnoreArgs_eq (ps : list text) :
  buildMutagenIgnoreArgs ps
  = txt "--ignore-vcs" :: flat_map (fun p => [txt "--ignore"; p]) ps.
Proof. unfold buildMutagenIgnoreArgs. now rewrite fold_ignore. Qed.

(** The flags start with [--ignore-vcs], and the pattern at position
    [i] is the argument of the flag [--ignore] at position [1 + 2 * i]:
    nothing else is passed, so there are [1 + 2 * n] words for [n]
    patterns. *)
Theorem buildMutagenIgnoreArgs_flags (ps : list text) :
  hd_error (buildMutagenIgnoreArgs ps) = Some (txt "--ignore-vcs")
  /\ length (buildMutagenIgnoreArgs ps) = 1 + 2 * length ps
  /\ forall i,
       nth_error (buildMutagenIgnoreArgs ps) (1 + 2 * i)
       = option_map (fun _ => txt "--ignore") (nth_error ps i)
       /\ nth_error (buildMutagenIgnoreArgs ps) (2 + 2 * i) = nth_error ps i.
Proof.
  rewrite buildMutagenIgnoreArgs_eq. split; [reflexivity|]. split.
  - cbn [length]. f_equal. induction ps as [|p ps IH]; [reflexivity|].
    cbn [flat_map app length]. rewrite IH. lia.
  - intros i. change (1 + 2 * i) with (S (2 * i)).
    change (2 + 2 * i) with (S (S (2 * i))). cbn [nth_error].
    revert i. induction ps as [|p ps IH]; intros i.
    + cbn [flat_map]. destruct i; [now split|].
      replace (2 * S i) with (S (S (2 * i))) by lia. now split.
    + cbn [flat_map app]. destruct i as [|i]; [now split|].
      replace (2 * S i) with (S (S (2 * i))) by lia. cbn [nth_error].
      apply IH.
Qed.

End IgnoreMoreFacts.

(** ** Key discovery and the agent listing *)

Module KeysMoreFacts.

Import Js Keys TrimFacts SplitFacts.

Lemma endsWith_app (s p : text) :
  endsWith s p = true <-> exists r, s = r ++ p.
Proof.
  unfold endsWith. rewrite JsFacts.startsWith_app. split.
  - intros [r H]. exists (rev r).
    rewrite <- (rev_involutive s), H, rev_app_distr.
    now rewrite !rev_involutive.
  - intros [r ->]. exists (rev r). apply rev_app_distr.
Qed.

Lemma dropLast4_pub (r : text) : dropLast4 (r ++ txt ".pub") = r.
Proof.
  unfold dropLast4. rewrite length_app.
  replace (length r + length (txt ".pub") - 4) with (length r + 0)
    by (cbn [length txt list_ascii_of_string]; lia).
  rewrite firstn_app_2. cbn [firstn]. apply app_nil_r.
Qed.

Section Discovery.

Variable m : Machine.

(** What holds of a key pushed for a directory entry. *)
Definition discovered (sshDir file : text) (k : SshKeyInfo) : Prop :=
  endsWith file (txt ".pub") = true
  /\ publicKeyPath k = sshDir ++ txt "/" ++ file
  /\ publicKeyPath k = privateKeyPath k ++ txt ".pub"
  /\ existsSync m (privateKeyPath k) = true
  /\ exitCode (sshKeygenFingerprint m (publicKeyPath k)) = 0%Z
  /\ (exists content,
        readFileSync m (publicKeyPath k) = Some content
        /\ publicKey k = trim content)
  /\ publicKey k <> [].

Lemma keyOfFile_discovered (sshDir file : text) (k : SshKeyInfo) :
  keyOfFile m sshDir file = Some k -> discovered sshDir file k.
Proof.
  unfold keyOfFile, isValidSshPublicKeyFile.
  destruct (endsWith file (txt ".pub")) eqn:Ee; [|discriminate].
  cbn [negb]. apply endsWith_app in Ee as [r ->].
  assert (Ep : sshDir ++ txt "/" ++ r ++ txt ".pub"
               = (sshDir ++ txt "/" ++ r) ++ txt ".pub")
    by now rewrite <- !app_assoc.
  rewrite Ep, dropLast4_pub.
  destruct (existsSync m (sshDir ++ txt "/" ++ r)) eqn:Ex; [|discriminate].
  cbn [negb].
  destruct (Z.eqb_spec
              (exitCode (sshKeygenFingerprint m
                           ((sshDir ++ txt "/" ++ r) ++ txt ".pub"))) 0)
    as [Ez | Ez]; [|discriminate].
  cbn [negb].
  destruct (readFileSync m ((sshDir ++ txt "/" ++ r) ++ txt ".pub"))
    as [content|] eqn:Er; [|discriminate].
  destruct (trim content) as [|c t] eqn:Et; [discriminate|].
  cbn [truthy]. intros [= <-]. cbn [publicKeyPath privateKeyPath publicKey].
  unfold discovered. cbn [publicKeyPath privateKeyPath publicKey].
  split; [apply (proj2 (endsWith_app _ _)); now exists r|].
  split; [now rewrite <- !app_assoc|].
  split; [reflexivity|]. split; [exact Ex|]. split; [exact Ez|].
  split; [exists content; now split | discriminate].
Qed.

Lemma collectKeys_In (sshDir : text) (files : list text) (k : SshKeyInfo) :
  In k (collectKeys m sshDir files)
  <-> exists file, In file files /\ keyOfFile m sshDir file = Some k.
Proof.
  induction files as [|f files IH]; cbn [collectKeys In].
  - split; [intros [] | intros [? [[] _]]].
  - destruct (keyOfFile m sshDir f) as [k'|] eqn:E.
    + cbn [In]. rewrite IH. split.
      * intros [<- | [file [Hf Hk]]]; [exists f | exists file]; auto.
      * intros [file [[<- | Hf] Hk]].
        -- left. congruence.
        -- right. now exists file.
    + rewrite IH. split.
      * intros [file [Hf Hk]]. exists file. auto.
      * intros [file [[<- | Hf] Hk]]; [congruence | now exists file].
Qed.

Lemma collectKeys_length (sshDir : text) (files : list text) :
  length (collectKeys m sshDir files)
  <= length (filter (fun f => endsWith f (txt ".pub")) files).
Proof.
  induction files as [|f files IH]; [reflexivity|].
  cbn [collectKeys filter]. unfold keyOfFile at 1.
  destruct (endsWith f (txt ".pub")); cbn [negb].
  - match goal with
    | |- context [match ?x with Some _ => _ | None => _ end] => destruct x
    end; cbn [length]; lia.
  - exact IH.
Qed.

Lemma findExistingKeys_discovered (dir : option text) (k : SshKeyInfo) :
  In k (findExistingKeys m dir) ->
  existsSync m (dirOf m dir) = true
  /\ exists file, In file (readdirSync m (dirOf m dir))
                  /\ discovered (dirOf m dir) file k.
Proof.
  unfold findExistingKeys. cbv zeta.
  destruct (existsSync m (dirOf m dir)) eqn:E; cbn [negb]; [|intros []].
  intros Hk. split; [reflexivity|].
  apply collectKeys_In in Hk as [file [Hf Hk]]. exists file.
  split; [exact Hf | now apply keyOfFile_discovered].
Qed.

(** Every key [findExistingKeys] returns comes from an entry of the
    directory that ends in [.pub]: its public path is that entry, its
    private path the same without [.pub] and an existing file, the
    public file is accepted by [ssh-keygen -lf], and the public key is
    the trimmed, non-empty content of the public file.  There are at
    most as many keys as such entries, and none when the directory is
    missing. *)
Theorem findExistingKeys_sound (dir : option text) :
  (forall k, In k (findExistingKeys m dir) ->
     existsSync m (dirOf m dir) = true
     /\ exists file, In file (readdirSync m (dirOf m dir))
                     /\ discovered (dirOf m dir) file k)
  /\ length (findExistingKeys m dir)
     <= length (filter (fun f => endsWith f (txt ".pub"))
                       (readdirSync m (dirOf m dir)))
  /\ (existsSync m (dirOf m dir) = false -> findExistingKeys m dir = []).
Proof.
  split; [apply findExistingKeys_discovered|].
  unfold findExistingKeys. cbv zeta.
  destruct (existsSync m (dirOf m dir)) eqn:E; cbn [negb].
  - split; [apply collectKeys_length | discriminate].
  - split; [cbn; lia | reflexivity].
Qed.

End Discovery.

(** *** The keys offered to ssh *)

(** Every [IdentityFile] line of a rendered block names the private
    key of a discovered pair: a file that exists, next to a public file
    that [ssh-keygen -lf] accepted. *)
Theorem generateHostConfig_identity_files (m : Machine)
        (alias host user : text) (port : N) (l : text) :
  SshConfig.aliasOk alias = true ->
  SshConfig.noLineTerminator host = true ->
  SshConfig.noLineTerminator user = true ->
  forallb SshConfig.noLineTerminator (getAllKeyPaths m None) = true ->
  In l (SshConfig.lines
          (SshConfig.generateHostConfig (getAllKeyPaths m None)
             alias host port user)) ->
  startsWith l (txt "  IdentityFile ") = true ->
  exists k,
    In k (findExistingKeys m None)
    /\ l = txt "  IdentityFile " ++ privateKeyPath k
    /\ existsSync m (privateKeyPath k) = true
    /\ publicKeyPath k = privateKeyPath k ++ txt ".pub"
    /\ exitCode (sshKeygenFingerprint m (publicKeyPath k)) = 0%Z.
Proof.
  intros Ha Hh Hu Hk Hl Hs.
  assert (Hf : In l (filter (fun l => startsWith l (txt "  IdentityFile "))
                       (SshConfig.lines
                          (SshConfig.generateHostConfig
                             (getAllKeyPaths m None) alias host port user))))
    by (apply filter_In; now split).
  rewrite (@HostConfigFacts.identity_lines m alias host user port
             Ha Hh Hu Hk) in Hf.
  apply in_map_iff in Hf as [p [<- Hp]].
  unfold getAllKeyPaths in Hp. apply in_map_iff in Hp as [k [<- Hin]].
  exists k. split; [exact Hin|]. split; [reflexivity|].
  destruct (findExistingKeys_discovered m None k Hin)
    as [_ [file [_ [_ [_ [H1 [H2 [H3 _]]]]]]]].
  now repeat split.
Qed.

(** *** Without an agent *)

(** When [ssh-add -l] fails (no agent, or an agent without identities)
    no key is analysed as held by the agent, a key is usable exactly
    when it is not encrypted, and [hasUsableKey] holds exactly when the
    managed key exists or some discovered key is not encrypted. *)
Theorem analyzeKeys_no_agent (m : Machine) (dir : option text) :
  exitCode (sshAddList m) <> 0%Z ->
  (forall a, In a (analyzeKeys m dir) ->
     inAgent a = false /\ usable a = negb (encrypted a))
  /\ hasUsableKey m dir
     = hasHavenKey m dir
       || existsb (fun k => negb (isKeyEncrypted m (privateKeyPath k)))
                  (findExistingKeys m dir).
Proof.
  intros Hx.
  assert (Hf : getAgentFingerprints m = []).
  { unfold getAgentFingerprints. cbv zeta.
    destruct (Z.eqb_spec (exitCode (sshAddList m)) 0) as [E | _];
      [now elim Hx | reflexivity]. }
  assert (Ha : forall k,
             inAgent (analyzeKey m (getAgentFingerprints m) k) = false).
  { intros k. rewrite Hf. unfold analyzeKey. cbv zeta. cbn [inAgent].
    destruct (getKeyFingerprint m (privateKeyPath k)) as [[|c r]|];
      reflexivity. }
  split.
  - intros a Hin. unfold analyzeKeys in Hin.
    apply in_map_iff in Hin as [k [<- _]].
    split; [apply Ha|].
    rewrite KeysFacts.analyzeKey_usable, Ha. apply orb_false_r.
  - unfold hasUsableKey. destruct (hasHavenKey m dir); [reflexivity|].
    cbn [orb]. unfold analyzeKeys. cbv zeta.
    induction (findExistingKeys m dir) as [|k ks IH]; [reflexivity|].
    cbn [map existsb]. rewrite IH. f_equal.
    rewrite KeysFacts.analyzeKey_usable, Ha. apply orb_false_r.
Qed.

(** *** The listing of the agent *)

(** One line of [ssh-add -l] or [ssh-keygen -lf]:
    [<bits> <fingerprint> <comment>]. *)
Record Entry : Type := mkEntry {
  bits : text;
  fingerprint : text;
  comment : text
}.

Definition render (e : Entry) : text :=
  bits e ++ txt " " ++ fingerprint e ++ txt " " ++ comment e.

Definition SP : ascii := " "%char.

(** The fields of an entry can be told apart, and the line starts and
    ends with a visible character. *)
Definition wellFormed (e : Entry) : Prop :=
  absent SP (bits e) = true /\ absent SP (fingerprint e) = true
  /\ absent LF (bits e) = true /\ absent LF (fingerprint e) = true
  /\ absent LF (comment e) = true
  /\ bits e <> [] /\ visibleStart (bits e)
  /\ comment e <> [] /\ visibleEnd (comment e).

Lemma secondField_render (e : Entry) :
  absent SP (bits e) = true -> absent SP (fingerprint e) = true ->
  secondField (render e) = Some (fingerprint e).
Proof.
  intros Hb Hf. unfold secondField, render, split.
  change (txt " ") with [SP]. cbn [app].
  rewrite splitAux_char_piece by exact Hb. cbn [rev app nth_error].
  rewrite splitAux_char_piece by exact Hf. reflexivity.
Qed.

Lemma render_absent_LF (e : Entry) :
  wellFormed e -> absent LF (render e) = true.
Proof.
  intros [_ [_ [Hb [Hf [Hc _]]]]]. unfold render.
  now rewrite !absent_app, Hb, Hf, Hc.
Qed.

Lemma render_visible (e : Entry) :
  wellFormed e ->
  render e <> [] /\ visibleStart (render e) /\ visibleEnd (render e).
Proof.
  intros [_ [_ [_ [_ [_ [Hb [Hbs [Hc Hce]]]]]]]]. unfold render.
  split; [|split].
  - intros H. apply app_eq_nil in H as [H _]. now apply Hb.
  - now apply visibleStart_app.
  - rewrite !app_assoc. now apply visibleEnd_app.
Qed.

(** The text of a listing as the trimmed output has it. *)
Lemma trim_listing (es : list Entry) :
  Forall wellFormed es ->
  split (trim (terminated [LF] (map render es))) [LF]
  = match es with [] => [[]] | _ :: _ => map render es end.
Proof.
  intros H. destruct es as [|e es]; [reflexivity|].
  rewrite terminated_join by discriminate.
  destruct (@join_visible (map render (e :: es))) as [J1 [J2 J3]].
  { discriminate. }
  { apply Forall_map. eapply Forall_impl; [|exact H].
    intros x. apply render_visible. }
  rewrite trim_line_feed by assumption.
  apply split_join_char; [discriminate|].
  apply Forall_map. eapply Forall_impl; [|exact H].
  intros x. apply render_absent_LF.
Qed.

Section Agent.

Variable m : Machine.
Variable entries : list Entry.

Hypothesis agent_runs : exitCode (sshAddList m) = 0%Z.
Hypothesis agent_lists :
  stdout (sshAddList m) = terminated [LF] (map render entries).
Hypothesis entries_ok : Forall wellFormed entries.

Lemma agent_fingerprints : getAgentFingerprints m = map fingerprint entries.
Proof.
  unfold getAgentFingerprints. cbv zeta. rewrite agent_runs, agent_lists.
  cbn [Z.eqb negb]. rewrite trim_listing by exact entries_ok.
  destruct entries as [|e es]; [reflexivity|].
  remember (e :: es) as l eqn:El. clear El agent_lists.
  induction entries_ok as [|x xs Hx Hxs IH]; [reflexivity|].
  cbn [map filter]. destruct (render_visible Hx) as [Hn _].
  destruct (render x) as [|c r] eqn:Er; [now elim Hn|].
  cbn [length Nat.ltb Nat.leb map]. rewrite <- Er.
  destruct Hx as [Hb [Hf _]].
  rewrite secondField_render by assumption. cbn [definedOnly].
  f_equal. exact IH.
Qed.

(** When [ssh-add -l] succeeds and prints one line
    [<bits> <fingerprint> <comment>] per identity, the fingerprints
    read are those of the identities, in order, one per line. *)
Theorem getAgentFingerprints_listing :
  getAgentFingerprints m = map fingerprint entries
  /\ length (getAgentFingerprints m) = length entries.
Proof.
  rewrite agent_fingerprints. split; [reflexivity | apply length_map].
Qed.


End Agent.

Definition rsaEntry : Entry :=
  mkEntry (txt "3072") (txt "SHA256:kP2hx0Yq") (txt "dev@laptop (RSA)").

Definition otherEntry : Entry :=
  mkEntry (txt "256") (txt "SHA256:Zm9vYmFy") (txt "deploy (ED25519)").

(** A directory with one passphrase-protected key that the agent holds. *)
Definition agentMachine : Machine :=
  mkMachine (txt "/home/dev/.ssh")
    (fun p => negb (includes p (txt "haven_ed25519")))
    (fun _ => [txt "config"; txt "id_rsa"; txt "id_rsa.pub"])
    (fun _ => Some (txt "ssh-rsa AAAAB3NzaC1yc2E dev@laptop"))
    (fun _ => mkProc 0 (render rsaEntry ++ [LF]) [])
    (fun _ => mkProc 255 [] (txt "incorrect passphrase supplied"))
    (mkProc 0 (terminated [LF] [render otherEntry; render rsaEntry]) []).


Lemma getAgentFingerprints_listing_witness :
  getAgentFingerprints agentMachine
  = [txt "SHA256:Zm9vYmFy"; txt "SHA256:kP2hx0Yq"].
Proof.
  assert (H1 : exitCode (sshAddList agentMachine) = 0%Z) by reflexivity.
  assert (H2 : stdout (sshAddList agentMachine)
               = terminated [LF] (map render [otherEntry; rsaEntry]))
    by reflexivity.
  assert (H3 : Forall wellFormed [otherEntry; rsaEntry]).
  { repeat constructor; discriminate. }
  exact (proj1 (@getAgentFingerprints_listing agentMachine
                  [otherEntry; rsaEntry] H1 H2 H3)).
Defined.


(** The same directory when the agent does not run. *)
Definition noAgentMachine : Machine :=
  mkMachine (txt "/home/dev/.ssh")
    (fun p => negb (includes p (txt "haven_ed25519")))
    (fun _ => [txt "config"; txt "id_rsa"; txt "id_rsa.pub"])
    (fun _ => Some (txt "ssh-rsa AAAAB3NzaC1yc2E dev@laptop"))
    (fun _ => mkProc 0 (render rsaEntry ++ [LF]) [])
    (fun _ => mkProc 255 [] (txt "incorrect passphrase supplied"))
    (mkProc 2 [] (txt "Could not open a connection to your agent")).

Lemma analyzeKeys_no_agent_witness :
  hasUsableKey noAgentMachine None = false
  /\ map usable (analyzeKeys noAgentMachine None) = [false].
Proof.
  assert (H : exitCode (sshAddList noAgentMachine) <> 0%Z)
    by discriminate.
  split.
  - rewrite (proj2 (analyzeKeys_no_agent noAgentMachine None H)).
    vm_compute. reflexivity.
  - vm_compute. reflexivity.
Defined.

Lemma generateHostConfig_identity_files_witness :
  exists k,
    In k (findExistingKeys agentMachine None)
    /\ txt "  IdentityFile /home/dev/.ssh/id_rsa"
       = txt "  IdentityFile " ++ privateKeyPath k
    /\ existsSync agentMachine (privateKeyPath k) = true
    /\ publicKeyPath k = privateKeyPath k ++ txt ".pub"
    /\ exitCode (sshKeygenFingerprint agentMachine (publicKeyPath k)) = 0%Z.
Proof.
  assert (H1 : SshConfig.aliasOk (txt "haven-ws1") = true) by reflexivity.
  assert (H2 : SshConfig.noLineTerminator (txt "ws1.example.com") = true)
    by reflexivity.
  assert (H3 : SshConfig.noLineTerminator (txt "abc") = true)
    by reflexivity.
  assert (H4 : forallb SshConfig.noLineTerminator
                 (getAllKeyPaths agentMachine None) = true)
    by (vm_compute; reflexivity).
  assert (H5 : In (txt "  IdentityFile /home/dev/.ssh/id_rsa")
                 (SshConfig.lines
                    (SshConfig.generateHostConfig
                       (getAllKeyPaths agentMachine None)
                       (txt "haven-ws1") (txt "ws1.example.com") 22
                       (txt "abc"))))
    by (vm_compute; do 4 right; left; reflexivity).
  assert (H6 : startsWith (txt "  IdentityFile /home/dev/.ssh/id_rsa")
                 (txt "  IdentityFile ") = true) by reflexivity.
  exact (@generateHostConfig_identity_files agentMachine (txt "haven-ws1")
           (txt "ws1.example.com") (txt "abc") 22
           (txt "  IdentityFile /home/dev/.ssh/id_rsa") H1 H2 H3 H4 H5 H6).
Defined.

End KeysMoreFacts.

(** ** Starting a session *)

Module MutagenSessionFacts.

Import Js Mutagen MutagenSession TrimFacts SplitFacts.

Section Engine.

Variable canonicalPath : text -> text.
Variable resolve : text -> text -> text.
Variable existsSync : text -> bool.
Variable readFileSync : text -> text.
Variable engine : Calls -> list text -> ProcResult.

Local Abbreviation start :=
  (startSync canonicalPath resolve existsSync readFileSync engine).

Definition listArgs : list text :=
  [txt "sync"; txt "list"; txt "--template"; nameTemplate].

(** The session of a path is known to the engine: the listing succeeds
    and one of its lines is the name of the session. *)
Definition known (localPath : text) (calls : Calls) : bool :=
  let listing := Mutagen.runMutagen (engine calls) listArgs in
  (exitCode listing =? 0)%Z
  && existsb (text_eqb (getSyncSessionName canonicalPath localPath))
             (filter truthy (split (stdout listing) [LF])).

Lemma getSyncSession_known (localPath : text) (calls : Calls) :
  getSyncSession canonicalPath engine localPath calls
  = (known localPath calls, calls ++ [listArgs]).
Proof.
  unfold getSyncSession, known, bind, runMutagen, ret. cbv zeta.
  fold listArgs.
  destruct (exitCode (Mutagen.runMutagen (engine calls) listArgs) =? 0)%Z;
    reflexivity.
Qed.

Lemma startSync_eq (localPath sshAlias : text)
      (config : Connect.ConnectionConfig) (useGitignore : bool)
      (calls : Calls) :
  start localPath sshAlias config useGitignore calls
  = let name := getSyncSessionName canonicalPath localPath in
    if known localPath calls
    then (Ok name, calls ++ [listArgs; [txt "sync"; txt "resume"; name]])
    else
      let second :=
        [txt "sync"; txt "create"; txt "--name"; name;
         txt "--sync-mode"; txt "two-way-safe"]
        ++ IgnoreArgs.buildMutagenIgnoreArgs
             (Ignore.getAllIgnorePatterns resolve existsSync readFileSync
                localPath useGitignore)
        ++ [canonicalPath localPath;
            sshAlias ++ txt ":" ++ Connect.remotePath config] in
      let answer :=
        Mutagen.runMutagen (engine (calls ++ [listArgs])) second in
      (if negb (exitCode answer =? 0)%Z
       then Throw (txt "Failed to start sync: " ++ stderr answer)
       else Ok name,
       calls ++ [listArgs; second]).
Proof.
  unfold startSync. cbv zeta. unfold bind at 1.
  rewrite getSyncSession_known.
  destruct (known localPath calls).
  - unfold resumeSync, bind, runMutagen, ret. now rewrite <- app_assoc.
  - unfold bind, runMutagen, ret. rewrite <- app_assoc. cbn [app].
    match goal with
    | |- (if negb ?b then _ else _) _ = _ => destruct b
    end; reflexivity.
Qed.

(** [startSync] runs the engine exactly twice, first to list the
    sessions.  For a session the engine lists it only resumes, and
    returns the name whatever the engine answers to that; otherwise it
    creates the session once, under the name of the path, two-way-safe,
    ignoring version control and every pattern of
    [getAllIgnorePatterns] (so every baseline pattern), between the
    canonical path and [alias:remotePath], and throws exactly when the
    engine does not exit with zero. *)
Theorem startSync_calls (localPath sshAlias : text)
        (config : Connect.ConnectionConfig) (useGitignore : bool)
        (calls : Calls) :
  let name := getSyncSessionName canonicalPath localPath in
  let patterns :=
    Ignore.getAllIgnorePatterns resolve existsSync readFileSync
      localPath useGitignore in
  exists second,
    snd (start localPath sshAlias config useGitignore calls)
    = calls ++ [listArgs; second]
    /\ if known localPath calls
       then second = [txt "sync"; txt "resume"; name]
            /\ fst (start localPath sshAlias config useGitignore calls)
               = Ok name
       else second
            = [txt "sync"; txt "create"; txt "--name"; name;
               txt "--sync-mode"; txt "two-way-safe"; txt "--ignore-vcs"]
              ++ flat_map (fun p => [txt "--ignore"; p]) patterns
              ++ [canonicalPath localPath;
                  sshAlias ++ txt ":" ++ Connect.remotePath config]
            /\ (forall p, In p Ignore.DEFAULT_IGNORE_PATTERNS ->
                          In p patterns)
            /\ fst (start localPath sshAlias config useGitignore calls)
               = let answer := engine (calls ++ [listArgs]) second in
                 if (exitCode answer =? 0)%Z then Ok name
                 else Throw (txt "Failed to start sync: "
                             ++ trim (stderr answer)).
Proof.
  cbv zeta. rewrite startSync_eq.
  destruct (known localPath calls).
  - eexists. split; [reflexivity|]. split; reflexivity.
  - cbv zeta. rewrite IgnoreMoreFacts.buildMutagenIgnoreArgs_eq.
    eexists. split; [reflexivity|]. split; [reflexivity|]. split.
    + intros p Hp. unfold Ignore.getAllIgnorePatterns, Ignore.newSet.
      apply IgnoreFacts.fold_setAdd_In. right. apply in_or_app. now left.
    + cbn [fst]. unfold Mutagen.runMutagen. cbn [exitCode stderr].
      match goal with
      | |- (if negb ?b then _ else _) = _ => destruct b
      end; reflexivity.
Qed.

(** A name that a listing shows on a line of its own. *)
Definition plainName (n : text) : Prop :=
  n <> [] /\ visibleStart n /\ visibleEnd n /\ absent LF n = true.

Lemma listed_names (names : list text) :
  Forall plainName names ->
  filter truthy (split (trim (terminated [LF] names)) [LF]) = names.
Proof.
  intros H. destruct names as [|n names]; [reflexivity|].
  rewrite terminated_join by discriminate.
  destruct (@join_visible (n :: names)) as [J1 [J2 J3]].
  { discriminate. }
  { eapply Forall_impl; [|exact H]. intros x [H1 [H2 [H3 _]]]. auto. }
  rewrite trim_line_feed by assumption.
  rewrite split_join_char.
  - apply filter_truthy_all. eapply Forall_impl; [|exact H].
    now intros x [Hx _].
  - discriminate.
  - eapply Forall_impl; [|exact H]. now intros x [_ [_ [_ Hx]]].
Qed.

(** The names of this tool's sessions are such names. *)
Lemma getSyncSessionName_plain (localPath : text) :
  plainName (getSyncSessionName canonicalPath localPath).
Proof.
  destruct (HashFacts.simpleHash_digits (canonicalPath localPath))
    as [Hd Hl].
  unfold getSyncSessionName. cbv zeta.
  remember (simpleHash (canonicalPath localPath)) as digits eqn:Ed.
  clear Ed.
  assert (Hv : forall c, HashFacts.isBase36 c = true ->
                 isWhiteSpace c = false /\ negb (Ascii.eqb c LF) = true).
  { intros c. destruct c as [[] [] [] [] [] [] [] []]; try discriminate;
      intros _; split; reflexivity. }
  split; [discriminate|]. split; [reflexivity|]. split.
  - apply visibleEnd_app.
    + intros E. subst digits. cbn in Hl. lia.
    + unfold visibleEnd. rewrite <- (rev_involutive digits) in Hd.
      destruct (rev digits) as [|c r] eqn:E.
      * apply (f_equal (@rev ascii)) in E. rewrite rev_involutive in E.
        subst digits. cbn in Hl. lia.
      * cbn [rev] in Hd. rewrite forallb_app in Hd.
        apply andb_true_iff in Hd as [_ Hc]. cbn [forallb] in Hc.
        rewrite andb_true_r in Hc. now apply Hv.
  - unfold absent. rewrite forallb_app. apply andb_true_iff.
    split; [reflexivity|]. apply forallb_forall. intros c Hc.
    rewrite forallb_forall in Hd. now apply Hv, Hd.
Qed.

(** When the engine lists the names of its sessions as the template
    renders them, [getSyncSession] says whether the session of the path
    is among them, so [startSync] resumes exactly the sessions that
    exist and creates the others. *)
Theorem getSyncSession_listing (names : list text) (localPath : text)
        (calls : Calls) :
  exitCode (engine calls listArgs) = 0%Z ->
  stdout (engine calls listArgs) = terminated [LF] names ->
  Forall plainName names ->
  fst (getSyncSession canonicalPath engine localPath calls)
  = existsb (text_eqb (getSyncSessionName canonicalPath localPath)) names
  /\ known localPath calls
     = existsb (text_eqb (getSyncSessionName canonicalPath localPath)) names.
Proof.
  intros He Ho Hn. rewrite getSyncSession_known. cbn [fst].
  assert (E : known localPath calls
              = existsb (text_eqb (getSyncSessionName canonicalPath
                                     localPath)) names).
  { unfold known, Mutagen.runMutagen. cbv zeta. cbn [exitCode stdout].
    rewrite He, Ho. cbn [Z.eqb andb]. now rewrite listed_names. }
  now split.
Qed.

End Engine.

(** An engine that knows the session of [/home/dev/app] and another. *)
Definition busyEngine (calls : Calls) (args : list text) : ProcResult :=
  mkProc 0 (terminated [LF] [txt "docs-mirror"; txt "haven-tnfwkm"]) [].

Lemma getSyncSession_listing_witness :
  fst (getSyncSession (fun p => p) busyEngine (txt "/home/dev/app") [])
  = true
  /\ fst (getSyncSession (fun p => p) busyEngine (txt "/home/dev/web") [])
     = false.
Proof.
  assert (H1 : exitCode (busyEngine [] listArgs) = 0%Z) by reflexivity.
  assert (H2 : stdout (busyEngine [] listArgs)
               = terminated [LF] [txt "docs-mirror"; txt "haven-tnfwkm"])
    by reflexivity.
  assert (H3 : Forall plainName [txt "docs-mirror"; txt "haven-tnfwkm"]).
  { repeat (apply Forall_cons || apply Forall_nil);
      (split; [discriminate|]); repeat split; vm_compute; reflexivity. }
  split.
  - rewrite (proj1 (@getSyncSession_listing (fun p => p) busyEngine _
                      (txt "/home/dev/app") [] H1 H2 H3)).
    vm_compute. reflexivity.
  - rewrite (proj1 (@getSyncSession_listing (fun p => p) busyEngine _
                      (txt "/home/dev/web") [] H1 H2 H3)).
    vm_compute. reflexivity.
Defined.

End MutagenSessionFacts.

(** ** Reading the status listing *)

Module StatusFacts.

Import Js Mutagen TrimFacts SplitFacts.

(** *** Decimal numerals *)

Fixpoint uintValue (acc : N) (u : Decimal.uint) : N :=
  match u with
  | Decimal.Nil => acc
  | Decimal.D0 u => uintValue (10 * acc) u
  | Decimal.D1 u => uintValue (10 * acc + 1) u
  | Decimal.D2 u => uintValue (10 * acc + 2) u
  | Decimal.D3 u => uintValue (10 * acc + 3) u
  | Decimal.D4 u => uintValue (10 * acc + 4) u
  | Decimal.D5 u => uintValue (10 * acc + 5) u
  | Decimal.D6 u => uintValue (10 * acc + 6) u
  | Decimal.D7 u => uintValue (10 * acc + 7) u
  | Decimal.D8 u => uintValue (10 * acc + 8) u
  | Decimal.D9 u => uintValue (10 * acc + 9) u
  end%N.

Lemma digitsValue_uint (u : Decimal.uint) (acc : N) :
  digitsValue acc (txt (NilEmpty.string_of_uint u)) = uintValue acc u.
Proof.
  revert acc. induction u; intros acc; [reflexivity| ..];
    cbn [NilEmpty.string_of_uint txt list_ascii_of_string digitsValue
         uintValue];
    change (list_ascii_of_string (NilEmpty.string_of_uint u))
      with (txt (NilEmpty.string_of_uint u));
    match goal with
    | |- (if ?b then _ else _) = _ => change b with true
    end;
    cbv iota;
    match goal with
    | |- context [N.of_nat ?t] =>
        let v := eval vm_compute in (N.of_nat t) in
        change (N.of_nat t) with v
    end;
    rewrite IHu; f_equal; lia.
Qed.

Lemma uintValue_pos (u : Decimal.uint) (p : positive) :
  uintValue (N.pos p) u = N.pos (Pos.of_uint_acc u p).
Proof.
  revert p. induction u; intros p; [reflexivity| ..];
    cbn [uintValue Pos.of_uint_acc];
    rewrite <- IHu; f_equal; lia.
Qed.

Lemma uintValue_zero (u : Decimal.uint) : uintValue 0 u = N.of_uint u.
Proof.
  unfold N.of_uint.
  induction u; [reflexivity| exact IHu | ..];
    cbn [uintValue Pos.of_uint N.mul N.add]; apply uintValue_pos.
Qed.

Lemma digitsValue_ofN (n : N) : digitsValue 0 (ofN n) = n.
Proof.
  unfold ofN. rewrite digitsValue_uint, uintValue_zero.
  apply DecimalN.Unsigned.of_to.
Qed.

Lemma digits_uint (u : Decimal.uint) :
  forallb isDigit (txt (NilEmpty.string_of_uint u)) = true.
Proof. induction u; cbn; trivial. Qed.

Lemma ofN_nonempty (n : N) : ofN n <> [].
Proof.
  unfold ofN. intros H.
  assert (E : N.to_uint n = Decimal.Nil).
  { destruct (N.to_uint n); [reflexivity | discriminate H ..]. }
  pose proof (DecimalN.Unsigned.of_to n) as Hn. rewrite E in Hn.
  cbn in Hn. subst n. discriminate E.
Qed.

Lemma isDigit_visible (c : ascii) :
  isDigit c = true ->
  isWhiteSpace c = false /\ c <> "-"%char /\ c <> "+"%char.
Proof.
  destruct c as [[] [] [] [] [] [] [] []]; try discriminate;
    intros _; repeat split; discriminate.
Qed.

Lemma isDigit_absent (c : ascii) (s : text) :
  isDigit c = false -> forallb isDigit s = true -> absent c s = true.
Proof.
  intros Hc H. unfold absent. rewrite forallb_forall in *.
  intros d Hd. apply negb_true_iff. destruct (Ascii.eqb_spec d c);
    [|reflexivity].
  subst d. specialize (H _ Hd). congruence.
Qed.

(** [parseInt] reads back what [String] wrote. *)
Lemma parseInt10_ofN (n : N) : parseInt10 (ofN n) = Some (Z.of_N n).
Proof.
  pose proof (digitsValue_ofN n) as Hv. pose proof (ofN_nonempty n) as Hn.
  pose proof (digits_uint (N.to_uint n)) as Hd. fold (ofN n) in Hd.
  unfold parseInt10. destruct (ofN n) as [|c s]; [now elim Hn|].
  cbn [forallb] in Hd. apply andb_true_iff in Hd as [Hc _].
  destruct (isDigit_visible c Hc) as [Hw [Hm Hp]].
  cbn [trimStart]. rewrite Hw.
  rewrite <- Hv. clear Hv Hw Hm Hp Hn.
  destruct c as [[] [] [] [] [] [] [] []]; try discriminate Hc;
    reflexivity.
Qed.

(** *** The listing the status template renders *)

(** What the engine knows of a session, as far as the template shows. *)
Record Session : Type := mkSession {
  name : text;
  description : text;
  conflictCount : N;
  alphaProblems : list text;
  betaProblems : list text
}.

Definition BAR : ascii := "|"%char.
Definition SEMI : ascii := ";"%char.

(** One line of the listing, without its line feed:
    [Name|Description|len Conflicts|problem;;...|problem;;...]. *)
Definition renderSession (s : Session) : text :=
  join [BAR]
    [ name s; description s; ofN (conflictCount s);
      terminated [SEMI; SEMI] (alphaProblems s);
      terminated [SEMI; SEMI] (betaProblems s) ].

(** A problem can be told apart from its neighbours. *)
Definition plainProblem (p : text) : Prop :=
  p <> [] /\ absent SEMI p = true /\ absent BAR p = true
  /\ absent LF p = true.

(** The fields of a session can be told apart, its name starts with a
    visible character, and the number of its conflicts is below 2^53,
    so that the JavaScript number read from its digits is that number
    and prints as the same digits. *)
Definition plain (s : Session) : Prop :=
  name s <> [] /\ visibleStart (name s)
  /\ absent BAR (name s) = true /\ absent LF (name s) = true
  /\ absent BAR (description s) = true /\ absent LF (description s) = true
  /\ Forall plainProblem (alphaProblems s)
  /\ Forall plainProblem (betaProblems s)
  /\ (conflictCount s < 2 ^ 53)%N.

(** What [getSyncStatus] reports of a session. *)
Definition report (s : Session) : SyncStatus :=
  mkSyncStatus
    (parseSessionStatus (Some (description s)))
    (if (0 <? conflictCount s)%N
     then [ofN (conflictCount s) ++ txt " conflict(s) detected"]
     else [])
    (alphaProblems s ++ betaProblems s).

Lemma absent_ofN (c : ascii) (n : N) :
  isDigit c = false -> absent c (ofN n) = true.
Proof. intros H. apply isDigit_absent; [exact H | apply digits_uint]. Qed.

Lemma problems_absent (c : ascii) (ps : list text) :
  absent c [SEMI; SEMI] = true ->
  Forall (fun p => absent c p = true) ps ->
  absent c (terminated [SEMI; SEMI] ps) = true.
Proof. apply absent_terminated. Qed.

Lemma plain_fields (c : ascii) (s : Session) :
  plain s -> (c = BAR \/ c = LF) ->
  Forall (fun x => absent c x = true)
    [ name s; description s; ofN (conflictCount s);
      terminated [SEMI; SEMI] (alphaProblems s);
      terminated [SEMI; SEMI] (betaProblems s) ].
Proof.
  intros [_ [_ [Hn1 [Hn2 [Hd1 [Hd2 [Ha [Hb _]]]]]]]] Hc.
  assert (Hps : forall ps, Forall plainProblem ps ->
                  absent c (terminated [SEMI; SEMI] ps) = true).
  { intros ps Hp. apply absent_terminated.
    - destruct Hc as [-> | ->]; reflexivity.
    - eapply Forall_impl; [|exact Hp].
      intros p [_ [_ [H1 H2]]]. now destruct Hc as [-> | ->]. }
  repeat constructor.
  - now destruct Hc as [-> | ->].
  - now destruct Hc as [-> | ->].
  - apply absent_ofN. now destruct Hc as [-> | ->].
  - now apply Hps.
  - now apply Hps.
Qed.

Lemma split_renderSession (s : Session) :
  plain s ->
  split (renderSession s) [BAR]
  = [ name s; description s; ofN (conflictCount s);
      terminated [SEMI; SEMI] (alphaProblems s);
      terminated [SEMI; SEMI] (betaProblems s) ].
Proof.
  intros H. apply split_join_char; [discriminate|].
  apply plain_fields; [exact H | now left].
Qed.

Lemma terminated_visibleEnd (ps : list text) :
  visibleEnd ([BAR] ++ terminated [SEMI; SEMI] ps).
Proof.
  destruct ps as [|p ps]; [reflexivity|].
  rewrite terminated_join by discriminate.
  change [SEMI; SEMI] with ([SEMI] ++ [SEMI]) at 2.
  rewrite !app_assoc. apply visibleEnd_app; [discriminate | reflexivity].
Qed.

Lemma renderSession_visible (s : Session) :
  plain s ->
  renderSession s <> [] /\ visibleStart (renderSession s)
  /\ visibleEnd (renderSession s).
Proof.
  intros [Hn [Hv _]]. unfold renderSession.
  cbn [join]. split; [|split].
  - intros E. apply app_eq_nil in E as [E _]. now apply Hn.
  - now apply visibleStart_app.
  - rewrite !app_assoc. rewrite <- app_assoc.
    apply visibleEnd_app; [discriminate | apply terminated_visibleEnd].
Qed.

Lemma problems_terminated (ps : list text) :
  Forall plainProblem ps ->
  problems (Some (terminated [SEMI; SEMI] ps)) = ps.
Proof.
  intros H. destruct ps as [|p ps]; [reflexivity|].
  assert (E : filter truthy
                (split (terminated [SEMI; SEMI] (p :: ps)) [SEMI; SEMI])
              = p :: ps).
  { rewrite split_terminated_pair.
    - rewrite filter_app. change (filter truthy [[]]) with (@nil text).
      rewrite app_nil_r.
      apply filter_truthy_all. eapply Forall_impl; [|exact H].
      now intros q [Hq _].
    - eapply Forall_impl; [|exact H]. now intros q [_ [Hq _]]. }
  unfold problems.
  destruct (terminated [SEMI; SEMI] (p :: ps)) as [|c r] eqn:Et;
    [|exact E].
  inversion H as [|? ? [Hp _] _]; subst.
  unfold terminated in Et. cbn [map concat] in Et.
  apply app_eq_nil in Et as [Et _]. apply app_eq_nil in Et as [Et _].
  now elim Hp.
Qed.

Lemma statusOfLine_render (s : Session) :
  plain s -> statusOfLine (split (renderSession s) (txt "|")) = report s.
Proof.
  intros H. change (txt "|") with [BAR]. rewrite split_renderSession by exact H.
  destruct H as [_ [_ [_ [_ [_ [_ [Ha [Hb _]]]]]]]].
  unfold statusOfLine, report. cbn [nth_error]. cbv zeta. f_equal.
  - unfold orElse. pose proof (ofN_nonempty (conflictCount s)) as Hn.
    destruct (ofN (conflictCount s)) as [|c r] eqn:E; [now elim Hn|].
    rewrite <- E, parseInt10_ofN, N2Z.id.
    destruct (conflictCount s); reflexivity.
  - change (txt ";;") with [SEMI; SEMI] in *.
    now rewrite !problems_terminated.
Qed.

Lemma scanLines_render (sessionName : text) (ss : list Session) :
  Forall plain ss ->
  scanLines sessionName (map renderSession ss)
  = match find (fun s => text_eqb (name s) sessionName) ss with
    | Some s => report s
    | None => mkSyncStatus disconnected [] []
    end.
Proof.
  induction 1 as [|s ss Hs Hss IH]; [reflexivity|].
  cbn [map scanLines find]. cbv zeta.
  rewrite statusOfLine_render by exact Hs.
  change (txt "|") with [BAR]. rewrite split_renderSession by exact Hs.
  cbn [hd]. destruct (text_eqb (name s) sessionName); [reflexivity|].
  exact IH.
Qed.

Lemma listing_lines (ss : list Session) :
  Forall plain ss ->
  filter truthy (split (trim (terminated [LF] (map renderSession ss))) [LF])
  = map renderSession ss.
Proof.
  intros H. destruct ss as [|s ss]; [reflexivity|].
  rewrite terminated_join by discriminate.
  destruct (@join_visible (map renderSession (s :: ss))) as [J1 [J2 J3]].
  { discriminate. }
  { apply Forall_map. eapply Forall_impl; [|exact H].
    intros x. apply renderSession_visible. }
  rewrite trim_line_feed by assumption.
  rewrite split_join_char.
  - apply filter_truthy_all. apply Forall_map.
    eapply Forall_impl; [|exact H].
    intros x Hx. now destruct (renderSession_visible Hx).
  - discriminate.
  - apply Forall_map. eapply Forall_impl; [|exact H].
    intros x Hx. unfold renderSession. apply absent_join; [reflexivity|].
    apply plain_fields; [exact Hx | now right].
Qed.

Section Engine.

Variable canonicalPath : text -> text.
Variable spawnMutagen : list text -> ProcResult.
Variable sessions : list Session.

Local Abbreviation listing :=
  (spawnMutagen
     [txt "sync"; txt "list"; txt "--template"; statusTemplate]).

Hypothesis list_ok : exitCode listing = 0%Z.
Hypothesis list_out :
  stdout listing = terminated [LF] (map renderSession sessions).
Hypothesis sessions_ok : Forall plain sessions.

(** When the engine lists its sessions as the template renders them,
    with fields that can be told apart and conflict counts below 2^53,
    [getSyncStatus] reports the first session named after the path: its
    status as [parseSessionStatus] classifies the description, one
    conflict message exactly when the count is positive, and the
    problems of both endpoints, alpha first; a path with no session is
    reported as disconnected. *)
Theorem getSyncStatus_listing (localPath : text) :
  getSyncStatus canonicalPath spawnMutagen localPath
  = match find (fun s => text_eqb (name s)
                           (getSyncSessionName canonicalPath localPath))
               sessions with
    | Some s => report s
    | None => mkSyncStatus disconnected [] []
    end.
Proof.
  unfold getSyncStatus, runMutagen. cbv zeta. cbn [exitCode stdout].
  rewrite list_ok, list_out. cbn [Z.eqb negb].
  rewrite listing_lines by exact sessions_ok.
  now apply scanLines_render.
Qed.

End Engine.

(** The session of [/home/dev/app], halted. *)
Definition appSession : Session :=
  mkSession (txt "haven-tnfwkm")
            (txt "Halted due to conflicts") 2
            [txt "permission denied: secrets.txt"]
            [txt "unreadable: cache"; txt "too long: deep/path"].

Definition idleSession : Session :=
  mkSession (txt "docs-mirror") (txt "Watching for changes") 0 [] [].

(** An engine with two sessions. *)
Definition listingEngine (args : list text) : ProcResult :=
  mkProc 0 (terminated [LF] (map renderSession [idleSession; appSession]))
         [].

Lemma getSyncStatus_listing_witness :
  getSyncStatus (fun p => p) listingEngine (txt "/home/dev/app")
  = mkSyncStatus halted [txt "2 conflict(s) detected"]
      [txt "permission denied: secrets.txt"; txt "unreadable: cache";
       txt "too long: deep/path"]
  /\ getSyncStatus (fun p => p) listingEngine (txt "/home/dev/other")
     = mkSyncStatus disconnected [] [].
Proof.
  assert (H1 : exitCode
                 (listingEngine
                    [txt "sync"; txt "list"; txt "--template";
                     statusTemplate]) = 0%Z) by reflexivity.
  assert (H2 : stdout
                 (listingEngine
                    [txt "sync"; txt "list"; txt "--template";
                     statusTemplate])
               = terminated [LF]
                   (map renderSession [idleSession; appSession]))
    by reflexivity.
  assert (H3 : Forall plain [idleSession; appSession]).
  { repeat (apply Forall_cons || apply Forall_nil || split);
      try discriminate; vm_compute; reflexivity. }
  split.
  - rewrite (@getSyncStatus_listing (fun p => p) listingEngine
               [idleSession; appSession] H1 H2 H3 (txt "/home/dev/app")).
    vm_compute. reflexivity.
  - rewrite (@getSyncStatus_listing (fun p => p) listingEngine
               [idleSession; appSession] H1 H2 H3 (txt "/home/dev/other")).
    vm_compute. reflexivity.
Defined.

End StatusFacts.

(** ** The whole run of [connect] *)

Module ConnectRunFacts.

Import Connect ConnectFacts.

Definition isSave (e : Event) : bool :=
  match e with SaveConnection _ | SaveSession _ _ => true | _ => false end.

Definition isWrite (e : Event) : bool :=
  match e with WriteHostConfig _ _ _ _ => true | _ => false end.

Definition isPrompt (e : Event) : bool :=
  match e with Prompt _ => true | _ => false end.

Definition isRemoteEnv (e : Event) : bool :=
  match e with GetRemoteEnv _ _ => true | _ => false end.

Section World.

Variable w : World.
Variable generateSshAlias : text -> N -> text.
Variable parseDuration : text -> option N.
Variable localPath : text.
Variable config : ConnectionConfig.
Variable options : ConnectOptions.

Local Abbreviation result :=
  (run w generateSshAlias parseDuration localPath config options).
Local Abbreviation alias :=
  (match sshAlias config with
   | Some a => a
   | None => generateSshAlias (host config) (port config)
   end).
Local Abbreviation before := (beforeProbe generateSshAlias config options).
Local Abbreviation tail :=
  (afterProbe w generateSshAlias parseDuration localPath config options).

(** The remote side answered a probe: the first one, or the retry of
    the recovery. *)
Definition connected : bool :=
  negb (probeFailed w) || (rotated w && confirmed w && retryOk w).

Definition syncStarted : bool :=
  match startSyncResult w with Ok _ => true | Throw _ => false end.

(** [--idle-timeout] was given (and is not empty). *)
Definition timeoutGiven : bool :=
  match idleTimeout options with Some (_ :: _) => true | _ => false end.

(** The idle timeout that is saved with the session. *)
Definition savedTimeout : option N :=
  match idleTimeout options with
  | Some ((_ :: _) as d) => parseDuration d
  | _ =>
      if (exitCode (sshPrintenv w) =? 0)%Z
      then match Js.trim (stdout (sshPrintenv w)) with
           | (_ :: _) as d => parseDuration d
           | [] => None
           end
      else None
  end.

Definition gitignoreOption : bool :=
  match useGitignore options with Some b => b | None => false end.

(** The operator is asked about the ignore file. *)
Definition asked : bool := negb gitignoreOption && gitignoreExists w.

(** The flag the sync is started with when the question about the
    ignore file is the [n]-th prompt. *)
Definition syncFlag (n : nat) : bool :=
  if asked
  then let answer := Js.trim (typed w n) in
       negb (text_eqb
               (Js.toLowerCase (if Js.truthy answer then answer else txt "Y"))
               (txt "n"))
  else gitignoreOption.

(** The events after a probe that succeeded. *)
Definition tailEvents (n : nat) : list Event :=
  (if timeoutGiven then []
   else [GetRemoteEnv alias (txt "HAVEN_IDLE_TIMEOUT")])
  ++ (if asked then [Prompt gitignoreQuestion] else [])
  ++ [StartSync localPath alias (syncFlag n)]
  ++ (if syncStarted
      then [SaveConnection localPath; SaveSession localPath savedTimeout]
      else []).

Lemma tail_eq (s : State) :
  tail s
  = (if syncStarted then Return tt else Exit 1%Z,
     mkState (probesDone s)
             (if asked then S (promptsDone s) else promptsDone s)
             (trace s ++ tailEvents (promptsDone s))).
Proof.
  unfold afterProbe, resolveIdleTimeout, resolveUseGitignore,
    getRemoteEnv, startSync, prompt, emit, bind, ret, exit,
    tailEvents, syncFlag, asked, gitignoreOption, timeoutGiven,
    savedTimeout, syncStarted.
  destruct (idleTimeout options) as [[|? ?]|];
    destruct (exitCode (sshPrintenv w) =? 0)%Z;
    try destruct (Js.trim (stdout (sshPrintenv w)));
    destruct (useGitignore options) as [[|]|];
    destruct (gitignoreExists w);
    destruct (startSyncResult w);
    cbn [negb andb fst snd trace probesDone promptsDone Js.truthy app];
    rewrite <- ?app_assoc; reflexivity.
Qed.

(** The events up to the end of the probing. *)
Definition probeEvents : list Event :=
  TestConnection alias
  :: (if probeFailed w && rotated w
      then Prompt fingerprintQuestion
           :: (if confirmed w
               then [RemoveHostKey (host config) (port config);
                     TestConnection alias]
               else [])
      else []).

(** The run, event by event. *)
Lemma run_eq :
  result
  = (if connected && syncStarted then Return tt else Exit 1%Z,
     mkState (if recovering w then 2 else 1)
             ((if probeFailed w && rotated w then 1 else 0)
              + (if connected && asked then 1 else 0))
             (before ++ probeEvents
              ++ (if connected
                  then tailEvents (if recovering w then 1 else 0)
                  else []))).
Proof.
  rewrite result_cases. cbv zeta. unfold connected, recovering, probeEvents.
  destruct (probeFailed w), (rotated w), (confirmed w), (retryOk w);
    rewrite ?tail_eq;
    cbn [negb andb orb probesDone promptsDone trace app Nat.add];
    rewrite <- ?app_assoc; cbn [app]; rewrite ?app_nil_r;
    destruct asked; reflexivity.
Qed.

Lemma before_counts :
  count isSave before = 0 /\ count isWrite before = 1
  /\ count isProbe before = 0 /\ count isPrompt before = 0
  /\ count isRemoteEnv before = 0 /\ count isStartSync before = 0.
Proof.
  unfold beforeProbe.
  destruct (resetHostKey options) as [[|]|]; repeat split.
Qed.

(** [connect] returns exactly when a probe was answered and the sync
    started; it then has recorded the connection and the session, with
    the idle timeout, as the last two things it did, and nowhere before.
    In every other case the process ends with code 1 and nothing is
    recorded. *)
Theorem connect_outcome :
  match fst result with
  | Return _ =>
      connected && syncStarted = true
      /\ exists evs,
           trace (snd result)
           = evs ++ [SaveConnection localPath;
                     SaveSession localPath savedTimeout]
           /\ count isSave evs = 0
  | Exit code =>
      code = 1%Z /\ connected && syncStarted = false
      /\ count isSave (trace (snd result)) = 0
  end.
Proof.
  rewrite run_eq. cbn [fst snd trace].
  destruct before_counts as [Hb _].
  destruct connected eqn:Ec; cbn [andb].
  - destruct syncStarted eqn:Es.
    + split; [reflexivity|].
      exists (before ++ probeEvents
              ++ (if timeoutGiven then []
                  else [GetRemoteEnv alias (txt "HAVEN_IDLE_TIMEOUT")])
              ++ (if asked then [Prompt gitignoreQuestion] else [])
              ++ [StartSync localPath alias
                    (syncFlag (if recovering w then 1 else 0))]).
      split.
      * unfold tailEvents. rewrite Es. now rewrite <- !app_assoc.
      * rewrite !count_app, Hb. unfold probeEvents.
        destruct (probeFailed w), (rotated w), (confirmed w), timeoutGiven,
          asked; reflexivity.
    + split; [reflexivity|]. split; [reflexivity|].
      rewrite !count_app, Hb. unfold probeEvents, tailEvents. rewrite Es.
      destruct (probeFailed w), (rotated w), (confirmed w), timeoutGiven,
        asked; reflexivity.
  - split; [reflexivity|]. split; [reflexivity|].
    rewrite !count_app, Hb. unfold probeEvents.
    destruct (probeFailed w), (rotated w), (confirmed w); reflexivity.
Qed.

(** Every run, also one that fails, writes the host block of the alias
    exactly once, after at most the purge [--reset-host-key] asks for and
    right before the first probe; there are one or two probes and at most
    two questions, and the counters of the state agree with the trace. *)
Theorem connect_writes_once :
  count isWrite (trace (snd result)) = 1
  /\ (exists rest,
        trace (snd result)
        = (if match resetHostKey options with Some b => b | None => false end
           then [RemoveHostKey (host config) (port config)] else [])
          ++ WriteHostConfig alias (host config) (port config) (user config)
          :: TestConnection alias :: rest)
  /\ count isProbe (trace (snd result)) = probesDone (snd result)
  /\ count isPrompt (trace (snd result)) = promptsDone (snd result)
  /\ 1 <= probesDone (snd result) <= 2
  /\ promptsDone (snd result) <= 2.
Proof.
  rewrite run_eq. cbn [snd trace probesDone promptsDone].
  destruct before_counts as [_ [Hw [Hp [Hq _]]]].
  split; [|split; [|split; [|split; [|split]]]].
  - rewrite !count_app, Hw. unfold probeEvents, tailEvents.
    destruct (probeFailed w), (rotated w), (confirmed w), connected,
      timeoutGiven, asked, syncStarted; reflexivity.
  - unfold beforeProbe at 1, probeEvents. rewrite <- app_assoc.
    cbn [app]. eexists. reflexivity.
  - rewrite !count_app, Hp. unfold probeEvents, tailEvents, connected,
      recovering.
    destruct (probeFailed w), (rotated w), (confirmed w), (retryOk w),
      timeoutGiven, asked, syncStarted; reflexivity.
  - rewrite !count_app, Hq. unfold probeEvents, tailEvents, connected.
    destruct (probeFailed w), (rotated w), (confirmed w), (retryOk w),
      timeoutGiven, asked, syncStarted; reflexivity.
  - destruct (recovering w); lia.
  - destruct (probeFailed w && rotated w), (connected && asked); cbn; lia.
Qed.

(** What is asked and what is passed on.  With [--idle-timeout] the
    remote side is never asked for its timeout and the value given is
    the one saved; with [--use-gitignore], or without an ignore file,
    the operator is not asked about it, and the sync is started with the
    option as given; and the sync is started at most once, for the local
    path and the alias, only after a probe was answered. *)
Theorem connect_options :
  (forall c d, idleTimeout options = Some (c :: d) ->
     count isRemoteEnv (trace (snd result)) = 0
     /\ forall p idle, In (SaveSession p idle) (trace (snd result)) ->
                       idle = parseDuration (c :: d))
  /\ (useGitignore options = Some true \/ gitignoreExists w = false ->
      ~ In (Prompt gitignoreQuestion) (trace (snd result))
      /\ forall p a g, In (StartSync p a g) (trace (snd result)) ->
                       g = gitignoreOption)
  /\ filter isStartSync (trace (snd result))
     = if connected
       then [StartSync localPath alias
               (syncFlag (if recovering w then 1 else 0))]
       else [].
Proof.
  rewrite run_eq. cbn [snd trace].
  assert (Hin : forall e, In e before ->
                  isPurge e = true \/ isWrite e = true).
  { unfold beforeProbe. intros e.
    destruct (resetHostKey options) as [[|]|]; cbn [app In];
      intros H; repeat (destruct H as [<- | H]; [auto|]); destruct H. }
  destruct before_counts as [_ [_ [_ [_ [Hr Hs]]]]].
  split; [|split].
  - intros c d Ho.
    assert (Ht : timeoutGiven = true) by (unfold timeoutGiven; now rewrite Ho).
    assert (Hv : savedTimeout = parseDuration (c :: d))
      by (unfold savedTimeout; now rewrite Ho).
    split.
    + rewrite !count_app, Hr. unfold probeEvents, tailEvents. rewrite Ht.
      destruct (probeFailed w), (rotated w), (confirmed w), connected,
        asked, syncStarted; reflexivity.
    + intros p idle H. apply in_app_or in H as [H | H].
      { apply Hin in H as [H | H]; discriminate H. }
      apply in_app_or in H as [H | H].
      { unfold probeEvents in H.
        destruct (probeFailed w), (rotated w), (confirmed w);
          cbn [andb In] in H;
          repeat (destruct H as [H | H]; [discriminate H|]); destruct H. }
      unfold tailEvents in H. rewrite Ht, Hv in H.
      destruct connected, asked, syncStarted; cbn [app In] in H;
        repeat (destruct H as [H | H];
                [try discriminate H; injection H as _ <-; reflexivity|]);
        destruct H.
  - intros Ho.
    assert (Ha : asked = false).
    { unfold asked, gitignoreOption.
      destruct Ho as [-> | ->]; [reflexivity | apply andb_false_r]. }
    split.
    + intros H. apply in_app_or in H as [H | H].
      { apply Hin in H as [H | H]; discriminate H. }
      apply in_app_or in H as [H | H].
      { unfold probeEvents in H.
        destruct (probeFailed w), (rotated w), (confirmed w);
          cbn [andb In] in H;
          repeat (destruct H as [H | H]; [discriminate H|]); destruct H. }
      unfold tailEvents in H. rewrite Ha in H.
      destruct connected, timeoutGiven, syncStarted; cbn [app In] in H;
        repeat (destruct H as [H | H]; [discriminate H|]); destruct H.
    + intros p a g H. apply in_app_or in H as [H | H].
      { apply Hin in H as [H | H]; discriminate H. }
      apply in_app_or in H as [H | H].
      { unfold probeEvents in H.
        destruct (probeFailed w), (rotated w), (confirmed w);
          cbn [andb In] in H;
          repeat (destruct H as [H | H]; [discriminate H|]); destruct H. }
      unfold tailEvents, syncFlag in H. rewrite Ha in H.
      destruct connected, timeoutGiven, syncStarted; cbn [app In] in H;
        repeat (destruct H as [H | H];
                [try discriminate H; injection H as _ _ <-; reflexivity|]);
        destruct H.
  - assert (Hf : filter isStartSync before = []).
    { unfold count in Hs. now apply length_zero_iff_nil. }
    rewrite !filter_app, Hf. unfold probeEvents, tailEvents.
    destruct (probeFailed w), (rotated w), (confirmed w), connected,
      timeoutGiven, asked, syncStarted; reflexivity.
Qed.

End World.

(** A workspace that answers the first probe, in a directory with an
    ignore file; the remote side would announce a timeout of its own. *)
Definition directWorld : World :=
  mkWorld (fun _ => mkProc 0 (txt "ok") []) (fun _ => [])
          (mkProc 0 (txt "1h") []) true (Ok (txt "haven-1x2y3z")).

Definition seconds (d : text) : option N :=
  if text_eqb d (txt "30m") then Some 1800%N
  else if text_eqb d (txt "1h") then Some 3600%N else None.

Definition bothOptions : ConnectOptions :=
  mkOptions (Some (txt "30m")) None (Some true).

Lemma connect_options_witness :
  count isRemoteEnv
    (trace (snd (run directWorld noAlias seconds (txt "/home/dev/app")
                     someConfig bothOptions))) = 0
  /\ ~ In (Prompt gitignoreQuestion)
          (trace (snd (run directWorld noAlias seconds
                           (txt "/home/dev/app") someConfig bothOptions))).
Proof.
  pose proof (connect_options directWorld noAlias seconds
                (txt "/home/dev/app") someConfig bothOptions)
    as [H1 [H2 _]].
  assert (Ho : idleTimeout bothOptions
               = Some ("3"%char :: txt "0m")) by reflexivity.
  assert (Hg : useGitignore bothOptions = Some true
               \/ gitignoreExists directWorld = false)
    by (left; reflexivity).
  split; [exact (proj1 (H1 _ _ Ho)) | exact (proj1 (H2 Hg))].
Defined.

End ConnectRunFacts.

(** ** The workspace address and the key setup *)

Module KeySetupFacts.

Import Js Keys KeySetup SplitFacts.

Lemma includes_absent (c : ascii) (s : text) :
  absent c s = true -> includes s [c] = false.
Proof.
  induction s as [|d s IH]; [reflexivity|].
  cbn [absent forallb]. intros H. apply andb_true_iff in H as [Hd Hs].
  cbn [includes startsWith]. rewrite Ascii.eqb_sym.
  apply negb_true_iff in Hd. rewrite Hd. cbn [andb orb]. now apply IH.
Qed.

Lemma includes_present (c : ascii) (a b : text) :
  includes (a ++ c :: b) [c] = true.
Proof. apply JsFacts.includes_app. now exists a, b. Qed.

Lemma replaceFirst_prefix (p s : text) : replaceFirst (p ++ s) p [] = s.
Proof.
  destruct p as [|c p]; [now destruct s|].
  cbn [app replaceFirst].
  change (c :: p ++ s) with ((c :: p) ++ s).
  rewrite JsFacts.startsWith_same. cbn [app].
  change (c :: p ++ s) with ((c :: p) ++ s).
  now rewrite skipn_app, skipn_all, Nat.sub_diag.
Qed.

Lemma replaceFirst_suffix (c : ascii) (q s : text) :
  absent c s = true -> replaceFirst (s ++ c :: q) (c :: q) [] = s.
Proof.
  induction s as [|d s IH]; intros H.
  - pose proof (replaceFirst_prefix (c :: q) []) as H0.
    rewrite app_nil_r in H0. exact H0.
  - cbn [absent forallb] in H. apply andb_true_iff in H as [Hd Hs].
    cbn [app replaceFirst]. unfold startsWith at 1. fold startsWith.
    rewrite Ascii.eqb_sym. apply negb_true_iff in Hd. rewrite Hd.
    cbn [andb]. now rewrite IH.
Qed.

(** The address of a workspace is the same whether it is named by its
    bare name or by its SSH host [ssh-<name>.envhaven.app]; a target
    with a user part that does not start with [ssh-] has no address. *)
Theorem getWorkspaceUrl_forms (name : text) :
  name <> [] -> absent "."%char name = true ->
  absent "@"%char name = true ->
  getWorkspaceUrl (Some name)
  = Some (txt "https://" ++ name ++ txt ".envhaven.app")
  /\ getWorkspaceUrl (Some (txt "ssh-" ++ name ++ txt ".envhaven.app"))
     = Some (txt "https://" ++ name ++ txt ".envhaven.app")
  /\ forall target,
       includes target (txt "@") = true ->
       startsWith target (txt "ssh-") = false ->
       getWorkspaceUrl (Some target) = None.
Proof.
  intros Hn Hd Ha. split; [|split].
  - unfold getWorkspaceUrl.
    destruct name as [|c r] eqn:E; [now elim Hn|]. rewrite <- E in *.
    change (txt "@") with ["@"%char]. change (txt ".") with ["."%char].
    now rewrite !includes_absent.
  - unfold getWorkspaceUrl.
    change (txt "ssh-" ++ name ++ txt ".envhaven.app")
      with ("s"%char :: txt "sh-" ++ name ++ txt ".envhaven.app").
    cbv iota.
    change ("s"%char :: txt "sh-" ++ name ++ txt ".envhaven.app")
      with (txt "ssh-" ++ name ++ txt ".envhaven.app").
    assert (Hi : includes (txt "ssh-" ++ name ++ txt ".envhaven.app")
                          (txt ".") = true).
    { rewrite app_assoc. apply (includes_present "."%char). }
    rewrite Hi, andb_false_r.
    assert (He : endsWith (txt "ssh-" ++ name ++ txt ".envhaven.app")
                          (txt ".envhaven.app") = true).
    { apply KeysMoreFacts.endsWith_app. exists (txt "ssh-" ++ name).
      now rewrite <- app_assoc. }
    rewrite He, JsFacts.startsWith_same. cbn [andb].
    rewrite replaceFirst_prefix.
    change (txt ".envhaven.app") with ("."%char :: txt "envhaven.app").
    now rewrite replaceFirst_suffix.
  - intros target Hi Hs. unfold getWorkspaceUrl.
    destruct target as [|c r]; [reflexivity|].
    now rewrite Hi, Hs, andb_false_r.
Qed.

Lemma getWorkspaceUrl_forms_witness :
  getWorkspaceUrl (Some (txt "blue-otter-42"))
  = Some (txt "https://blue-otter-42.envhaven.app")
  /\ getWorkspaceUrl (Some (txt "ssh-blue-otter-42.envhaven.app"))
     = Some (txt "https://blue-otter-42.envhaven.app")
  /\ getWorkspaceUrl (Some (txt "abc@ssh-blue-otter-42.envhaven.app"))
     = None.
Proof.
  assert (H1 : txt "blue-otter-42" <> []) by discriminate.
  assert (H2 : absent "."%char (txt "blue-otter-42") = true)
    by reflexivity.
  assert (H3 : absent "@"%char (txt "blue-otter-42") = true)
    by reflexivity.
  destruct (getWorkspaceUrl_forms H1 H2 H3) as [E1 [E2 E3]].
  split; [exact E1|]. split; [exact E2|].
  apply E3; reflexivity.
Defined.

Section Setup.

Variable m : Machine.
Variable typed : nat -> text.
Variable generated : result SshKeyInfo.
Variable workspaceUrl : option text.

Local Abbreviation outcome :=
  (ensureUsableKey m typed generated workspaceUrl initial).

(** The choice the operator makes when asked: the default is [1]. *)
Definition choice : text :=
  let answer := trim (typed 0) in
  if truthy answer then answer else txt "1".

(** [ensureUsableKey] does nothing at all, and asks nothing, exactly
    when some key pair is found and [hasUsableKey] holds.  Otherwise it
    generates the managed key, once, without asking when no key pair is
    found and after the operator chose [1] when all keys are encrypted;
    it then shows the new public key and waits for Enter, or throws what
    the generation threw.  Any other choice ends the process with code 1
    and generates nothing. *)
Theorem ensureUsableKey_cases :
  if negb (length (findExistingKeys m None) =? 0) && hasUsableKey m None
  then outcome = (Return tt, initial)
  else
    let asked := negb (length (findExistingKeys m None) =? 0) in
    let before :=
      if asked
      then [Warn (analyzeKeys m None); Ask (txt "Choice") (Some (txt "1"))]
      else [Announce] in
    if asked && negb (text_eqb choice (txt "1"))
    then outcome = (Exit 1%Z, mkState 1 (before ++ [Advise]))
    else
      match generated with
      | Ok key =>
          outcome
          = (Return tt,
             mkState (if asked then 2 else 1)
               (before
                ++ [Generate; Show (publicKey key) workspaceUrl;
                    Ask (txt "Press Enter when ready...") None]))
      | Throw e =>
          outcome
          = (Raise e, mkState (if asked then 1 else 0) (before ++ [Generate]))
      end.
Proof.
  unfold ensureUsableKey, hasUsableKey, choice. cbv zeta.
  destruct (length (findExistingKeys m None) =? 0); cbn [negb andb].
  - unfold generateHavenKey, showGeneratedKey, prompt, emit, bind, ret.
    destruct generated; reflexivity.
  - destruct (hasHavenKey m None); [reflexivity|].
    destruct (existsb usable (analyzeKeys m None)); [reflexivity|].
    unfold promptForEncryptedKeyResolution, generateHavenKey,
      showGeneratedKey, prompt, emit, bind, ret, exit.
    cbn [promptsDone trace app].
    destruct (text_eqb _ (txt "1")); cbn [negb];
      [destruct generated|]; reflexivity.
Qed.

End Setup.

(** *** The managed public key *)

(** The public key shown for the managed key is the one discovery
    found for it. *)
Theorem getHavenPublicKey_discovered (m : Machine) (dir : option text)
        (k : SshKeyInfo) :
  In k (findExistingKeys m dir) ->
  privateKeyPath k = getHavenKeyPath m dir ->
  existsSync m (publicKeyPath k) = true ->
  HavenKey.getHavenPublicKey m dir = Some (publicKey k)
  /\ hasHavenKey m dir = true.
Proof.
  intros Hk Hp Hx.
  destruct (KeysMoreFacts.findExistingKeys_discovered m dir k Hk)
    as [_ [file [_ Hd]]].
  destruct Hd as [_ [_ [Hpub [Hpriv [_ [[content [Hr Hc]] _]]]]]].
  unfold HavenKey.getHavenPublicKey, hasHavenKey. cbv zeta.
  rewrite <- Hp, <- Hpub, Hx, Hr, Hc, Hpriv. split; reflexivity.
Qed.

(** A directory that holds the managed key pair. *)
Definition managedMachine : Machine :=
  mkMachine (txt "/home/dev/.ssh") (fun _ => true)
    (fun _ => [txt "haven_ed25519"; txt "haven_ed25519.pub"])
    (fun _ => Some (txt "ssh-ed25519 AAAAC3NzaC1lZDI1 haven-cli" ++ [LF]))
    (fun _ => mkProc 0 (txt "256 SHA256:Zm9vYmFy haven-cli (ED25519)") [])
    (fun _ => mkProc 0 [] [])
    (mkProc 1 [] []).

Definition managedKey : SshKeyInfo :=
  mkKey (txt "/home/dev/.ssh/haven_ed25519")
        (txt "/home/dev/.ssh/haven_ed25519.pub")
        (txt "ssh-ed25519 AAAAC3NzaC1lZDI1 haven-cli").

Lemma getHavenPublicKey_discovered_witness :
  HavenKey.getHavenPublicKey managedMachine None
  = Some (txt "ssh-ed25519 AAAAC3NzaC1lZDI1 haven-cli")
  /\ hasHavenKey managedMachine None = true.
Proof.
  assert (H1 : In managedKey (findExistingKeys managedMachine None))
    by (vm_compute; left; reflexivity).
  assert (H2 : privateKeyPath managedKey
               = getHavenKeyPath managedMachine None) by reflexivity.
  assert (H3 : existsSync managedMachine (publicKeyPath managedKey) = true)
    by reflexivity.
  exact (getHavenPublicKey_discovered managedMachine None managedKey
           H1 H2 H3).
Defined.

End KeySetupFacts.
